(** * nanoarrow R bindings: materialisation of Arrow arrays into R vectors

    A shallow embedding of [r/src/materialize.c] and the properties of its
    allocator, null pre-fill, fallback bridge, nested materialisers and
    dispatcher. *)

From Stdlib Require Import ZArith Lia Bool String DecimalString.
From stdpp Require Import base option list.

Set Warnings "-register-all".

Local Open Scope string_scope.
Local Open Scope list_scope.
Local Open Scope Z_scope.

(** ** Outcomes

    A C function of the package either returns, leaves through [Rf_error]
    (a [longjmp] into the R interpreter: whatever was written so far stays
    written), or has no defined behaviour (a store outside an array). *)

Inductive outcome (A : Type) : Type :=
| Ret (a : A)
| Rf_error (msg : string)
| Undefined.

Arguments Ret {A} a.
Arguments Rf_error {A} msg.
Arguments Undefined {A}.

#[global] Instance outcome_ret : MRet outcome := fun A a => Ret a.

#[global] Instance outcome_bind : MBind outcome := fun A B k r =>
  match r with
  | Ret a => k a
  | Rf_error msg => Rf_error msg
  | Undefined => Undefined
  end.

Definition is_Rf_error {A} (r : outcome A) : Prop :=
  exists msg, r = Rf_error msg.

(** ** The R value model *)

Module R.

(** The storage types of R objects that can reach this file: a ptype or a
    conversion result is [NULL] or a vector. *)
Inductive SEXPTYPE :=
| NILSXP | LGLSXP | INTSXP | REALSXP | CPLXSXP | STRSXP | VECSXP | EXPRSXP
| RAWSXP.

Definition SEXPTYPE_eqb (a b : SEXPTYPE) : bool :=
  match a, b with
  | NILSXP, NILSXP | LGLSXP, LGLSXP | INTSXP, INTSXP | REALSXP, REALSXP
  | CPLXSXP, CPLXSXP | STRSXP, STRSXP | VECSXP, VECSXP | EXPRSXP, EXPRSXP
  | RAWSXP, RAWSXP => true
  | _, _ => false
  end.

(** Elements of a character vector. *)
Inductive CHARSXP :=
| NA_STRING
| mkChar (s : string).

(** A [double] is kept as its 64-bit pattern: the code only stores and
    copies doubles, it never computes with them. *)
Definition double := Z.

Definition INT_MAX : Z := 2147483647.
Definition NA_INTEGER : Z := -2147483648.
Definition NA_LOGICAL : Z := NA_INTEGER.
(** The quiet NaN with payload 1954. *)
Definition NA_REAL : double := 9218868437227407266.

Inductive payload (X : Type) : Type :=
| Logical (v : list Z)
| Integer (v : list Z)
| Real (v : list double)
| Complex (v : list (double * double))
| Character (v : list CHARSXP)
| Generic (v : list X)
| Expression (v : list X)
| Raw (v : list Z).

Arguments Logical {X} v.
Arguments Integer {X} v.
Arguments Real {X} v.
Arguments Complex {X} v.
Arguments Character {X} v.
Arguments Generic {X} v.
Arguments Expression {X} v.
Arguments Raw {X} v.

(** An R object: [NULL], or a vector with its attribute pairlist (tag and
    value, in order) and its data. *)
Inductive SEXP : Type :=
| R_NilValue
| Robj (attrib : list (string * SEXP)) (data : payload SEXP).

Definition R_NamesSymbol := "names".
Definition R_RowNamesSymbol := "row.names".
Definition R_ClassSymbol := "class".
Definition R_LevelsSymbol := "levels".
Definition R_DimSymbol := "dim".
Definition R_DimNamesSymbol := "dimnames".

Definition TYPEOF (x : SEXP) : SEXPTYPE :=
  match x with
  | R_NilValue => NILSXP
  | Robj _ (Logical _) => LGLSXP
  | Robj _ (Integer _) => INTSXP
  | Robj _ (Real _) => REALSXP
  | Robj _ (Complex _) => CPLXSXP
  | Robj _ (Character _) => STRSXP
  | Robj _ (Generic _) => VECSXP
  | Robj _ (Expression _) => EXPRSXP
  | Robj _ (Raw _) => RAWSXP
  end.

Definition ATTRIB (x : SEXP) : list (string * SEXP) :=
  match x with
  | R_NilValue => []
  | Robj a _ => a
  end.

Definition len {A} (l : list A) : Z := Z.of_nat (length l).

Definition payload_length {X} (d : payload X) : Z :=
  match d with
  | Logical v | Integer v | Real v | Raw v => len v
  | Complex v => len v
  | Character v => len v
  | Generic v | Expression v => len v
  end.

Definition Rf_xlength (x : SEXP) : Z :=
  match x with
  | R_NilValue => 0
  | Robj _ d => payload_length d
  end.

(** [Rf_length] is [Rf_xlength] narrowed to [int]; vectors of more than
    [INT_MAX] elements are outside the model. *)
Definition Rf_length (x : SEXP) : Z := Rf_xlength x.

(** The element list of a generic vector; [VECTOR_ELT] is only applied
    to objects already known to be of type [VECSXP]. *)
Definition elements (x : SEXP) : list SEXP :=
  match x with
  | Robj _ (Generic v) => v
  | _ => []
  end.

Definition VECTOR_ELT (x : SEXP) (i : Z) : SEXP :=
  default R_NilValue (elements x !! Z.to_nat i).

(** Pairlist search by tag, first match. *)
Fixpoint assq (tag : string) (a : list (string * SEXP)) : option SEXP :=
  match a with
  | [] => None
  | (t, v) :: a' => if String.eqb t tag then Some v else assq tag a'
  end.

Fixpoint seqZ (from : Z) (n : nat) : list Z :=
  match n with
  | O => []
  | S n' => from :: seqZ (from + 1) n'
  end.

(** [Rf_getAttrib]: a lookup, except that compact row names [c(NA, -n)]
    (or [c(NA, n)]) are expanded to [1:n]. *)
Definition Rf_getAttrib (x : SEXP) (name : string) : SEXP :=
  match assq name (ATTRIB x) with
  | None => R_NilValue
  | Some v =>
      if String.eqb name R_RowNamesSymbol then
        match v with
        | Robj _ (Integer [first; n]) =>
            if first =? NA_INTEGER
            then Robj [] (Integer (seqZ 1 (Z.abs_nat n)))
            else v
        | _ => v
        end
      else v
  end.

(** The object bit is set exactly when a class attribute is installed. *)
Definition Rf_isObject (x : SEXP) : bool :=
  match assq R_ClassSymbol (ATTRIB x) with
  | Some _ => true
  | None => false
  end.

Definition CHARSXP_is (name : string) (c : CHARSXP) : bool :=
  match c with
  | NA_STRING => false
  | mkChar s => String.eqb s name
  end.

Definition Rf_inherits (x : SEXP) (name : string) : bool :=
  Rf_isObject x &&
  match Rf_getAttrib x R_ClassSymbol with
  | Robj _ (Character klass) => existsb (CHARSXP_is name) klass
  | _ => false
  end.

Fixpoint removeAttrib (name : string) (a : list (string * SEXP))
  : list (string * SEXP) :=
  match a with
  | [] => []
  | (t, v) :: a' =>
      if String.eqb t name then removeAttrib name a'
      else (t, v) :: removeAttrib name a'
  end.

(** Replace the value of an existing tag, or append at the end. *)
Fixpoint installAttrib (name : string) (val : SEXP)
    (a : list (string * SEXP)) : list (string * SEXP) :=
  match a with
  | [] => [(name, val)]
  | (t, v) :: a' =>
      if String.eqb t name then (t, val) :: a'
      else (t, v) :: installAttrib name val a'
  end.

(** [Rf_setAttrib] on a vector; a [NULL] value removes the attribute. *)
Definition Rf_setAttrib (x : SEXP) (name : string) (val : SEXP) : SEXP :=
  match x with
  | R_NilValue => R_NilValue
  | Robj a d =>
      match val with
      | R_NilValue => Robj (removeAttrib name a) d
      | _ => Robj (installAttrib name val a) d
      end
  end.

Definition most_attrib (t : string) : bool :=
  negb (String.eqb t R_NamesSymbol || String.eqb t R_DimSymbol
        || String.eqb t R_DimNamesSymbol).

(** [Rf_copyMostAttrib]: every attribute of [inp] except names, dim and
    dimnames is installed on [ans], in order. *)
Definition Rf_copyMostAttrib (inp ans : SEXP) : SEXP :=
  match ans with
  | R_NilValue => R_NilValue
  | Robj a d =>
      Robj (fold_left (fun acc tv =>
                         if most_attrib tv.1 then installAttrib tv.1 tv.2 acc
                         else acc)
                      (ATTRIB inp) a) d
  end.

Definition R_BlankString : CHARSXP := mkChar "".

(** [Rf_allocVector]: a fresh vector without attributes. Character
    vectors start as blank strings and lists as [NULL]s; the content of a
    fresh atomic vector is not specified by R and is taken as zero. *)
Definition Rf_allocVector (type : SEXPTYPE) (n : Z) : outcome SEXP :=
  if n <? 0 then Rf_error "negative length vectors are not allowed"
  else
    let k := Z.to_nat n in
    match type with
    | NILSXP => Ret R_NilValue
    | LGLSXP => Ret (Robj [] (Logical (replicate k 0)))
    | INTSXP => Ret (Robj [] (Integer (replicate k 0)))
    | REALSXP => Ret (Robj [] (Real (replicate k 0)))
    | CPLXSXP => Ret (Robj [] (Complex (replicate k (0, 0))))
    | STRSXP => Ret (Robj [] (Character (replicate k R_BlankString)))
    | VECSXP => Ret (Robj [] (Generic (replicate k R_NilValue)))
    | EXPRSXP => Ret (Robj [] (Expression (replicate k R_NilValue)))
    | RAWSXP => Ret (Robj [] (Raw (replicate k 0)))
    end.

End R.
Import R.

(** ** Loops and stores *)

(** [for (R_xlen_t i = 0; i < len; i++) body], leaving at the first
    iteration that does not return; the state reached so far is kept. *)
Fixpoint for_from {S : Type} (i : Z) (n : nat)
    (body : Z -> S -> outcome () * S) (s : S) : outcome () * S :=
  match n with
  | O => (Ret (), s)
  | S n' =>
      match body i s with
      | (Ret _, s') => for_from (i + 1) n' body s'
      | r => r
      end
  end.

Definition for_loop {S : Type} (n : Z) (body : Z -> S -> outcome () * S)
    (s : S) : outcome () * S :=
  for_from 0 (Z.to_nat n) body s.

(** A store through an index; [None] outside the array. *)
Definition store {A} (v : list A) (i : Z) (a : A) : option (list A) :=
  if (0 <=? i) && (i <? len v) then Some (<[Z.to_nat i := a]> v) else None.

(** [values[i] = a] on a C array: outside the array the behaviour is
    undefined. *)
Definition poke {A} (i : Z) (a : A) (v : list A) : outcome () * list A :=
  match store v i a with
  | Some v' => (Ret (), v')
  | None => (Undefined, v)
  end.

(** [SET_STRING_ELT] and [SET_VECTOR_ELT] check the index and raise an R
    error outside the vector. *)
Definition set_elt {A} (i : Z) (a : A) (v : list A) : outcome () * list A :=
  match store v i a with
  | Some v' => (Ret (), v')
  | None => (Rf_error "attempt to set index out of range", v)
  end.

(** [memset(p, 0, n)] on the start of an array. *)
Definition memset {A} (v : list A) (a : A) (n : Z) : outcome () * list A :=
  if (0 <=? n) && (n <=? len v)
  then (Ret (), replicate (Z.to_nat n) a ++ drop (Z.to_nat n) v)
  else (Undefined, v).

(** [memcpy(dst + offset, src, n * sizeof(T))]. *)
Definition memcpy {A} (dst : list A) (offset : Z) (src : list A) (n : Z)
  : outcome () * list A :=
  if (0 <=? offset) && (0 <=? n) && (offset + n <=? len dst)
     && (n <=? len src)
  then (Ret (),
        take (Z.to_nat offset) dst ++ take (Z.to_nat n) src
          ++ drop (Z.to_nat (offset + n)) dst)
  else (Undefined, dst).

(** ** Vector types and allocation *)

(** Modelled from the spec: [enum VectorType] is declared in
    [materialize_common.h], which is not among the sources. The target
    shapes are the scalar kinds, list-of, record and unspecified; the
    constructors are the ones [materialize.c] names, and
    [VECTOR_TYPE_OTHER] stands for every other value. *)
Inductive VectorType :=
| VECTOR_TYPE_UNSPECIFIED
| VECTOR_TYPE_LGL
| VECTOR_TYPE_INT
| VECTOR_TYPE_DBL
| VECTOR_TYPE_CHR
| VECTOR_TYPE_POSIXCT
| VECTOR_TYPE_DATE
| VECTOR_TYPE_DIFFTIME
| VECTOR_TYPE_INTEGER64
| VECTOR_TYPE_BLOB
| VECTOR_TYPE_LIST_OF
| VECTOR_TYPE_DATA_FRAME
| VECTOR_TYPE_OTHER.

Definition nanoarrow_alloc_type (vector_type : VectorType) (n : Z)
  : outcome SEXP :=
  match vector_type with
  | VECTOR_TYPE_LGL => Rf_allocVector LGLSXP n
  | VECTOR_TYPE_INT => Rf_allocVector INTSXP n
  | VECTOR_TYPE_DBL => Rf_allocVector REALSXP n
  | VECTOR_TYPE_CHR => Rf_allocVector STRSXP n
  | _ => Ret R_NilValue
  end.

Definition has_attrib_safe (x : SEXP) (sym : string) : bool :=
  existsb (fun tv => String.eqb tv.1 sym) (ATTRIB x).

Definition nanoarrow_data_frame_size (x : SEXP) : Z :=
  if 0 <? Rf_length x then Rf_xlength (VECTOR_ELT x 0)
  else Rf_xlength (Rf_getAttrib x R_RowNamesSymbol).

(** The value of [as.character(seq_len(n))]. *)
Definition as_character_seq_len (n : Z) : SEXP :=
  Robj [] (Character
             (map (fun k => mkChar (DecimalString.NilZero.string_of_int
                                      (Z.to_int k)))
                  (seqZ 1 (Z.to_nat n)))).

Definition nanoarrow_set_rownames (x : SEXP) (n : Z) : SEXP :=
  if n <=? INT_MAX then
    let rownames := Robj [] (Integer [NA_INTEGER; - n]) in
    Rf_setAttrib x R_RowNamesSymbol rownames
  else
    Rf_setAttrib x R_RowNamesSymbol (as_character_seq_len n).

Definition nanoarrow_ptype_is_data_frame (ptype : SEXP) : bool :=
  Rf_isObject ptype && SEXPTYPE_eqb (TYPEOF ptype) VECSXP &&
  (Rf_inherits ptype "data.frame" ||
   ((0 <? Rf_xlength ptype) && has_attrib_safe ptype R_NamesSymbol)).

(** [Robj a (Generic cols)] with the columns replaced. *)
Definition with_elements (x : SEXP) (cols : list SEXP) : SEXP :=
  match x with
  | Robj a (Generic _) => Robj a (Generic cols)
  | _ => x
  end.

Definition factor_guard (ptype : SEXP) : outcome () :=
  if Rf_inherits ptype "factor" then
    let levels := Rf_getAttrib ptype R_LevelsSymbol in
    if Rf_length levels =? 0
    then Rf_error "Can't allocate ptype of class 'factor' with empty levels"
    else Ret ()
  else Ret ().

Fixpoint nanoarrow_materialize_realloc (ptype : SEXP) (n : Z)
  : outcome SEXP :=
  (* for (i = 0; i < num_cols; i++)
       SET_VECTOR_ELT(result, i, realloc(VECTOR_ELT(ptype, i), len)) *)
  let columns :=
    match ptype with
    | Robj _ (Generic cols) =>
        (fix columns (cols : list SEXP) : outcome (list SEXP) :=
           match cols with
           | [] => Ret []
           | col :: rest =>
               c ← nanoarrow_materialize_realloc col n;
               cs ← columns rest;
               Ret (c :: cs)
           end) cols
    | _ => Ret []
    end in
  if Rf_isObject ptype then
    _ ← factor_guard ptype;
    if nanoarrow_ptype_is_data_frame ptype then
      let num_cols := Rf_xlength ptype in
      result ← Rf_allocVector VECSXP num_cols;
      cols ← columns;
      let result := with_elements result cols in
      let result :=
        Rf_setAttrib result R_NamesSymbol (Rf_getAttrib ptype R_NamesSymbol) in
      let result := Rf_copyMostAttrib ptype result in
      if Rf_inherits ptype "data.frame"
      then Ret (nanoarrow_set_rownames result n)
      else Ret result
    else
      result ← Rf_allocVector (TYPEOF ptype) n;
      Ret (Rf_copyMostAttrib ptype result)
  else
    Rf_allocVector (TYPEOF ptype) n.

(** ** Null pre-fill and result copy

    Both functions write into an existing vector; they return how they
    left and the vector as it then is. *)

Definition on_data {A} (a : list (string * SEXP))
    (wrap : list A -> payload SEXP) (r : outcome () * list A)
  : outcome () * SEXP :=
  (r.1, Robj a (wrap r.2)).

Definition NA_COMPLEX : double * double := (NA_REAL, NA_REAL).

Fixpoint fill_vec_with_nulls (x : SEXP) (offset n : Z)
  : outcome () * SEXP :=
  (* for (i = 0; i < Rf_xlength(x); i++)
       fill_vec_with_nulls(VECTOR_ELT(x, i), offset, len) *)
  let columns :=
    match x with
    | Robj _ (Generic cols) =>
        (fix columns (cols : list SEXP) : outcome () * list SEXP :=
           match cols with
           | [] => (Ret (), [])
           | col :: rest =>
               match fill_vec_with_nulls col offset n with
               | (Ret _, col') =>
                   let r := columns rest in (r.1, col' :: r.2)
               | (r, col') => (r, col' :: rest)
               end
           end) cols
    | _ => (Ret (), [])
    end in
  if nanoarrow_ptype_is_data_frame x then
    (columns.1, with_elements x columns.2)
  else
    match x with
    | Robj a (Raw v) =>
        (* Not perfect: raw() doesn't really support NA in R *)
        on_data a Raw (memset v 0 n)
    | Robj a (Logical v) =>
        on_data a Logical
          (for_loop n (fun i => poke (offset + i) NA_INTEGER) v)
    | Robj a (Integer v) =>
        on_data a Integer
          (for_loop n (fun i => poke (offset + i) NA_INTEGER) v)
    | Robj a (Real v) =>
        on_data a Real (for_loop n (fun i => poke (offset + i) NA_REAL) v)
    | Robj a (Complex v) =>
        on_data a Complex
          (for_loop n (fun i => poke (offset + i) NA_COMPLEX) v)
    | Robj a (Character v) =>
        on_data a Character
          (for_loop n (fun i => set_elt (offset + i) NA_STRING) v)
    | Robj a (Generic v) =>
        on_data a Generic
          (for_loop n (fun i => set_elt (offset + i) R_NilValue) v)
    | _ =>
        (Rf_error "Attempt to fill vector with nulls with unsupported type",
         x)
    end.

(** [for (i = 0; i < len; i++) SET_..._ELT(dst, offset + i, ..._ELT(x, i))];
    the check [Rf_length(x) == len] has passed before, so [x] has an
    element [i]. *)
Definition copy_elts {A} (d : A) (src : list A) (offset n : Z)
    (dst : list A) : outcome () * list A :=
  for_loop n
    (fun i => set_elt (offset + i) (default d (src !! Z.to_nat i))) dst.

Fixpoint copy_vec_into (x dst : SEXP) (offset n : Z) {struct dst}
  : outcome () * SEXP :=
  (* for (i = 0; i < Rf_xlength(x); i++)
       copy_vec_into(VECTOR_ELT(x, i), VECTOR_ELT(dst, i), offset, len) *)
  let columns :=
    match dst with
    | Robj _ (Generic cols) =>
        (fix columns (xs cols : list SEXP) {struct cols}
           : outcome () * list SEXP :=
           match xs, cols with
           | xi :: xs', col :: rest =>
               match copy_vec_into xi col offset n with
               | (Ret _, col') =>
                   let r := columns xs' rest in (r.1, col' :: r.2)
               | (r, col') => (r, col' :: rest)
               end
           | _, _ => (Ret (), cols)
           end) (elements x) cols
    | _ => (Ret (), [])
    end in
  if nanoarrow_ptype_is_data_frame dst then
    if negb (nanoarrow_ptype_is_data_frame x) then
      (Rf_error
         "Expected record-style vctr result but got non-record-style result",
       dst)
    else
      let x_len := nanoarrow_data_frame_size x in
      if negb (n =? x_len) then
        (Rf_error "Unexpected data.frame row count in copy_vec_into()", dst)
      else if negb (Rf_xlength x =? Rf_xlength dst) then
        (Rf_error "Unexpected data.frame column count in copy_vec_into()",
         dst)
      else (columns.1, with_elements dst columns.2)
  else if nanoarrow_ptype_is_data_frame x then
    (Rf_error
       "Expected non-record-style vctr result but got record-style result",
     dst)
  else if negb (SEXPTYPE_eqb (TYPEOF dst) (TYPEOF x)) then
    (Rf_error "Unexpected SEXP type in result copy_vec_into()", dst)
  else if negb (Rf_length x =? n) then
    (Rf_error "Unexpected length of result in copy_vec_into()", dst)
  else
    match dst, x with
    | Robj a (Raw d), Robj _ (Raw s) => on_data a Raw (memcpy d offset s n)
    | Robj a (Real d), Robj _ (Real s) => on_data a Real (memcpy d offset s n)
    | Robj a (Integer d), Robj _ (Integer s) =>
        on_data a Integer (memcpy d offset s n)
    | Robj a (Logical d), Robj _ (Logical s) =>
        on_data a Logical (memcpy d offset s n)
    | Robj a (Complex d), Robj _ (Complex s) =>
        on_data a Complex (memcpy d offset s n)
    | Robj a (Character d), Robj _ (Character s) =>
        on_data a Character (copy_elts NA_STRING s offset n d)
    | Robj a (Generic d), Robj _ (Generic s) =>
        on_data a Generic (copy_elts R_NilValue s offset n d)
    | _, _ => (Rf_error "Unhandled SEXP type in copy_vec_into()", dst)
    end.

(** ** Converters

    A converter node ([struct RConverter]) is split in two: the fields
    that are fixed when the tree is built, with the child nodes, and the
    fields that are rebound while converting (the slices, the ptype and
    the destination pointer), kept in a tree of the same shape. *)

(** The status codes: [NANOARROW_OK] of [nanoarrow.h] and the two
    [errno] values the materialisers return. *)
Definition NANOARROW_OK : Z := 0.
Definition EINVAL : Z := 22.
Definition ENOTSUP : Z := 95.

(** Modelled from the spec: [enum ArrowType] is declared in [nanoarrow.h],
    which is not among the sources. The storage kinds are struct, dense
    and sparse union, list, large list, fixed-size list and the
    primitives; the primitives the nested materialisers do not name are
    gathered under [NANOARROW_TYPE_PRIMITIVE]. *)
Inductive ArrowType :=
| NANOARROW_TYPE_UNINITIALIZED
| NANOARROW_TYPE_NA
| NANOARROW_TYPE_PRIMITIVE (id : nat)
| NANOARROW_TYPE_LIST
| NANOARROW_TYPE_STRUCT
| NANOARROW_TYPE_SPARSE_UNION
| NANOARROW_TYPE_DENSE_UNION
| NANOARROW_TYPE_MAP
| NANOARROW_TYPE_FIXED_SIZE_LIST
| NANOARROW_TYPE_LARGE_LIST.

(** Modelled from the spec: [struct ArrowArrayView] is declared in
    [nanoarrow.h], which is not among the sources. An array view is a
    read-only descriptor of storage kind, validity, typed buffers and
    dictionary; the fields are those (of the view and of the [ArrowArray]
    it points to) that [materialize.c] reads. The second buffer is read
    either as 32-bit or as 64-bit offsets. *)
Record ArrowArrayView := mkArrowArrayView {
  storage_type : ArrowType;
  av_offset : Z;                       (* array_view->offset *)
  array_offset : Z;                    (* array_view->array->offset *)
  array_dictionary : bool;             (* array_view->array->dictionary != NULL *)
  child_size_elements : Z;             (* layout.child_size_elements *)
  validity : list bool;                (* buffer_views[0], as bits *)
  type_ids : list Z;                   (* buffer_views[0].data.as_int8 *)
  as_int32 : list Z;                   (* buffer_views[1].data.as_int32 *)
  as_int64 : list Z                    (* buffer_views[1].data.as_int64 *)
}.

(** A pointer to a destination vector: the path to it from the root of
    the protected R objects, through list elements. *)
Definition pointer := list nat.

(** [Rf_ScalarReal(v)] for a signed 64-bit [v]: the conversion to
    [double] gives the nearest value with a significand of 53 bits, the
    even one of two that are as near. The double is written as the
    integer it is; up to [2^53] in magnitude every integer is itself. *)
Definition Rf_ScalarReal (v : Z) : Z :=
  let a := Z.abs v in
  if a <? 2 ^ 53 then v
  else
    let ulp := 2 ^ (Z.log2 a - 52) in
    let q := a / ulp in
    let r := a mod ulp in
    let q' :=
      if 2 * r <? ulp then q
      else if ulp <? 2 * r then q + 1
      else if Z.even q then q else q + 1 in
    Z.sgn v * (q' * ulp).

(** Modelled from the spec: the slice types are declared in
    [materialize_common.h], which is not among the sources. A source
    slice is a window (offset, length) over the array view of the node,
    a destination slice a window (offset, length) over a destination
    vector. *)
Record ArrayViewSlice := mkArrayViewSlice {
  src_offset : Z;
  src_length : Z
}.

Record VectorSlice := mkVectorSlice {
  vec_sexp : pointer;
  dst_offset : Z;
  dst_length : Z
}.

(** Modelled from the spec: [struct RConverter] is declared in
    [materialize_common.h], which is not among the sources. A converter
    node has a source slice, a destination slice, a target shape and an
    ordered sequence of child nodes; the fields are those that
    [materialize.c] reads or writes. [src.array_view] is the array view
    of the node itself. *)
Inductive RConverter := mkRConverter {
  vector_type : VectorType;            (* ptype_view.vector_type *)
  extension_name_size_bytes : Z;       (* schema_view.extension_name.size_bytes *)
  array_view : ArrowArrayView;
  children : list RConverter
}.

(** The fields of a node that are rebound while converting, with those
    of its children. *)
Inductive ConverterState := mkConverterState {
  ptype : SEXP;          (* ptype_view.ptype, kept in the protected list *)
  src : ArrayViewSlice;
  dst : VectorSlice;
  kids : list ConverterState
}.

Definition n_children (c : RConverter) : Z := len (children c).

Definition VectorType_eqb (a b : VectorType) : bool :=
  match a, b with
  | VECTOR_TYPE_UNSPECIFIED, VECTOR_TYPE_UNSPECIFIED
  | VECTOR_TYPE_LGL, VECTOR_TYPE_LGL
  | VECTOR_TYPE_INT, VECTOR_TYPE_INT
  | VECTOR_TYPE_DBL, VECTOR_TYPE_DBL
  | VECTOR_TYPE_CHR, VECTOR_TYPE_CHR
  | VECTOR_TYPE_POSIXCT, VECTOR_TYPE_POSIXCT
  | VECTOR_TYPE_DATE, VECTOR_TYPE_DATE
  | VECTOR_TYPE_DIFFTIME, VECTOR_TYPE_DIFFTIME
  | VECTOR_TYPE_INTEGER64, VECTOR_TYPE_INTEGER64
  | VECTOR_TYPE_BLOB, VECTOR_TYPE_BLOB
  | VECTOR_TYPE_LIST_OF, VECTOR_TYPE_LIST_OF
  | VECTOR_TYPE_DATA_FRAME, VECTOR_TYPE_DATA_FRAME
  | VECTOR_TYPE_OTHER, VECTOR_TYPE_OTHER => true
  | _, _ => false
  end.

(** What a conversion runs on: the rebound fields of the node and of the
    nodes below it, and the R objects. *)
Record world := mkWorld {
  conv : ConverterState;
  heap : SEXP
}.

(** What a conversion is seen to do: the calls [materialize.c] makes, in
    order. [Ev_fill] is the null pre-fill of a destination window,
    [Ev_native] a call of a scalar materialiser, [Ev_fallback] the call of
    the R function [convert_fallback_other] with its offset and length
    (two doubles, written as the integers they are) and its ptype, [Ev_child] a call of [nanoarrow_materialize] on [children[index]]
    with the slices of the child at the call and what the call did,
    [Ev_reserve] to [Ev_release_result] the calls of the build protocol on
    the element converter of a list, and [Ev_store] a [SET_VECTOR_ELT] on
    the destination. *)
Inductive event :=
| Ev_fill (vec : pointer) (offset length : Z)
| Ev_native (vt : VectorType) (s : ArrayViewSlice) (d : VectorSlice)
| Ev_fallback (offset length : Z) (ptype : SEXP)
| Ev_child (index : Z) (s : ArrayViewSlice) (d : VectorSlice)
           (inner : list event)
| Ev_reserve (n : Z)
| Ev_materialize_n (s : ArrayViewSlice) (d : VectorSlice) (n : Z)
| Ev_finalize
| Ev_release_result
| Ev_store (vec : pointer) (index : Z) (value : SEXP).

(** A step of a conversion: how it leaves, the world it leaves, and what
    it did, in order. An R error leaves the world as written so far. *)
Definition M (A : Type) : Type := world -> outcome A * world * list event.

Definition ret {A} (a : A) : M A := fun w => (Ret a, w, []).

Definition bind {A B} (m : M A) (k : A -> M B) : M B := fun w =>
  match m w with
  | (Ret a, w', t) =>
      let '(r, w'', t') := k a w' in (r, w'', t ++ t')
  | (Rf_error msg, w', t) => (Rf_error msg, w', t)
  | (Undefined, w', t) => (Undefined, w', t)
  end.

Notation "'let*' x ':=' m 'in' k" := (bind m (fun x => k))
  (at level 10, x pattern, m at level 100, k at level 200).

Definition get_conv : M ConverterState := fun w => (Ret (conv w), w, []).
Definition put_conv (s : ConverterState) : M () :=
  fun w => (Ret (), mkWorld s (heap w), []).
Definition emit (e : event) : M () := fun w => (Ret (), w, [e]).
Definition leave {A} (r : outcome A) : M A := fun w => (r, w, []).

(** An in-place operation on the R object behind a pointer; a pointer
    that leads nowhere has no defined behaviour. *)
Fixpoint in_place (p : pointer) (f : SEXP -> outcome () * SEXP) (m : SEXP)
  : outcome () * SEXP :=
  match p with
  | [] => f m
  | i :: p' =>
      match m with
      | Robj a (Generic cols) =>
          match cols !! i with
          | Some col =>
              let r := in_place p' f col in
              (r.1, Robj a (Generic (<[i := r.2]> cols)))
          | None => (Undefined, m)
          end
      | _ => (Undefined, m)
      end
  end.

Definition on_heap (p : pointer) (f : SEXP -> outcome () * SEXP) : M () :=
  fun w =>
    let r := in_place p f (heap w) in (r.1, mkWorld (conv w) r.2, []).

(** [SET_VECTOR_ELT(x, i, value)]. *)
Definition SET_VECTOR_ELT (i : Z) (value : SEXP) (x : SEXP)
  : outcome () * SEXP :=
  match x with
  | Robj a (Generic v) => on_data a Generic (set_elt i value v)
  | _ => (Rf_error "SET_VECTOR_ELT() can only be applied to a 'list'", x)
  end.

(** [for (i = 0; i < n; i++) body], where the body either goes on or
    returns a status from the enclosing function. *)
Fixpoint forM_from (i : Z) (k : nat) (body : Z -> M (option Z))
  : M (option Z) :=
  match k with
  | O => ret None
  | S k' =>
      let* r := body i in
      match r with
      | Some status => ret (Some status)
      | None => forM_from (i + 1) k' body
      end
  end.

Definition forM (n : Z) (body : Z -> M (option Z)) : M (option Z) :=
  forM_from 0 (Z.to_nat n) body.

(** [NANOARROW_RETURN_NOT_OK(expr)] as the last statement of a loop body. *)
Definition return_not_ok (m : M Z) : M (option Z) :=
  let* result := m in
  if negb (result =? NANOARROW_OK) then ret (Some result) else ret None.

(** [children[k]->src = s; children[k]->dst.offset/length = ...]; the
    destination pointer of the child is kept. *)
Definition rebind (s : ArrayViewSlice) (d_offset d_length : Z)
    (st : ConverterState) : ConverterState :=
  mkConverterState (ptype st) s
    (mkVectorSlice (vec_sexp (dst st)) d_offset d_length) (kids st).

Definition set_child_slices (k : Z) (s : ArrayViewSlice)
    (d_offset d_length : Z) : M () :=
  let* st := get_conv in
  match (if 0 <=? k then kids st !! Z.to_nat k else None) with
  | Some kid =>
      put_conv (mkConverterState (ptype st) (src st) (dst st)
                  (<[Z.to_nat k := rebind s d_offset d_length kid]>
                     (kids st)))
  | None => leave Undefined
  end.

(** Run a step on child [k]: its world is the state of the child with
    the same R objects. *)
Definition on_child {A} (k : Z) (m : M A) : M A := fun w =>
  match (if 0 <=? k then kids (conv w) !! Z.to_nat k else None) with
  | Some kid =>
      let '(r, w', t) := m (mkWorld kid (heap w)) in
      (r,
       mkWorld (mkConverterState (ptype (conv w)) (src (conv w))
                  (dst (conv w))
                  (<[Z.to_nat k := conv w']> (kids (conv w))))
               (heap w'),
       t)
  | None => (Undefined, w, [])
  end.

(** A call of [nanoarrow_materialize] on child [k], seen from the parent
    as one event holding what the child did. *)
Definition call_child (k : Z) (m : M Z) : M Z := fun w =>
  match (if 0 <=? k then kids (conv w) !! Z.to_nat k else None) with
  | Some kid =>
      let '(r, w', t) := on_child k m w in
      (r, w', [Ev_child k (src kid) (dst kid) t])
  | None => (Undefined, w, [])
  end.

(** A scalar materialiser reads the node and writes the R objects. *)
Definition scalar_materializer : Type :=
  RConverter -> ConverterState -> SEXP -> outcome Z * SEXP.

(** The functions [materialize.c] calls and does not define: the array
    view accessors of [nanoarrow.h], the scalar materialisers of the
    [materialize_*.h] headers, the incremental build protocol of
    [convert.c] (run on the element converter of a list), and the R
    function [convert_fallback_other], reached through [Rf_eval]. *)
Class Host := {
  ArrowArrayViewIsNull : ArrowArrayView -> Z -> bool;
  ArrowArrayViewUnionChildIndex : ArrowArrayView -> Z -> Z;
  ArrowArrayViewUnionChildOffset : ArrowArrayView -> Z -> Z;
  nanoarrow_materialize_unspecified : scalar_materializer;
  nanoarrow_materialize_lgl : scalar_materializer;
  nanoarrow_materialize_int : scalar_materializer;
  nanoarrow_materialize_dbl : scalar_materializer;
  nanoarrow_materialize_chr : scalar_materializer;
  nanoarrow_materialize_posixct : scalar_materializer;
  nanoarrow_materialize_date : scalar_materializer;
  nanoarrow_materialize_difftime : scalar_materializer;
  nanoarrow_materialize_int64 : scalar_materializer;
  nanoarrow_materialize_blob : scalar_materializer;
  nanoarrow_converter_reserve : RConverter -> Z -> world -> outcome Z * world;
  nanoarrow_converter_materialize_n :
    RConverter -> Z -> world -> outcome Z * world;
  nanoarrow_converter_finalize : RConverter -> world -> outcome Z * world;
  nanoarrow_converter_release_result :
    RConverter -> world -> outcome SEXP * world;
  (* the message [nanoarrow_converter_stop] raises *)
  nanoarrow_converter_stop : RConverter -> world -> string;
  convert_fallback_other : RConverter -> Z -> Z -> SEXP -> outcome SEXP
}.

Section Materialize.

Context {H : Host}.

(** A call of a scalar materialiser on the current node. *)
Definition call_scalar (f : scalar_materializer) (c : RConverter) : M Z :=
  fun w =>
    let r := f c (conv w) (heap w) in
    (r.1, mkWorld (conv w) r.2,
     [Ev_native (vector_type c) (src (conv w)) (dst (conv w))]).

(** A call of a function of the build protocol on the current node. *)
Definition call_protocol {A} (e : event) (f : world -> outcome A * world)
  : M A :=
  fun w => let r := f w in (r.1, r.2, [e]).

(** Ensure that we have a ptype SEXP to send in the call back to R. The
    default ptype is written to [ptype_view.ptype] and to element 0 of
    the list that the external pointer of the converter protects; the two
    are written together and nowhere else in [materialize.c], and the
    field [ptype] of the state stands for both. *)
Definition ensure_ptype (c : RConverter) : M () :=
  let* st := get_conv in
  match ptype st with
  | R_NilValue =>
      let* p := leave (nanoarrow_alloc_type (vector_type c) 0) in
      put_conv (mkConverterState p (src st) (dst st) (kids st))
  | _ => ret ()
  end.

(** The fallback bridge. The offset and the length reach the R function
    as doubles, through [Rf_ScalarReal]; the sum of the two 64-bit
    offsets is taken in range. *)
Definition nanoarrow_materialize_other (c : RConverter) : M Z :=
  let* _ := ensure_ptype c in
  let* st := get_conv in
  let offset_sexp :=
    Rf_ScalarReal (av_offset (array_view c) + src_offset (src st)) in
  let length_sexp := Rf_ScalarReal (src_length (src st)) in
  let* _ := emit (Ev_fallback offset_sexp length_sexp (ptype st)) in
  let* result_src :=
    leave (convert_fallback_other c offset_sexp length_sexp (ptype st)) in
  (* Copy the result into a slice of dst *)
  let* _ :=
    on_heap (vec_sexp (dst st))
      (fun d => copy_vec_into result_src d (dst_offset (dst st))
                  (dst_length (dst st))) in
  ret NANOARROW_OK.

(** [nanoarrow_materialize_data_frame], over the call of
    [nanoarrow_materialize] on a child given by its index. *)
Definition nanoarrow_materialize_data_frame
    (materialize_child : Z -> M Z) (c : RConverter) : M Z :=
  if negb (VectorType_eqb (vector_type c) VECTOR_TYPE_DATA_FRAME) then
    ret EINVAL
  else if array_dictionary (array_view c) then
    (* Make sure we error for dictionary types *)
    ret EINVAL
  else
    match storage_type (array_view c) with
    | NANOARROW_TYPE_STRUCT =>
        let* r :=
          forM (n_children c) (fun i =>
            let* st := get_conv in
            let* _ :=
              set_child_slices i (src st) (dst_offset (dst st))
                (dst_length (dst st)) in
            return_not_ok (materialize_child i)) in
        match r with
        | Some status => ret status
        | None => ret NANOARROW_OK
        end
    | NANOARROW_TYPE_DENSE_UNION
    | NANOARROW_TYPE_SPARSE_UNION =>
        let* st := get_conv in
        (* Pre-fill everything with nulls *)
        let* _ :=
          emit (Ev_fill (vec_sexp (dst st)) (dst_offset (dst st))
                  (dst_length (dst st))) in
        let* _ :=
          on_heap (vec_sexp (dst st))
            (fun x => fill_vec_with_nulls x (dst_offset (dst st))
                        (dst_length (dst st))) in
        (* Fill in the possibly non-null values one at a time *)
        let* r :=
          forM (dst_length (dst st)) (fun i =>
            let* st := get_conv in
            let child_index :=
              ArrowArrayViewUnionChildIndex (array_view c)
                (src_offset (src st) + i) in
            let child_offset :=
              ArrowArrayViewUnionChildOffset (array_view c)
                (src_offset (src st) + i) in
            let* _ :=
              set_child_slices child_index (mkArrayViewSlice child_offset 1)
                (dst_offset (dst st) + i) 1 in
            return_not_ok (materialize_child child_index)) in
        match r with
        | Some status => ret status
        | None => ret NANOARROW_OK
        end
    | _ => ret ENOTSUP
    end.

(** [materialize_list_element], run on the element converter. *)
Definition materialize_list_element (converter : RConverter)
    (offset length : Z) : M Z :=
  let* status :=
    call_protocol (Ev_reserve length)
      (nanoarrow_converter_reserve converter length) in
  let* _ :=
    if negb (status =? NANOARROW_OK)
    then (fun w => (Rf_error (nanoarrow_converter_stop converter w), w, []))
    else ret () in
  let* st := get_conv in
  let* _ := put_conv (rebind (mkArrayViewSlice offset length) 0 length st) in
  let* st := get_conv in
  let* n :=
    call_protocol (Ev_materialize_n (src st) (dst st) length)
      (nanoarrow_converter_materialize_n converter length) in
  if negb (n =? length) then ret EINVAL
  else
    let* status :=
      call_protocol Ev_finalize (nanoarrow_converter_finalize converter) in
    if negb (status =? NANOARROW_OK) then ret status
    else ret NANOARROW_OK.

(** A read of an offsets buffer; outside the buffer the behaviour is not
    defined. *)
Definition load (buffer : list Z) (k : Z) : outcome Z :=
  if 0 <=? k then
    match buffer !! Z.to_nat k with
    | Some v => Ret v
    | None => Undefined
    end
  else Undefined.

(** The body shared by the three list loops once the range of row [i] is
    known: convert it on the element converter and store what it built. *)
Definition list_row (child_converter : RConverter) (d : VectorSlice) (i : Z)
    (offset length : Z) : M (option Z) :=
  let* status :=
    on_child 0 (materialize_list_element child_converter offset length) in
  if negb (status =? NANOARROW_OK) then ret (Some status)
  else
    let* value :=
      on_child 0
        (call_protocol Ev_release_result
           (nanoarrow_converter_release_result child_converter)) in
    let* _ := emit (Ev_store (vec_sexp d) (dst_offset d + i) value) in
    let* _ :=
      on_heap (vec_sexp d) (SET_VECTOR_ELT (dst_offset d + i) value) in
    ret None.

Definition nanoarrow_materialize_list_of (c : RConverter) : M Z :=
  match children c with
  | [] => leave Undefined            (* converter->children[0] *)
  | child_converter :: _ =>
      let* st := get_conv in
      let s := src st in
      let d := dst st in
      let av := array_view c in
      (* Make sure we error for dictionary types *)
      if array_dictionary av then ret EINVAL
      else
        let offsets := as_int32 av in
        let large_offsets := as_int64 av in
        let raw_src_offset := array_offset av + src_offset s in
        let* r :=
          match storage_type av with
          | NANOARROW_TYPE_NA => ret (Some NANOARROW_OK)
          | NANOARROW_TYPE_LIST =>
              forM (dst_length d) (fun i =>
                if negb (ArrowArrayViewIsNull av (src_offset s + i)) then
                  let* offset := leave (load offsets (raw_src_offset + i)) in
                  let* next :=
                    leave (load offsets (raw_src_offset + i + 1)) in
                  let length := next - offset in
                  list_row child_converter d i offset length
                else ret None)
          | NANOARROW_TYPE_LARGE_LIST =>
              forM (dst_length d) (fun i =>
                if negb (ArrowArrayViewIsNull av (src_offset s + i)) then
                  let* offset :=
                    leave (load large_offsets (raw_src_offset + i)) in
                  let* next :=
                    leave (load large_offsets (raw_src_offset + i + 1)) in
                  let length := next - offset in
                  list_row child_converter d i offset length
                else ret None)
          | NANOARROW_TYPE_FIXED_SIZE_LIST =>
              let length := child_size_elements av in
              forM (dst_length d) (fun i =>
                if negb (ArrowArrayViewIsNull av (src_offset s + i)) then
                  let offset := (raw_src_offset + i) * length in
                  list_row child_converter d i offset length
                else ret None)
          | _ => ret (Some EINVAL)
          end in
        match r with
        | Some status => ret status
        | None => ret NANOARROW_OK
        end
  end.

Definition nanoarrow_materialize_base (materialize_child : Z -> M Z)
    (c : RConverter) : M Z :=
  (* Make sure extension conversion calls into R *)
  if 0 <? extension_name_size_bytes c then nanoarrow_materialize_other c
  else
    match vector_type c with
    | VECTOR_TYPE_UNSPECIFIED =>
        call_scalar nanoarrow_materialize_unspecified c
    | VECTOR_TYPE_LGL => call_scalar nanoarrow_materialize_lgl c
    | VECTOR_TYPE_INT => call_scalar nanoarrow_materialize_int c
    | VECTOR_TYPE_DBL => call_scalar nanoarrow_materialize_dbl c
    | VECTOR_TYPE_CHR => call_scalar nanoarrow_materialize_chr c
    | VECTOR_TYPE_POSIXCT => call_scalar nanoarrow_materialize_posixct c
    | VECTOR_TYPE_DATE => call_scalar nanoarrow_materialize_date c
    | VECTOR_TYPE_DIFFTIME => call_scalar nanoarrow_materialize_difftime c
    | VECTOR_TYPE_INTEGER64 => call_scalar nanoarrow_materialize_int64 c
    | VECTOR_TYPE_BLOB => call_scalar nanoarrow_materialize_blob c
    | VECTOR_TYPE_LIST_OF => nanoarrow_materialize_list_of c
    | VECTOR_TYPE_DATA_FRAME =>
        nanoarrow_materialize_data_frame materialize_child c
    | VECTOR_TYPE_OTHER => nanoarrow_materialize_other c
    end.

(** The body of [nanoarrow_materialize]. *)
Definition nanoarrow_materialize_body (materialize_child : Z -> M Z)
    (c : RConverter) : M Z :=
  let* result := nanoarrow_materialize_base materialize_child c in
  if negb (result =? NANOARROW_OK) then nanoarrow_materialize_other c
  else ret NANOARROW_OK.

(** [children[k]], applied to a function of the child. *)
Fixpoint nth_child {A} (f : RConverter -> A) (cs : list RConverter)
    (k : nat) : option A :=
  match cs, k with
  | [], _ => None
  | ch :: _, O => Some (f ch)
  | _ :: cs', S k' => nth_child f cs' k'
  end.

Definition child_call (f : RConverter -> M Z) (cs : list RConverter)
    (k : Z) : M Z :=
  match (if 0 <=? k then nth_child f cs (Z.to_nat k) else None) with
  | Some m => call_child k m
  | None => leave Undefined
  end.

Fixpoint nanoarrow_materialize (c : RConverter) : M Z :=
  nanoarrow_materialize_body
    (child_call nanoarrow_materialize (children c)) c.

End Materialize.

(** * Specifications

    The vocabulary of the statements: the loops of the source named on
    their own, what a window, a row or a run must look like, sample
    values, and a host for the runs. *)

(** ** Sample values *)

Definition int_vec (v : list Z) : SEXP := Robj [] (Integer v).
Definition raw_vec (v : list Z) : SEXP := Robj [] (Raw v).
Definition chr_vec (v : list string) : SEXP :=
  Robj [] (Character (map mkChar v)).
Definition class_attr (cls : list string) : string * SEXP :=
  (R_ClassSymbol, chr_vec cls).
Definition names_attr (nms : list string) : string * SEXP :=
  (R_NamesSymbol, chr_vec nms).

(** [data.frame] with the given named columns and [nrow] rows. *)
Definition data_frame (cols : list (string * SEXP)) (nrow : Z) : SEXP :=
  Robj [names_attr (cols.*1); class_attr ["data.frame"];
        (R_RowNamesSymbol, int_vec [NA_INTEGER; - nrow])]
       (Generic (cols.*2)).

(** [factor(levels = lv)] of the given codes. *)
Definition factor (codes : list Z) (lv : list string) : SEXP :=
  Robj [(R_LevelsSymbol, chr_vec lv); class_attr ["factor"]] (Integer codes).

(** The columns of a record-style ptype, allocated in order. *)
Fixpoint alloc_columns (cols : list SEXP) (n : Z) : outcome (list SEXP) :=
  match cols with
  | [] => Ret []
  | col :: rest =>
      c ← nanoarrow_materialize_realloc col n;
      cs ← alloc_columns rest n;
      Ret (c :: cs)
  end.

Definition is_empty_factor (ptype : SEXP) : bool :=
  Rf_inherits ptype "factor"
  && (Rf_length (Rf_getAttrib ptype R_LevelsSymbol) =? 0).

(** A data frame ptype with one factor column without levels, and an
    unclassed double vector carrying an attribute. *)
Definition df_with_empty_factor : SEXP := data_frame [("f", factor [] [])] 0.

(** The column loop of [fill_vec_with_nulls]. *)
Fixpoint fill_columns (cols : list SEXP) (offset n : Z)
  : outcome () * list SEXP :=
  match cols with
  | [] => (Ret (), [])
  | col :: rest =>
      match fill_vec_with_nulls col offset n with
      | (Ret _, col') =>
          let r := fill_columns rest offset n in (r.1, col' :: r.2)
      | (r, col') => (r, col' :: rest)
      end
  end.

(** The window [offset, offset + n) of [v] overwritten with [a]. *)
Definition splice {A} (v : list A) (offset n : Z) (a : A) : list A :=
  take (Z.to_nat offset) v ++ replicate (Z.to_nat n) a
    ++ drop (Z.to_nat (offset + n)) v.

(** [v'] is [v] with every position of the window [offset, offset + n)
    replaced by [a] and every other position kept. *)
Definition window_is {A} (a : A) (offset n : Z) (v v' : list A) : Prop :=
  length v' = length v /\
  forall (i : nat) (x : A),
    v !! i = Some x ->
    v' !! i
    = Some (if bool_decide (offset <= Z.of_nat i < offset + n) then a else x).

(** The storage kinds with a null sentinel. *)
Definition has_null_sentinel (d : payload SEXP) : bool :=
  match d with
  | Logical _ | Integer _ | Real _ | Complex _ | Character _ | Generic _ =>
      true
  | Expression _ | Raw _ => false
  end.

Definition payload_window (offset n : Z) (d d' : payload SEXP) : Prop :=
  match d, d' with
  | Logical v, Logical v' => window_is NA_LOGICAL offset n v v'
  | Integer v, Integer v' => window_is NA_INTEGER offset n v v'
  | Real v, Real v' => window_is NA_REAL offset n v v'
  | Complex v, Complex v' => window_is NA_COMPLEX offset n v v'
  | Character v, Character v' => window_is NA_STRING offset n v v'
  | Generic v, Generic v' => window_is R_NilValue offset n v v'
  | _, _ => False
  end.

(** A destination made of vectors with a null sentinel, through the
    columns of records, each holding the window. *)
Inductive fillable (offset n : Z) : SEXP -> Prop :=
| fillable_record a cols :
    nanoarrow_ptype_is_data_frame (Robj a (Generic cols)) = true ->
    Forall (fillable offset n) cols ->
    fillable offset n (Robj a (Generic cols))
| fillable_vector a d :
    nanoarrow_ptype_is_data_frame (Robj a d) = false ->
    has_null_sentinel d = true ->
    0 <= offset -> 0 <= n -> offset + n <= payload_length d ->
    fillable offset n (Robj a d).

(** [x'] is [x] with the window of every vector set to the null sentinel
    of its kind, through the columns of records; attributes, lengths and
    the positions outside the window are those of [x]. *)
Inductive null_filled (offset n : Z) : SEXP -> SEXP -> Prop :=
| null_filled_record a cols cols' :
    nanoarrow_ptype_is_data_frame (Robj a (Generic cols)) = true ->
    Forall2 (null_filled offset n) cols cols' ->
    null_filled offset n (Robj a (Generic cols)) (Robj a (Generic cols'))
| null_filled_vector a d d' :
    nanoarrow_ptype_is_data_frame (Robj a d) = false ->
    payload_window offset n d d' ->
    null_filled offset n (Robj a d) (Robj a d').

(** The column loop of [copy_vec_into]: column [i] of the result into
    column [i] of the destination. *)
Fixpoint copy_columns (xs cols : list SEXP) (offset n : Z)
  : outcome () * list SEXP :=
  match xs, cols with
  | xi :: xs', col :: rest =>
      match copy_vec_into xi col offset n with
      | (Ret _, col') =>
          let r := copy_columns xs' rest offset n in (r.1, col' :: r.2)
      | (r, col') => (r, col' :: rest)
      end
  | _, _ => (Ret (), cols)
  end.

(** The copy of a vector that is not record-style, once kind and length
    have been checked. *)
Definition copy_data (x dst : SEXP) (offset n : Z) : outcome () * SEXP :=
  match dst, x with
  | Robj a (Raw d), Robj _ (Raw s) => on_data a Raw (memcpy d offset s n)
  | Robj a (Real d), Robj _ (Real s) => on_data a Real (memcpy d offset s n)
  | Robj a (Integer d), Robj _ (Integer s) =>
      on_data a Integer (memcpy d offset s n)
  | Robj a (Logical d), Robj _ (Logical s) =>
      on_data a Logical (memcpy d offset s n)
  | Robj a (Complex d), Robj _ (Complex s) =>
      on_data a Complex (memcpy d offset s n)
  | Robj a (Character d), Robj _ (Character s) =>
      on_data a Character (copy_elts NA_STRING s offset n d)
  | Robj a (Generic d), Robj _ (Generic s) =>
      on_data a Generic (copy_elts R_NilValue s offset n d)
  | _, _ => (Rf_error "Unhandled SEXP type in copy_vec_into()", dst)
  end.

(** What [copy_vec_into] checks of the result [x] against the destination
    before it touches anything. *)
Definition shape_mismatch (x dst : SEXP) (n : Z) : Prop :=
  if nanoarrow_ptype_is_data_frame dst then
    nanoarrow_ptype_is_data_frame x = false
    \/ nanoarrow_data_frame_size x <> n
    \/ Rf_xlength x <> Rf_xlength dst
  else
    nanoarrow_ptype_is_data_frame x = true
    \/ TYPEOF x <> TYPEOF dst
    \/ Rf_length x <> n.

Definition copy_dst : SEXP :=
  data_frame [("a", int_vec [0; 0]); ("b", chr_vec [""; ""])] 2.
Definition copy_result : SEXP :=
  data_frame [("a", int_vec [7; 8]); ("b", int_vec [1; 2])] 2.

(** ** A host for the runs

    Array view accessors that read the buffers of the model; scalar
    materialisers that accept the primitive storage kinds and answer
    [EINVAL] to the others, without writing; a build protocol that
    accepts every request and releases an empty list; and a fallback that
    returns an integer vector of the requested length. *)

Module Demo.

Definition is_null (av : ArrowArrayView) (i : Z) : bool :=
  match storage_type av with
  | NANOARROW_TYPE_NA => true
  | NANOARROW_TYPE_DENSE_UNION | NANOARROW_TYPE_SPARSE_UNION => false
  | _ =>
      match validity av with
      | [] => false
      | bits => negb (default false (bits !! Z.to_nat (av_offset av + i)))
      end
  end.

Definition union_child_index (av : ArrowArrayView) (i : Z) : Z :=
  default (-1) (type_ids av !! Z.to_nat i).

Definition union_child_offset (av : ArrowArrayView) (i : Z) : Z :=
  match storage_type av with
  | NANOARROW_TYPE_DENSE_UNION => default (-1) (as_int32 av !! Z.to_nat i)
  | NANOARROW_TYPE_SPARSE_UNION => av_offset av + i
  | _ => -1
  end.

Definition scalar : scalar_materializer := fun c _ heap =>
  match storage_type (array_view c) with
  | NANOARROW_TYPE_PRIMITIVE _ => (Ret NANOARROW_OK, heap)
  | _ => (Ret EINVAL, heap)
  end.

#[export] Instance host : Host := {
  ArrowArrayViewIsNull := is_null;
  ArrowArrayViewUnionChildIndex := union_child_index;
  ArrowArrayViewUnionChildOffset := union_child_offset;
  nanoarrow_materialize_unspecified := scalar;
  nanoarrow_materialize_lgl := scalar;
  nanoarrow_materialize_int := scalar;
  nanoarrow_materialize_dbl := scalar;
  nanoarrow_materialize_chr := scalar;
  nanoarrow_materialize_posixct := scalar;
  nanoarrow_materialize_date := scalar;
  nanoarrow_materialize_difftime := scalar;
  nanoarrow_materialize_int64 := scalar;
  nanoarrow_materialize_blob := scalar;
  nanoarrow_converter_reserve := fun _ _ w => (Ret NANOARROW_OK, w);
  nanoarrow_converter_materialize_n := fun _ n w => (Ret n, w);
  nanoarrow_converter_finalize := fun _ w => (Ret NANOARROW_OK, w);
  nanoarrow_converter_release_result :=
    fun _ w => (Ret (Robj [] (Generic [])), w);
  nanoarrow_converter_stop := fun _ _ => "reserve failed";
  convert_fallback_other := fun _ _ n _ => Rf_allocVector INTSXP n
}.

Definition view (type : ArrowType) : ArrowArrayView :=
  mkArrowArrayView type 0 0 false 0 [] [] [] [].

Definition leaf (vt : VectorType) (type : ArrowType) : RConverter :=
  mkRConverter vt 0 (view type) [].

Definition state (p : pointer) (offset n : Z) (ks : list ConverterState)
  : ConverterState :=
  mkConverterState R_NilValue (mkArrayViewSlice offset n)
    (mkVectorSlice p offset n) ks.

(** An integer target for a list storage: the scalar materialiser answers
    [EINVAL]. *)
Definition int_of_list : RConverter :=
  leaf VECTOR_TYPE_INT NANOARROW_TYPE_LIST.

Definition int_world : world :=
  mkWorld (state [] 0 2 []) (int_vec [5; 6]).

(** A list of three rows with offsets [0, 2, 2, 5], none of them null. *)
Definition list_of_int : RConverter :=
  mkRConverter VECTOR_TYPE_LIST_OF 0
    (mkArrowArrayView NANOARROW_TYPE_LIST 0 0 false 0 [] [] [0; 2; 2; 5] [])
    [leaf VECTOR_TYPE_INT (NANOARROW_TYPE_PRIMITIVE 0)].

(** The same list with its second row null. *)
Definition list_with_null : RConverter :=
  mkRConverter VECTOR_TYPE_LIST_OF 0
    (mkArrowArrayView NANOARROW_TYPE_LIST 0 0 false 0 [true; false; true]
       [] [0; 2; 2; 5] [])
    [leaf VECTOR_TYPE_INT (NANOARROW_TYPE_PRIMITIVE 0)].

Definition list_world : world :=
  mkWorld (state [] 0 3 [state [] 0 0 []])
    (Robj [] (Generic [R_NilValue; R_NilValue; R_NilValue])).

(** A dense union of three rows with type ids [0, 1, 0] and offsets
    [0, 0, 1], over two integer columns. *)
Definition union_of_two : RConverter :=
  mkRConverter VECTOR_TYPE_DATA_FRAME 0
    (mkArrowArrayView NANOARROW_TYPE_DENSE_UNION 0 0 false 0 []
       [0; 1; 0] [0; 0; 1] [])
    [leaf VECTOR_TYPE_INT (NANOARROW_TYPE_PRIMITIVE 0);
     leaf VECTOR_TYPE_INT (NANOARROW_TYPE_PRIMITIVE 0)].

Definition union_world : world :=
  mkWorld (state [] 0 3 [state [0%nat] 0 0 []; state [1%nat] 0 0 []])
    (data_frame [("a", int_vec [1; 2; 3]); ("b", int_vec [4; 5; 6])] 3).

End Demo.

Section Vocabulary.

Context {H : Host}.

(** ** Inputs and storage kinds *)

(** The storage kinds [nanoarrow_materialize_list_of] has a case for. *)
Definition list_of_storage (type : ArrowType) : bool :=
  match type with
  | NANOARROW_TYPE_NA | NANOARROW_TYPE_LIST | NANOARROW_TYPE_LARGE_LIST
  | NANOARROW_TYPE_FIXED_SIZE_LIST => true
  | _ => false
  end.

(** A list storage whose array carries a dictionary. *)
Definition list_with_dictionary (type : ArrowType) : RConverter :=
  mkRConverter VECTOR_TYPE_LIST_OF 0
    (mkArrowArrayView type 0 0 true 0 [] [] [0; 2; 2; 5] [])
    [Demo.leaf VECTOR_TYPE_INT (NANOARROW_TYPE_PRIMITIVE 0)].

(** ** Traces

    [triple P I m Q]: from a world where [I] holds, every event of [m]
    satisfies [P], and when [m] returns [a] the world satisfies [Q a]. *)
Definition triple (P : event -> Prop) {A} (I : world -> Prop) (m : M A)
    (Q : A -> world -> Prop) : Prop :=
  forall w, I w ->
    Forall P (m w).2 /\ forall a, (m w).1.1 = Ret a -> Q a (m w).1.2.

(** The parent's own slices and ptype, which a step on a child keeps. *)
Definition own (I : ArrayViewSlice -> VectorSlice -> Prop) (w : world)
  : Prop :=
  I (src (conv w)) (dst (conv w)).

(** The state of child [k], when there is one, satisfies [J]. *)
Definition child_is (k : Z) (J : ConverterState -> Prop) (w : world)
  : Prop :=
  forall kid, 0 <= k -> kids (conv w) !! Z.to_nat k = Some kid -> J kid.

(** A call of the R fallback. *)
Definition is_fallback (e : event) : bool :=
  match e with
  | Ev_fallback _ _ _ => true
  | _ => false
  end.

(** The calls of the fallback made by the node itself (those of its
    children are inside their [Ev_child]). *)
Fixpoint fallback_calls (t : list event) : nat :=
  match t with
  | [] => 0
  | e :: t' =>
      if is_fallback e then S (fallback_calls t') else fallback_calls t'
  end.

(** The first attempt of [nanoarrow_materialize]. *)
Definition native_attempt (c : RConverter) : M Z :=
  nanoarrow_materialize_base
    (child_call nanoarrow_materialize (children c)) c.

(** An integer target with an extension name. *)
Definition int_extension : RConverter :=
  mkRConverter VECTOR_TYPE_INT 9 (Demo.view (NANOARROW_TYPE_PRIMITIVE 0)) [].




(** A loop that went through all its rows: row [i] took the world from
    [w] to [w1] doing [t1], as [R] says, and so on. *)
Inductive steps (R : Z -> world -> world -> list event -> Prop)
  : list Z -> world -> world -> list event -> Prop :=
| steps_nil w : steps R [] w w []
| steps_cons i rows w w1 w' t1 t :
    R i w w1 t1 -> steps R rows w1 w' t ->
    steps R (i :: rows) w w' (t1 ++ t).

(** Row [i] of a union: the child is chosen and its slices are set from
    the type and offset buffers, [nanoarrow_materialize] runs on it and
    returns; the parent's own slices are as before. *)
Definition union_row (c : RConverter) (s : ArrayViewSlice) (d : VectorSlice)
    (i : Z) (w w1 : world) (t1 : list event) : Prop :=
  exists ch kid wk inner,
    let child_index :=
      ArrowArrayViewUnionChildIndex (array_view c) (src_offset s + i) in
    let child_offset :=
      ArrowArrayViewUnionChildOffset (array_view c) (src_offset s + i) in
    let child_src := mkArrayViewSlice child_offset 1 in
    let child_dst := mkVectorSlice (vec_sexp (dst kid)) (dst_offset d + i) 1 in
    0 <= child_index
    /\ children c !! Z.to_nat child_index = Some ch
    /\ kids (conv w) !! Z.to_nat child_index = Some kid
    /\ nanoarrow_materialize ch
         (mkWorld (mkConverterState (ptype kid) child_src child_dst
                     (kids kid)) (heap w))
       = (Ret NANOARROW_OK, wk, inner)
    /\ t1 = [Ev_child child_index child_src child_dst inner]
    /\ heap w1 = heap wk
    /\ src (conv w1) = s /\ dst (conv w1) = d.

(** The body of the row loop of the union case of
    [nanoarrow_materialize_data_frame]. *)
Definition union_body (c : RConverter) (i : Z) : M (option Z) :=
  let* st := get_conv in
  let child_index :=
    ArrowArrayViewUnionChildIndex (array_view c) (src_offset (src st) + i) in
  let child_offset :=
    ArrowArrayViewUnionChildOffset (array_view c) (src_offset (src st) + i) in
  let* _ :=
    set_child_slices child_index (mkArrayViewSlice child_offset 1)
      (dst_offset (dst st) + i) 1 in
  return_not_ok
    (child_call nanoarrow_materialize (children c) child_index).

(** The range of the elements of row [i], read from the offsets buffer
    at [raw + i] and [raw + i + 1], or computed from the fixed size. *)
Definition element_range (av : ArrowArrayView) (raw i offset length : Z)
  : Prop :=
  match storage_type av with
  | NANOARROW_TYPE_LIST =>
      load (as_int32 av) (raw + i) = Ret offset
      /\ exists next, load (as_int32 av) (raw + i + 1) = Ret next
                      /\ length = next - offset
  | NANOARROW_TYPE_LARGE_LIST =>
      load (as_int64 av) (raw + i) = Ret offset
      /\ exists next, load (as_int64 av) (raw + i + 1) = Ret next
                      /\ length = next - offset
  | NANOARROW_TYPE_FIXED_SIZE_LIST =>
      length = child_size_elements av /\ offset = (raw + i) * length
  | _ => False
  end.

(** What the element converter is asked for a range, and the store of
    what it built at index [index] of the destination. *)
Definition element_events (vec : pointer) (offset length : Z)
    (dst_vec : pointer) (index : Z) (value : SEXP) : list event :=
  [Ev_reserve length;
   Ev_materialize_n (mkArrayViewSlice offset length)
     (mkVectorSlice vec 0 length) length;
   Ev_finalize;
   Ev_release_result;
   Ev_store dst_vec index value].

(** Row [i] of a list: a null row does nothing at all. For any other
    row the range [(offset, length)] is resolved and converted on the
    element converter [children[0]], from the state [kid] it is in and the
    R objects as they are: [materialize_list_element] returns
    [NANOARROW_OK], leaving the world [we], after the calls to reserve,
    to materialise and to finalise; [nanoarrow_converter_release_result]
    then hands out [value], leaving [wr]; and [value] is what
    [SET_VECTOR_ELT] stores at index [dst offset + i] of the destination.
    The element converter is left as the release left it, the slices of
    the node as they were. *)
Definition list_row_spec (c : RConverter) (s : ArrayViewSlice)
    (d : VectorSlice) (i : Z) (w w1 : world) (t1 : list event) : Prop :=
  if ArrowArrayViewIsNull (array_view c) (src_offset s + i) then
    w1 = w /\ t1 = []
  else
    exists child kid offset length vec we value wr,
      children c !! 0%nat = Some child
      /\ kids (conv w) !! 0%nat = Some kid
      /\ element_range (array_view c)
           (array_offset (array_view c) + src_offset s) i offset length
      /\ materialize_list_element child offset length
           (mkWorld kid (heap w))
         = (Ret NANOARROW_OK, we,
            [Ev_reserve length;
             Ev_materialize_n (mkArrayViewSlice offset length)
               (mkVectorSlice vec 0 length) length;
             Ev_finalize])
      /\ nanoarrow_converter_release_result child we = (Ret value, wr)
      /\ t1 = element_events vec offset length (vec_sexp d)
                (dst_offset d + i) value
      /\ in_place (vec_sexp d) (SET_VECTOR_ELT (dst_offset d + i) value)
           (heap wr)
         = (Ret (), heap w1)
      /\ kids (conv w1) = <[0%nat := conv wr]> (kids (conv w))
      /\ src (conv w1) = s /\ dst (conv w1) = d.

(** What a row of a list loop does, for a body [body] of the loop. *)
Definition list_body_ok (c : RConverter) (s : ArrayViewSlice)
    (d : VectorSlice) (body : Z -> M (option Z)) : Prop :=
  forall i w o w1 t1,
    src (conv w) = s /\ dst (conv w) = d ->
    body i w = (Ret o, w1, t1) ->
    match o with
    | Some status => status <> NANOARROW_OK
    | None =>
        list_row_spec c s d i w w1 t1
        /\ (src (conv w1) = s /\ dst (conv w1) = d)
    end.

End Vocabulary.

(** ** Attribute pairlists as R keeps them *)

(** What [Rf_setAttrib] maintains on every vector: no tag occurs twice and
    no value is [NULL]. *)
Definition attrib_wf (x : SEXP) : Prop :=
  NoDup (ATTRIB x).*1 /\ forall t v, (t, v) ∈ ATTRIB x -> v <> R_NilValue.

(** The row names of [n] rows as [Rf_getAttrib] returns them: the
    integers [1 .. n] when [n] fits in an [int], their decimal strings
    otherwise. *)
Definition row_labels (n : Z) : SEXP :=
  if n <=? INT_MAX then Robj [] (Integer (seqZ 1 (Z.to_nat n)))
  else as_character_seq_len n.

(** The storage type [nanoarrow_alloc_type] allocates for a target shape;
    [NILSXP] stands for the shapes it has no vector for. *)
Definition sexptype_of (vt : VectorType) : SEXPTYPE :=
  match vt with
  | VECTOR_TYPE_LGL => LGLSXP
  | VECTOR_TYPE_INT => INTSXP
  | VECTOR_TYPE_DBL => REALSXP
  | VECTOR_TYPE_CHR => STRSXP
  | _ => NILSXP
  end.

(** ** Containers and windows *)

(** [x'] has the type, the attributes and the length of [x]. *)
Definition same_container (x x' : SEXP) : Prop :=
  TYPEOF x' = TYPEOF x /\ ATTRIB x' = ATTRIB x
  /\ Rf_xlength x' = Rf_xlength x.

(** [v] with [s] written over it from position [offset] on. *)
Definition paste {A} (s : list A) (offset : Z) (v : list A) : list A :=
  take (Z.to_nat offset) v ++ s
    ++ drop (Z.to_nat offset + length s) v.

(** The data [d] of a destination with the data [s] of a result written
    over it from [offset] on, for the kinds [copy_vec_into] copies: both
    of one kind, and not expressions. *)
Definition payload_paste (offset : Z) (s d : payload SEXP)
  : option (payload SEXP) :=
  match s, d with
  | Logical s, Logical v => Some (Logical (paste s offset v))
  | Integer s, Integer v => Some (Integer (paste s offset v))
  | Real s, Real v => Some (Real (paste s offset v))
  | Complex s, Complex v => Some (Complex (paste s offset v))
  | Character s, Character v => Some (Character (paste s offset v))
  | Generic s, Generic v => Some (Generic (paste s offset v))
  | Raw s, Raw v => Some (Raw (paste s offset v))
  | _, _ => None
  end.

(** The vectors [fill_vec_with_nulls] has a case for, through the columns
    of records: every vector but [NULL] and expression vectors. *)
Inductive fill_supported : SEXP -> Prop :=
| fill_supported_record a cols :
    nanoarrow_ptype_is_data_frame (Robj a (Generic cols)) = true ->
    Forall fill_supported cols ->
    fill_supported (Robj a (Generic cols))
| fill_supported_vector a d :
    nanoarrow_ptype_is_data_frame (Robj a d) = false ->
    (forall v, d <> Expression v) ->
    fill_supported (Robj a d).

(** ** Trees of columns *)

(** A ptype as a tree: records whose attributes are as R keeps them, over
    leaves that are vectors, not record-style, satisfying [leaf]. *)
Inductive ptype_tree (leaf : SEXP -> Prop) : SEXP -> Prop :=
| ptype_tree_record a cols :
    nanoarrow_ptype_is_data_frame (Robj a (Generic cols)) = true ->
    attrib_wf (Robj a (Generic cols)) ->
    Forall (ptype_tree leaf) cols ->
    ptype_tree leaf (Robj a (Generic cols))
| ptype_tree_leaf a d :
    nanoarrow_ptype_is_data_frame (Robj a d) = false ->
    attrib_wf (Robj a d) ->
    leaf (Robj a d) ->
    ptype_tree leaf (Robj a d).

(** [r] has the tree of [p]: a record for a record, column by column, and
    for a leaf a vector of the type of the leaf with [n] elements. *)
Inductive allocated (n : Z) : SEXP -> SEXP -> Prop :=
| allocated_record a cols a' cols' :
    nanoarrow_ptype_is_data_frame (Robj a (Generic cols)) = true ->
    nanoarrow_ptype_is_data_frame (Robj a' (Generic cols')) = true ->
    Forall2 (allocated n) cols cols' ->
    allocated n (Robj a (Generic cols)) (Robj a' (Generic cols'))
| allocated_vector p r :
    nanoarrow_ptype_is_data_frame p = false ->
    nanoarrow_ptype_is_data_frame r = false ->
    TYPEOF r = TYPEOF p -> Rf_xlength r = n ->
    allocated n p r.

(** A ptype without a factor that has no levels, at any depth of its
    records. *)
Inductive no_empty_factor : SEXP -> Prop :=
| no_empty_factor_record a cols :
    nanoarrow_ptype_is_data_frame (Robj a (Generic cols)) = true ->
    is_empty_factor (Robj a (Generic cols)) = false ->
    Forall no_empty_factor cols ->
    no_empty_factor (Robj a (Generic cols))
| no_empty_factor_leaf x :
    nanoarrow_ptype_is_data_frame x = false ->
    is_empty_factor x = false ->
    no_empty_factor x.

(** A ptype whose results [copy_vec_into] can take: records with a
    first column that is a leaf, over leaves that are vectors, not
    record-style and not expression vectors. *)
Inductive copy_tree : SEXP -> Prop :=
| copy_tree_record a col cols :
    nanoarrow_ptype_is_data_frame (Robj a (Generic (col :: cols))) = true ->
    nanoarrow_ptype_is_data_frame col = false ->
    Forall copy_tree (col :: cols) ->
    copy_tree (Robj a (Generic (col :: cols)))
| copy_tree_leaf a d :
    nanoarrow_ptype_is_data_frame (Robj a d) = false ->
    (forall v, d <> Expression v) ->
    copy_tree (Robj a d).

(** The types [fill_vec_with_nulls] has a null sentinel for. *)
Definition sentinel_leaf (p : SEXP) : Prop :=
  TYPEOF p <> RAWSXP /\ TYPEOF p <> EXPRSXP.

(** A data frame ptype of two columns and no rows. *)
Definition two_column_ptype : SEXP :=
  data_frame [("a", int_vec []); ("b", chr_vec [])] 0.

(** ** Destination windows *)

(** The window [(offset, length)] lies in the destination window of
    [d]. *)
Definition inside (d : VectorSlice) (offset length : Z) : Prop :=
  dst_offset d <= offset /\ offset + length <= dst_offset d + dst_length d.

(** The calls of a node whose destination slice is [d] are made for its
    window. The arguments of the pre-fill are the destination vector and
    the window, a scalar materialiser is called with the slice [d], a row
    is stored in the destination vector at an index of the window, and a
    child is called with a destination window inside it, the calls of
    the child in turn being made for its own window, at every depth.
    What a callee writes for its arguments is not part of this. *)
Fixpoint in_window (d : VectorSlice) (e : event) : Prop :=
  match e with
  | Ev_fill vec offset length =>
      vec = vec_sexp d /\ offset = dst_offset d /\ length = dst_length d
  | Ev_native _ _ dn => dn = d
  | Ev_child _ _ dch inner =>
      inside d (dst_offset dch) (dst_length dch)
      /\ (fix all (l : list event) : Prop :=
            match l with
            | [] => True
            | x :: l' => in_window dch x /\ all l'
            end) inner
  | Ev_store vec index _ => vec = vec_sexp d /\ inside d index 1
  | _ => True
  end.

(** ** Destination vectors *)

(** The R object a destination pointer leads to. *)
Fixpoint deref (p : pointer) (m : SEXP) : option SEXP :=
  match p with
  | [] => Some m
  | i :: p' =>
      match m with
      | Robj _ (Generic cols) => cols !! i ≫= deref p'
      | _ => None
      end
  end.

(** [m] with the object behind [p] replaced by [x]. *)
Fixpoint replace_at (p : pointer) (x : SEXP) (m : SEXP) : SEXP :=
  match p with
  | [] => x
  | i :: p' =>
      match m with
      | Robj a (Generic cols) =>
          match cols !! i with
          | Some col => Robj a (Generic (<[i := replace_at p' x col]> cols))
          | None => m
          end
      | _ => m
      end
  end.

(** ** The window the R function is called for *)

(** The offset and the length [nanoarrow_materialize_other] passes to
    [convert_fallback_other], as the doubles they are passed as. *)
Definition fallback_offset (c : RConverter) (w : world) : Z :=
  Rf_ScalarReal (av_offset (array_view c) + src_offset (src (conv w))).

Definition fallback_length (w : world) : Z :=
  Rf_ScalarReal (src_length (src (conv w))).

(** ** Nodes and refusals *)

(** The storage kinds [nanoarrow_materialize_data_frame] has a case
    for. *)
Definition record_storage (type : ArrowType) : bool :=
  match type with
  | NANOARROW_TYPE_STRUCT | NANOARROW_TYPE_DENSE_UNION
  | NANOARROW_TYPE_SPARSE_UNION => true
  | _ => false
  end.

(** What a nested materialiser refuses before doing anything: a record
    target over a dictionary or over a storage kind without a case, and a
    list target (with its element converter) over a dictionary or over a
    storage kind without a case. *)
Definition refused (c : RConverter) : bool :=
  match vector_type c with
  | VECTOR_TYPE_DATA_FRAME =>
      array_dictionary (array_view c)
      || negb (record_storage (storage_type (array_view c)))
  | VECTOR_TYPE_LIST_OF =>
      match children c with
      | [] => false
      | _ :: _ =>
          array_dictionary (array_view c)
          || negb (list_of_storage (storage_type (array_view c)))
      end
  | _ => false
  end.

(** The node of [w'] is the node of [w] as far as a conversion may not
    touch it: its own slices and the number of its children are the
    same, and so is its ptype if it had one. *)
Definition same_node (w w' : world) : Prop :=
  src (conv w') = src (conv w) /\ dst (conv w') = dst (conv w)
  /\ length (kids (conv w')) = length (kids (conv w))
  /\ (ptype (conv w) <> R_NilValue -> ptype (conv w') = ptype (conv w)).

(** A step that keeps the node, however it leaves. *)
Definition keeps_node {A} (m : M A) : Prop :=
  forall w, same_node w (m w).1.2.

(** A record target over a dictionary-encoded array. *)
Definition record_with_dictionary : RConverter :=
  mkRConverter VECTOR_TYPE_DATA_FRAME 0
    (mkArrowArrayView (NANOARROW_TYPE_PRIMITIVE 0) 0 0 true 0 [] [] [] [])
    [].

Section RecordVocabulary.

Context {H : Host}.

(** ** Rows of a struct *)

(** Child [i] of a struct: its slices are set to the source slice of the
    parent and to the destination window of the parent (in the child's
    own destination vector), [nanoarrow_materialize] runs on it and
    returns; the parent's own slices are as before. *)
Definition struct_row (c : RConverter) (s : ArrayViewSlice) (d : VectorSlice)
    (i : Z) (w w1 : world) (t1 : list event) : Prop :=
  exists ch kid wk inner,
    let child_dst :=
      mkVectorSlice (vec_sexp (dst kid)) (dst_offset d) (dst_length d) in
    children c !! Z.to_nat i = Some ch
    /\ kids (conv w) !! Z.to_nat i = Some kid
    /\ nanoarrow_materialize ch
         (mkWorld (mkConverterState (ptype kid) s child_dst (kids kid))
            (heap w))
       = (Ret NANOARROW_OK, wk, inner)
    /\ t1 = [Ev_child i s child_dst inner]
    /\ heap w1 = heap wk
    /\ src (conv w1) = s /\ dst (conv w1) = d.

(** The body of the child loop of the struct case of
    [nanoarrow_materialize_data_frame]. *)
Definition struct_body (c : RConverter) (i : Z) : M (option Z) :=
  let* st := get_conv in
  let* _ :=
    set_child_slices i (src st) (dst_offset (dst st)) (dst_length (dst st)) in
  return_not_ok (child_call nanoarrow_materialize (children c) i).

(** ** Rows of a list that fail *)

(** The world in which the element converter is asked to materialise:
    its slices are the range of the row and the start of a fresh
    destination. *)
Definition element_world (offset length : Z) (w : world) : world :=
  mkWorld (rebind (mkArrayViewSlice offset length) 0 length (conv w))
    (heap w).

(** What the element converter is asked before it is asked to
    finalise. *)
Definition element_request (vec : pointer) (offset length : Z)
  : list event :=
  [Ev_reserve length;
   Ev_materialize_n (mkArrayViewSlice offset length)
     (mkVectorSlice vec 0 length) length].

(** Row [i] of a list stopped the loop with [status]: the row is not
    null, its range was resolved, and the conversion of the range on the
    element converter [child] returned [status], which is not
    [NANOARROW_OK]: either the converter materialised another number of
    elements than requested ([EINVAL], and it was not asked to finalise),
    or finalising returned [status]. Its result was neither released nor
    stored. *)
Definition list_row_failed (c child : RConverter) (s : ArrayViewSlice)
    (i status : Z) (w w' : world) (t : list event) : Prop :=
  ArrowArrayViewIsNull (array_view c) (src_offset s + i) = false
  /\ status <> NANOARROW_OK
  /\ exists offset length vec,
       element_range (array_view c)
         (array_offset (array_view c) + src_offset s) i offset length
       /\ on_child 0 (materialize_list_element child offset length) w
          = (Ret status, w', t)
       /\ ((status = EINVAL /\ t = element_request vec offset length)
           \/ t = element_request vec offset length ++ [Ev_finalize]).

End RecordVocabulary.

(** A struct of two integer columns, and a world with three rows to
    convert. *)
Definition struct_of_two : RConverter :=
  mkRConverter VECTOR_TYPE_DATA_FRAME 0 (Demo.view NANOARROW_TYPE_STRUCT)
    [Demo.leaf VECTOR_TYPE_INT (NANOARROW_TYPE_PRIMITIVE 0);
     Demo.leaf VECTOR_TYPE_INT (NANOARROW_TYPE_PRIMITIVE 0)].

(** A host whose element converter materialises at most two elements
    at a time. *)
Definition short_host : Host := {|
  ArrowArrayViewIsNull := Demo.is_null;
  ArrowArrayViewUnionChildIndex := Demo.union_child_index;
  ArrowArrayViewUnionChildOffset := Demo.union_child_offset;
  nanoarrow_materialize_unspecified := Demo.scalar;
  nanoarrow_materialize_lgl := Demo.scalar;
  nanoarrow_materialize_int := Demo.scalar;
  nanoarrow_materialize_dbl := Demo.scalar;
  nanoarrow_materialize_chr := Demo.scalar;
  nanoarrow_materialize_posixct := Demo.scalar;
  nanoarrow_materialize_date := Demo.scalar;
  nanoarrow_materialize_difftime := Demo.scalar;
  nanoarrow_materialize_int64 := Demo.scalar;
  nanoarrow_materialize_blob := Demo.scalar;
  nanoarrow_converter_reserve := fun _ _ w => (Ret NANOARROW_OK, w);
  nanoarrow_converter_materialize_n := fun _ n w => (Ret (Z.min n 2), w);
  nanoarrow_converter_finalize := fun _ w => (Ret NANOARROW_OK, w);
  nanoarrow_converter_release_result :=
    fun _ w => (Ret (Robj [] (Generic [])), w);
  nanoarrow_converter_stop := fun _ _ => "reserve failed";
  convert_fallback_other := fun _ _ n _ => Rf_allocVector INTSXP n
|}.

(** A world whose node converts rows 1 and 2 into a vector of four. *)
Definition window_world : world :=
  mkWorld (Demo.state [] 1 2 []) (int_vec [5; 6; 7; 8]).

(** A sparse union over one column, and a world whose node converts the
    rows 1 and 2 of the union into rows 1 and 2 of a record of three rows
    with one raw column. *)
Definition union_over_raw : RConverter :=
  mkRConverter VECTOR_TYPE_DATA_FRAME 0
    (mkArrowArrayView NANOARROW_TYPE_SPARSE_UNION 0 0 false 0 []
       [0; 0; 0] [] [])
    [Demo.leaf VECTOR_TYPE_UNSPECIFIED (NANOARROW_TYPE_PRIMITIVE 0)].

Definition raw_union_world : world :=
  mkWorld (Demo.state [] 1 2 [Demo.state [0%nat] 0 0 []])
    (data_frame [("a", raw_vec [7; 8; 9])] 3).

(** * Proofs *)

Lemma SEXPTYPE_eqb_eq a b : SEXPTYPE_eqb a b = true <-> a = b.
Proof. destruct a, b; simpl; split; congruence. Qed.

Example fill_int_window :
  fill_vec_with_nulls (int_vec [1; 2; 3; 4]) 1 2
  = (Ret (), int_vec [1; NA_INTEGER; NA_INTEGER; 4]).
Proof. reflexivity. Qed.

Example fill_data_frame :
  fill_vec_with_nulls
    (data_frame [("a", int_vec [1; 2]); ("b", chr_vec ["x"; "y"])] 2) 1 1
  = (Ret (),
     data_frame [("a", int_vec [1; NA_INTEGER]);
                 ("b", Robj [] (Character [mkChar "x"; NA_STRING]))] 2).
Proof. reflexivity. Qed.

Example copy_int_window :
  copy_vec_into (int_vec [7; 8]) (int_vec [1; 2; 3; 4]) 2 2
  = (Ret (), int_vec [1; 2; 7; 8]).
Proof. reflexivity. Qed.

Example realloc_data_frame :
  nanoarrow_materialize_realloc
    (data_frame [("a", int_vec []); ("f", factor [] ["u"; "v"])] 0) 2
  = Ret (data_frame [("a", int_vec [0; 0]); ("f", factor [0; 0] ["u"; "v"])]
           2).
Proof. reflexivity. Qed.

(** ** The container allocator *)

Section Allocator.

Lemma factor_guard_empty ptype :
  is_empty_factor ptype = true ->
  factor_guard ptype
  = Rf_error "Can't allocate ptype of class 'factor' with empty levels".
Proof.
  unfold is_empty_factor, factor_guard.
  intros [-> ->]%andb_true_iff. reflexivity.
Qed.

Lemma factor_guard_pass ptype :
  is_empty_factor ptype = false -> factor_guard ptype = Ret ().
Proof.
  unfold is_empty_factor, factor_guard.
  destruct (Rf_inherits ptype "factor"); [|reflexivity].
  simpl. intros ->. reflexivity.
Qed.

Lemma inherits_isObject x cls : Rf_inherits x cls = true -> Rf_isObject x = true.
Proof. unfold Rf_inherits. intros [H _]%andb_true_iff. exact H. Qed.

(** The allocator, with its column loop named. *)
Lemma nanoarrow_materialize_realloc_eq ptype n :
  nanoarrow_materialize_realloc ptype n =
  if Rf_isObject ptype then
    _ ← factor_guard ptype;
    if nanoarrow_ptype_is_data_frame ptype then
      result ← Rf_allocVector VECSXP (Rf_xlength ptype);
      cols ← alloc_columns (elements ptype) n;
      let result := with_elements result cols in
      let result :=
        Rf_setAttrib result R_NamesSymbol (Rf_getAttrib ptype R_NamesSymbol) in
      let result := Rf_copyMostAttrib ptype result in
      if Rf_inherits ptype "data.frame"
      then Ret (nanoarrow_set_rownames result n)
      else Ret result
    else
      result ← Rf_allocVector (TYPEOF ptype) n;
      Ret (Rf_copyMostAttrib ptype result)
  else
    Rf_allocVector (TYPEOF ptype) n.
Proof.
  destruct ptype as [|a d]; [reflexivity|].
  destruct d; try reflexivity.
  unfold nanoarrow_materialize_realloc at 1; fold nanoarrow_materialize_realloc.
  simpl elements.
  match goal with
  | |- context [?F v] => is_fix F; set (inner := F)
  end.
  assert (Hin : forall l, inner l = alloc_columns l n).
  { subst inner. induction l as [|c l IH]; [reflexivity|].
    simpl. rewrite IH. reflexivity. }
  rewrite Hin. reflexivity.
Qed.

Lemma len_nonneg {A} (l : list A) : 0 <= len l.
Proof. unfold len. lia. Qed.

Lemma len_replicate {A} (k : nat) (a : A) : len (replicate k a) = Z.of_nat k.
Proof. unfold len. rewrite length_replicate. reflexivity. Qed.

Lemma Rf_xlength_nonneg x : 0 <= Rf_xlength x.
Proof.
  destruct x as [|a d]; simpl; [lia|].
  destruct d; simpl; apply len_nonneg.
Qed.

Lemma Rf_allocVector_ok type n :
  0 <= n ->
  exists v, Rf_allocVector type n = Ret v /\ TYPEOF v = type /\ ATTRIB v = []
            /\ (type <> NILSXP -> Rf_xlength v = n).
Proof.
  intros Hn. unfold Rf_allocVector.
  destruct (Z.ltb_spec n 0); [lia|].
  destruct type; eexists; (split; [reflexivity|]); simpl;
    repeat split; try congruence; intros _; rewrite len_replicate; lia.
Qed.

Lemma Rf_xlength_copyMostAttrib inp ans :
  Rf_xlength (Rf_copyMostAttrib inp ans) = Rf_xlength ans.
Proof. destruct ans; reflexivity. Qed.

Lemma TYPEOF_copyMostAttrib inp ans :
  TYPEOF (Rf_copyMostAttrib inp ans) = TYPEOF ans.
Proof. destruct ans; reflexivity. Qed.

(** *** Attribute pairlists *)

Lemma assq_installAttrib_eq name val a :
  assq name (installAttrib name val a) = Some val.
Proof.
  induction a as [|[t v] a IH]; simpl.
  - rewrite String.eqb_refl. reflexivity.
  - destruct (String.eqb_spec t name) as [->|Hne]; simpl.
    + rewrite String.eqb_refl. reflexivity.
    + destruct (String.eqb_spec t name); [contradiction|]. exact IH.
Qed.

Lemma assq_installAttrib_ne name name' val a :
  name <> name' ->
  assq name' (installAttrib name val a) = assq name' a.
Proof.
  intros Hne. induction a as [|[t v] a IH]; simpl.
  - destruct (String.eqb_spec name name'); [contradiction|reflexivity].
  - destruct (String.eqb_spec t name) as [->|Hne']; simpl.
    + destruct (String.eqb_spec name name'); [contradiction|reflexivity].
    + rewrite IH. reflexivity.
Qed.




End Allocator.

Section AllocatorShapes.

Lemma alloc_columns_Ret cols n cs :
  alloc_columns cols n = Ret cs <->
  Forall2 (fun col c => nanoarrow_materialize_realloc col n = Ret c) cols cs.
Proof.
  revert cs. induction cols as [|col cols IH]; intros cs; simpl.
  - split.
    + intros [= <-]. constructor.
    + intros H. inversion H. reflexivity.
  - destruct (nanoarrow_materialize_realloc col n) as [c| |] eqn:Hc; simpl.
    + destruct (alloc_columns cols n) as [cs'| |] eqn:Hcs; simpl.
      * split.
        -- intros [= <-]. constructor; [exact Hc|]. apply IH. reflexivity.
        -- intros H. inversion H as [|? c0 ? cs0 Hc0 Hcs0]; subst.
           rewrite Hc in Hc0. injection Hc0 as <-.
           apply IH in Hcs0. injection Hcs0 as <-. reflexivity.
      * split; [discriminate|].
        intros H. inversion H as [|? c0 ? cs0 Hc0 Hcs0]; subst.
        apply IH in Hcs0. discriminate.
      * split; [discriminate|].
        intros H. inversion H as [|? c0 ? cs0 Hc0 Hcs0]; subst.
        apply IH in Hcs0. discriminate.
    + split; [discriminate|]. intros H. inversion H; subst. congruence.
    + split; [discriminate|]. intros H. inversion H; subst. congruence.
Qed.

Lemma elements_setAttrib x name val :
  elements (Rf_setAttrib x name val) = elements x.
Proof. destruct x as [|a d]; [reflexivity|]. destruct val; reflexivity. Qed.

Lemma elements_copyMostAttrib inp ans :
  elements (Rf_copyMostAttrib inp ans) = elements ans.
Proof. destruct ans; reflexivity. Qed.

Lemma elements_set_rownames x n : elements (nanoarrow_set_rownames x n) = elements x.
Proof.
  unfold nanoarrow_set_rownames.
  destruct (n <=? INT_MAX); apply elements_setAttrib.
Qed.

Lemma length_seqZ from k : length (seqZ from k) = k.
Proof. revert from. induction k as [|k IH]; intros from; simpl; [|rewrite IH]; reflexivity. Qed.

(** The row names installed for [n] rows read back as [n] labels. *)
Lemma set_rownames_length a d n :
  0 <= n ->
  Rf_xlength (Rf_getAttrib (nanoarrow_set_rownames (Robj a d) n)
                R_RowNamesSymbol) = n.
Proof.
  intros Hn. unfold nanoarrow_set_rownames, Rf_getAttrib.
  destruct (n <=? INT_MAX); simpl ATTRIB; rewrite assq_installAttrib_eq.
  - simpl. unfold len. rewrite length_seqZ. lia.
  - simpl. unfold len. rewrite length_map, length_seqZ. lia.
Qed.

Lemma getAttrib_names_install_other x name val :
  name <> R_NamesSymbol -> val <> R_NilValue ->
  Rf_getAttrib (Rf_setAttrib x name val) R_NamesSymbol
  = Rf_getAttrib x R_NamesSymbol.
Proof.
  intros Hne Hval. destruct x as [|a d]; [reflexivity|].
  destruct val as [|va vd]; [contradiction|].
  unfold Rf_getAttrib. simpl ATTRIB.
  rewrite assq_installAttrib_ne by exact Hne. reflexivity.
Qed.

Lemma assq_names_copy_most l acc :
  assq R_NamesSymbol
    (fold_left (fun acc tv =>
                  if most_attrib tv.1 then installAttrib tv.1 tv.2 acc
                  else acc) l acc)
  = assq R_NamesSymbol acc.
Proof.
  revert acc. induction l as [|[t v] l IH]; intros acc; simpl; [reflexivity|].
  rewrite IH. destruct (most_attrib t) eqn:Hm; [|reflexivity].
  apply assq_installAttrib_ne. intros ->. discriminate Hm.
Qed.

Lemma getAttrib_names_copyMostAttrib inp ans :
  Rf_getAttrib (Rf_copyMostAttrib inp ans) R_NamesSymbol
  = Rf_getAttrib ans R_NamesSymbol.
Proof.
  destruct ans as [|a d]; [reflexivity|].
  unfold Rf_getAttrib. simpl ATTRIB. rewrite assq_names_copy_most.
  reflexivity.
Qed.

(** Setting the names of a vector without attributes to the names read
    from another object. *)
Lemma getAttrib_names_set d x :
  Rf_getAttrib (Rf_setAttrib (Robj [] d) R_NamesSymbol
                  (Rf_getAttrib x R_NamesSymbol)) R_NamesSymbol
  = Rf_getAttrib x R_NamesSymbol.
Proof.
  unfold Rf_getAttrib at 2 3.
  destruct (assq R_NamesSymbol (ATTRIB x)) as [v|] eqn:Hx; simpl.
  - destruct v; reflexivity.
  - reflexivity.
Qed.

Lemma setAttrib_names_Robj d val :
  exists a, Rf_setAttrib (Robj [] d) R_NamesSymbol val = Robj a d.
Proof. destruct val; simpl; eexists; reflexivity. Qed.

Lemma copyMostAttrib_Robj inp a d :
  exists a', Rf_copyMostAttrib inp (Robj a d) = Robj a' d.
Proof. simpl. eexists; reflexivity. Qed.

(** A record-style ptype whose columns allocate. *)
Lemma realloc_data_frame_cols ptype n cs :
  is_empty_factor ptype = false ->
  nanoarrow_ptype_is_data_frame ptype = true ->
  Forall2 (fun col c => nanoarrow_materialize_realloc col n = Ret c)
          (elements ptype) cs ->
  exists r,
    nanoarrow_materialize_realloc ptype n = Ret r
    /\ elements r = cs
    /\ Rf_getAttrib r R_NamesSymbol = Rf_getAttrib ptype R_NamesSymbol
    /\ (Rf_inherits ptype "data.frame" = true -> 0 <= n ->
        Rf_xlength (Rf_getAttrib r R_RowNamesSymbol) = n).
Proof.
  intros Hfac Hdf Hcols.
  rewrite nanoarrow_materialize_realloc_eq.
  assert (Hobj : Rf_isObject ptype = true).
  { unfold nanoarrow_ptype_is_data_frame in Hdf.
    apply andb_true_iff in Hdf as [Hdf _].
    apply andb_true_iff in Hdf as [Hdf _]. exact Hdf. }
  rewrite Hobj, (factor_guard_pass _ Hfac), Hdf. simpl.
  destruct (Rf_allocVector_ok VECSXP (Rf_xlength ptype)
              (Rf_xlength_nonneg ptype)) as (v & -> & Hty & Hat & _).
  simpl. apply alloc_columns_Ret in Hcols. rewrite Hcols. simpl.
  destruct v as [|a d]; [discriminate|]. simpl in Hat. subst a.
  destruct d; try discriminate. simpl with_elements.
  destruct (setAttrib_names_Robj (Generic cs)
              (Rf_getAttrib ptype R_NamesSymbol)) as [a1 Ha1].
  destruct (copyMostAttrib_Robj ptype a1 (Generic cs)) as [a2 Ha2].
  assert (Hnames :
    Rf_getAttrib (Rf_copyMostAttrib ptype
                    (Rf_setAttrib (Robj [] (Generic cs)) R_NamesSymbol
                       (Rf_getAttrib ptype R_NamesSymbol))) R_NamesSymbol
    = Rf_getAttrib ptype R_NamesSymbol).
  { rewrite getAttrib_names_copyMostAttrib. apply getAttrib_names_set. }
  destruct (Rf_inherits ptype "data.frame") eqn:Hinh.
  - eexists. split; [reflexivity|]. repeat split.
    + rewrite elements_set_rownames, elements_copyMostAttrib,
        elements_setAttrib. reflexivity.
    + etransitivity; [|exact Hnames]. unfold nanoarrow_set_rownames.
      destruct (n <=? INT_MAX);
        apply getAttrib_names_install_other; discriminate.
    + intros _ Hn. rewrite Ha1, Ha2. apply set_rownames_length. exact Hn.
  - eexists. split; [reflexivity|]. repeat split.
    + rewrite elements_copyMostAttrib, elements_setAttrib. reflexivity.
    + exact Hnames.
    + discriminate.
Qed.

(** A record-style ptype allocates only if every column does. *)
Lemma realloc_data_frame_needs_cols ptype n r :
  nanoarrow_ptype_is_data_frame ptype = true ->
  nanoarrow_materialize_realloc ptype n = Ret r ->
  forall col, col ∈ elements ptype ->
              exists c, nanoarrow_materialize_realloc col n = Ret c.
Proof.
  intros Hdf. rewrite nanoarrow_materialize_realloc_eq.
  assert (Hobj : Rf_isObject ptype = true).
  { unfold nanoarrow_ptype_is_data_frame in Hdf.
    apply andb_true_iff in Hdf as [Hdf _].
    apply andb_true_iff in Hdf as [Hdf _]. exact Hdf. }
  rewrite Hobj, Hdf.
  destruct (factor_guard ptype); simpl; try discriminate.
  destruct (Rf_allocVector VECSXP (Rf_xlength ptype)); simpl;
    try discriminate.
  destruct (alloc_columns (elements ptype) n) as [cs| |] eqn:Hcs; simpl;
    try discriminate.
  intros _ col Hin. apply alloc_columns_Ret in Hcs.
  apply list_elem_of_lookup in Hin as [i Hi].
  destruct (Forall2_lookup_l _ _ _ _ _ Hcs Hi) as (c & _ & Hc).
  exists c. exact Hc.
Qed.

End AllocatorShapes.




(** ** Induction over the columns of nested vectors *)

Section SEXP_induction.

Variable P : SEXP -> Prop.
Hypothesis P_nil : P R_NilValue.
Hypothesis P_generic :
  forall a cols, Forall P cols -> P (Robj a (Generic cols)).
Hypothesis P_other :
  forall a d, (forall cols, d <> Generic cols) -> P (Robj a d).

Fixpoint SEXP_cols_ind (x : SEXP) : P x :=
  match x with
  | R_NilValue => P_nil
  | Robj a d =>
      match d return P (Robj a d) with
      | Generic cols =>
          P_generic a cols
            ((fix all (l : list SEXP) : Forall P l :=
                match l with
                | [] => @List.Forall_nil _ P
                | c :: l' =>
                    @List.Forall_cons _ P c l' (SEXP_cols_ind c) (all l')
                end) cols)
      | Logical v => P_other a (Logical v) ltac:(discriminate)
      | Integer v => P_other a (Integer v) ltac:(discriminate)
      | Real v => P_other a (Real v) ltac:(discriminate)
      | Complex v => P_other a (Complex v) ltac:(discriminate)
      | Character v => P_other a (Character v) ltac:(discriminate)
      | Expression v => P_other a (Expression v) ltac:(discriminate)
      | Raw v => P_other a (Raw v) ltac:(discriminate)
      end
  end.

End SEXP_induction.

(** ** The null pre-fill *)

Section NullFill.

Lemma fill_vec_with_nulls_eq x offset n :
  fill_vec_with_nulls x offset n =
  if nanoarrow_ptype_is_data_frame x then
    let r := fill_columns (elements x) offset n in
    (r.1, with_elements x r.2)
  else
    match x with
    | Robj a (Raw v) => on_data a Raw (memset v 0 n)
    | Robj a (Logical v) =>
        on_data a Logical
          (for_loop n (fun i => poke (offset + i) NA_INTEGER) v)
    | Robj a (Integer v) =>
        on_data a Integer
          (for_loop n (fun i => poke (offset + i) NA_INTEGER) v)
    | Robj a (Real v) =>
        on_data a Real (for_loop n (fun i => poke (offset + i) NA_REAL) v)
    | Robj a (Complex v) =>
        on_data a Complex
          (for_loop n (fun i => poke (offset + i) NA_COMPLEX) v)
    | Robj a (Character v) =>
        on_data a Character
          (for_loop n (fun i => set_elt (offset + i) NA_STRING) v)
    | Robj a (Generic v) =>
        on_data a Generic
          (for_loop n (fun i => set_elt (offset + i) R_NilValue) v)
    | _ =>
        (Rf_error "Attempt to fill vector with nulls with unsupported type",
         x)
    end.
Proof.
  destruct x as [|a d]; [reflexivity|].
  destruct d; try reflexivity.
  unfold fill_vec_with_nulls at 1; fold fill_vec_with_nulls.
  simpl elements.
  match goal with
  | |- context [?F v] => is_fix F; set (inner := F)
  end.
  assert (Hin : forall l, inner l = fill_columns l offset n).
  { subst inner. induction l as [|c l IH]; [reflexivity|].
    simpl. rewrite IH. reflexivity. }
  rewrite Hin. reflexivity.
Qed.

Lemma store_in_range {A} (v : list A) i a :
  0 <= i < len v -> store v i a = Some (<[Z.to_nat i := a]> v).
Proof.
  intros Hi. unfold store.
  destruct (Z.leb_spec 0 i); [|lia].
  destruct (Z.ltb_spec i (len v)); [|lia]. reflexivity.
Qed.

Lemma len_insert {A} (v : list A) i a : len (<[i := a]> v) = len v.
Proof. unfold len. rewrite length_insert. reflexivity. Qed.

(** A loop of stores over a window inside the vector, started at [i]. *)
Lemma for_from_stores {A} (write : Z -> A -> list A -> outcome () * list A)
    (a : A) (offset : Z) (k : nat) (i : Z) (v : list A) :
  (forall j w, 0 <= j < len w ->
               write j a w = (Ret (), <[Z.to_nat j := a]> w)) ->
  0 <= offset -> 0 <= i -> offset + i + Z.of_nat k <= len v ->
  for_from i k (fun i => write (offset + i) a) v
  = (Ret (), splice v (offset + i) (Z.of_nat k) a).
Proof.
  intros Hwrite Hoff. revert i v.
  induction k as [|k IH]; intros i v Hi Hlen; simpl.
  - unfold splice. change (Z.of_nat 0) with 0. rewrite Z.add_0_r.
    change (Z.to_nat 0) with O. cbn [replicate app].
    rewrite take_drop. reflexivity.
  - rewrite Hwrite by lia.
    rewrite IH by (rewrite ?len_insert; lia).
    f_equal. unfold splice.
    replace (Z.to_nat (offset + (i + 1))) with (S (Z.to_nat (offset + i)))
      by lia.
    replace (Z.to_nat (Z.of_nat (S k))) with (S k) by lia.
    replace (Z.to_nat (Z.of_nat k)) with k by lia.
    replace (Z.to_nat (offset + (i + 1) + Z.of_nat k))
      with (Z.to_nat (offset + i + Z.of_nat (S k))) by lia.
    assert (Hin : (Z.to_nat (offset + i) < length v)%nat)
      by (unfold len in Hlen; lia).
    rewrite (take_S_r (<[Z.to_nat (offset + i) := a]> v) _ a)
      by (apply list_lookup_insert_eq; exact Hin).
    rewrite take_insert_ge by lia.
    rewrite drop_insert_lt by lia.
    rewrite <- app_assoc. reflexivity.
Qed.

Lemma for_loop_poke {A} (a : A) offset n (v : list A) :
  0 <= offset -> 0 <= n -> offset + n <= len v ->
  for_loop n (fun i => poke (offset + i) a) v = (Ret (), splice v offset n a).
Proof.
  intros Hoff Hn Hlen. unfold for_loop.
  rewrite (for_from_stores poke a offset (Z.to_nat n) 0 v); try lia.
  - replace (offset + 0) with offset by lia.
    replace (Z.of_nat (Z.to_nat n)) with n by lia. reflexivity.
  - intros j w Hj. unfold poke. rewrite store_in_range by exact Hj.
    reflexivity.
Qed.

Lemma for_loop_set_elt {A} (a : A) offset n (v : list A) :
  0 <= offset -> 0 <= n -> offset + n <= len v ->
  for_loop n (fun i => set_elt (offset + i) a) v
  = (Ret (), splice v offset n a).
Proof.
  intros Hoff Hn Hlen. unfold for_loop.
  rewrite (for_from_stores set_elt a offset (Z.to_nat n) 0 v); try lia.
  - replace (offset + 0) with offset by lia.
    replace (Z.of_nat (Z.to_nat n)) with n by lia. reflexivity.
  - intros j w Hj. unfold set_elt. rewrite store_in_range by exact Hj.
    reflexivity.
Qed.

End NullFill.

Section NullFillSpec.

Lemma splice_window {A} (a : A) offset n (v : list A) :
  0 <= offset -> 0 <= n -> offset + n <= len v ->
  window_is a offset n v (splice v offset n a).
Proof.
  unfold len. intros Hoff Hn Hlen. unfold window_is, splice. split.
  - rewrite !length_app, length_take, length_replicate, length_drop. lia.
  - intros i x Hi. pose proof (lookup_lt_Some _ _ _ Hi) as Hlt.
    case_bool_decide as Hw.
    + rewrite lookup_app_r by (rewrite length_take; lia).
      rewrite lookup_app_l by (rewrite length_take, length_replicate; lia).
      apply lookup_replicate_2. rewrite length_take. lia.
    + destruct (decide (Z.of_nat i < offset)) as [Hlo|Hhi].
      * rewrite lookup_app_l by (rewrite length_take; lia).
        rewrite lookup_take_lt by lia. exact Hi.
      * rewrite lookup_app_r by (rewrite length_take; lia).
        rewrite lookup_app_r by (rewrite length_take, length_replicate; lia).
        rewrite lookup_drop, length_take, length_replicate.
        rewrite <- Hi. f_equal. lia.
Qed.

Lemma fill_columns_ok offset n cols :
  Forall (fun c => fillable offset n c ->
                   exists c', fill_vec_with_nulls c offset n = (Ret (), c')
                              /\ null_filled offset n c c') cols ->
  Forall (fillable offset n) cols ->
  exists cols', fill_columns cols offset n = (Ret (), cols')
                /\ Forall2 (null_filled offset n) cols cols'.
Proof.
  induction cols as [|c cols IH]; intros HP Hf.
  - exists []. split; [reflexivity|constructor].
  - apply Forall_cons in HP as [Hc HP]. apply Forall_cons in Hf as [Hfc Hf].
    destruct (Hc Hfc) as (c' & Hc' & Hnf).
    destruct (IH HP Hf) as (cols' & Hcols' & Hnfs).
    exists (c' :: cols'). simpl. rewrite Hc', Hcols'. simpl.
    split; [reflexivity|]. constructor; assumption.
Qed.

Lemma is_data_frame_generic x :
  nanoarrow_ptype_is_data_frame x = true ->
  exists a cols, x = Robj a (Generic cols).
Proof.
  unfold nanoarrow_ptype_is_data_frame.
  intros [[_ Hty]%andb_true_iff _]%andb_true_iff.
  destruct x as [|a d]; [discriminate|]. destruct d; try discriminate.
  eauto.
Qed.

Lemma fill_vec_with_nulls_fillable offset n x :
  fillable offset n x ->
  exists x', fill_vec_with_nulls x offset n = (Ret (), x')
             /\ null_filled offset n x x'.
Proof.
  induction x as [|a cols IH|a d Hd] using SEXP_cols_ind; intros Hf.
  - inversion Hf.
  - rewrite fill_vec_with_nulls_eq.
    inversion Hf as [a' cols' Hdf Hcols|a' d' Hdf Hs Hoff Hn Hlen]; subst.
    + rewrite Hdf. simpl elements.
      destruct (fill_columns_ok offset n cols IH Hcols) as (cols' & -> & Hnf).
      exists (Robj a (Generic cols')). split; [reflexivity|].
      constructor; assumption.
    + rewrite Hdf. simpl in Hlen.
      rewrite for_loop_set_elt by assumption.
      eexists. split; [reflexivity|].
      apply null_filled_vector; [exact Hdf|].
      apply splice_window; assumption.
  - rewrite fill_vec_with_nulls_eq.
    inversion Hf as [a' cols' Hdf Hcols|a' d' Hdf Hs Hoff Hn Hlen]; subst.
    { exfalso. exact (Hd _ eq_refl). }
    rewrite Hdf.
    destruct d; try discriminate Hs; simpl in Hlen;
      try (exfalso; exact (Hd v eq_refl));
      rewrite for_loop_poke || rewrite for_loop_set_elt; try assumption;
      (eexists; split; [reflexivity|]);
      (apply null_filled_vector; [exact Hdf|]);
      apply splice_window; assumption.
Qed.

Lemma not_data_frame_by_type x :
  TYPEOF x <> VECSXP -> nanoarrow_ptype_is_data_frame x = false.
Proof.
  intros Hty. unfold nanoarrow_ptype_is_data_frame.
  destruct (SEXPTYPE_eqb (TYPEOF x) VECSXP) eqn:E.
  - apply SEXPTYPE_eqb_eq in E. contradiction.
  - rewrite andb_false_r. reflexivity.
Qed.

End NullFillSpec.

(** C8: a raw destination and a window that does not start at 0. The
    pre-fill of the window [(1, 2)] of the bytes [7, 8, 9] returns with
    the bytes 0 and 1 zeroed: byte 0, outside the window, is lost, and
    byte 2, inside it, is not zeroed. The raw case is
    [memset(RAW(x), 0, len)], on the start of the vector, where every
    other case writes at [offset + i]. *)
Theorem fill_raw_misses_window :
  fill_vec_with_nulls (raw_vec [7; 8; 9]) 1 2 = (Ret (), raw_vec [0; 0; 9])
  /\ splice [7; 8; 9] 1 2 0 = [7; 0; 0].
Proof. split; reflexivity. Qed.

(** X23: on a destination made of logical, integer, double, complex,
    character and list vectors, through the columns of records, each
    holding the window, the pre-fill returns and has set every position
    of the window [offset, offset + n) of every vector to the null
    sentinel of its kind ([NA_INTEGER], [NA_REAL], the complex of two
    [NA_REAL], [NA_STRING], [NULL]), leaving the rest as it was. On a raw
    vector a window that starts at 0 is zeroed, the rest left as it was.
    [NULL] and expression vectors raise an R error and are left as they
    were. *)
Theorem fill_vec_with_nulls_window :
  (forall offset n x,
      fillable offset n x ->
      exists x', fill_vec_with_nulls x offset n = (Ret (), x')
                 /\ null_filled offset n x x')
  /\ (forall a v n,
         0 <= n <= len v ->
         fill_vec_with_nulls (Robj a (Raw v)) 0 n
         = (Ret (), Robj a (Raw (splice v 0 n 0))))
  /\ (forall x offset n,
         TYPEOF x = NILSXP \/ TYPEOF x = EXPRSXP ->
         fill_vec_with_nulls x offset n
         = (Rf_error
              "Attempt to fill vector with nulls with unsupported type", x)).
Proof.
  split; [exact fill_vec_with_nulls_fillable|split].
  - intros a v n Hn.
    rewrite fill_vec_with_nulls_eq.
    rewrite not_data_frame_by_type by discriminate.
    unfold on_data, memset, splice.
    destruct (Z.leb_spec 0 n); [|lia].
    destruct (Z.leb_spec n (len v)); [|lia].
    reflexivity.
  - intros x offset n Hty.
    rewrite fill_vec_with_nulls_eq.
    rewrite not_data_frame_by_type by (destruct Hty as [-> | ->]; discriminate).
    destruct x as [|a d]; [reflexivity|].
    destruct d; destruct Hty; try discriminate; reflexivity.
Qed.

Lemma fill_vec_with_nulls_window_witness :
  exists x',
    fill_vec_with_nulls
      (data_frame [("a", int_vec [1; 2; 3]); ("b", chr_vec ["x"; "y"; "z"])]
         3) 1 2
    = (Ret (), x')
    /\ null_filled 1 2
         (data_frame [("a", int_vec [1; 2; 3]);
                      ("b", chr_vec ["x"; "y"; "z"])] 3) x'.
Proof.
  apply (proj1 fill_vec_with_nulls_window).
  apply fillable_record; [reflexivity|].
  repeat constructor; simpl; unfold len; simpl; lia.
Defined.

(** ** The copy of a fallback result *)

Section ResultCopy.

Lemma copy_vec_into_eq x dst offset n :
  copy_vec_into x dst offset n =
  if nanoarrow_ptype_is_data_frame dst then
    if negb (nanoarrow_ptype_is_data_frame x) then
      (Rf_error
         "Expected record-style vctr result but got non-record-style result",
       dst)
    else if negb (n =? nanoarrow_data_frame_size x) then
      (Rf_error "Unexpected data.frame row count in copy_vec_into()", dst)
    else if negb (Rf_xlength x =? Rf_xlength dst) then
      (Rf_error "Unexpected data.frame column count in copy_vec_into()", dst)
    else
      let r := copy_columns (elements x) (elements dst) offset n in
      (r.1, with_elements dst r.2)
  else if nanoarrow_ptype_is_data_frame x then
    (Rf_error
       "Expected non-record-style vctr result but got record-style result",
     dst)
  else if negb (SEXPTYPE_eqb (TYPEOF dst) (TYPEOF x)) then
    (Rf_error "Unexpected SEXP type in result copy_vec_into()", dst)
  else if negb (Rf_length x =? n) then
    (Rf_error "Unexpected length of result in copy_vec_into()", dst)
  else copy_data x dst offset n.
Proof.
  destruct dst as [|a d].
  { simpl. destruct (nanoarrow_ptype_is_data_frame x); [reflexivity|].
    destruct x as [|? []]; reflexivity. }
  destruct d;
    try (unfold copy_vec_into, copy_data;
         destruct (nanoarrow_ptype_is_data_frame (Robj a _)) eqn:Hdf;
         [apply is_data_frame_generic in Hdf as (? & ? & [=])|];
         reflexivity).
  unfold copy_vec_into at 1; fold copy_vec_into.
  simpl elements.
  match goal with
  | |- context [?F (elements x) v] => is_fix F; set (inner := F)
  end.
  assert (Hin : forall l xs, inner xs l = copy_columns xs l offset n).
  { subst inner. induction l as [|c l IH]; intros [|xi xs]; try reflexivity.
    simpl. rewrite IH. reflexivity. }
  rewrite Hin. reflexivity.
Qed.

End ResultCopy.

Section ResultCopySpec.

Lemma copy_vec_into_mismatch x dst offset n :
  shape_mismatch x dst n ->
  exists msg, copy_vec_into x dst offset n = (Rf_error msg, dst).
Proof.
  unfold shape_mismatch. rewrite copy_vec_into_eq.
  destruct (nanoarrow_ptype_is_data_frame dst).
  - destruct (nanoarrow_ptype_is_data_frame x); simpl; [|eauto].
    destruct (Z.eqb_spec n (nanoarrow_data_frame_size x)); simpl; [|eauto].
    destruct (Z.eqb_spec (Rf_xlength x) (Rf_xlength dst)); simpl; [|eauto].
    intros [H|[H|H]]; [discriminate|congruence|contradiction].
  - destruct (nanoarrow_ptype_is_data_frame x); simpl; [eauto|].
    destruct (SEXPTYPE_eqb (TYPEOF dst) (TYPEOF x)) eqn:Hty; simpl; [|eauto].
    apply SEXPTYPE_eqb_eq in Hty.
    destruct (Z.eqb_spec (Rf_length x) n); simpl; [|eauto].
    intros [H|[H|H]]; [discriminate|congruence|contradiction].
Qed.

Lemma copy_vec_into_Ret_shape x dst offset n :
  (copy_vec_into x dst offset n).1 = Ret () ->
  if nanoarrow_ptype_is_data_frame dst then
    nanoarrow_ptype_is_data_frame x = true
    /\ nanoarrow_data_frame_size x = n
    /\ Rf_xlength x = Rf_xlength dst
  else
    nanoarrow_ptype_is_data_frame x = false
    /\ TYPEOF x = TYPEOF dst
    /\ Rf_length x = n.
Proof.
  rewrite copy_vec_into_eq.
  destruct (nanoarrow_ptype_is_data_frame dst).
  - destruct (nanoarrow_ptype_is_data_frame x); simpl; [|discriminate].
    destruct (Z.eqb_spec n (nanoarrow_data_frame_size x)); simpl;
      [|discriminate].
    destruct (Z.eqb_spec (Rf_xlength x) (Rf_xlength dst)); simpl;
      [|discriminate].
    auto.
  - destruct (nanoarrow_ptype_is_data_frame x); simpl; [discriminate|].
    destruct (SEXPTYPE_eqb (TYPEOF dst) (TYPEOF x)) eqn:Hty; simpl;
      [|discriminate].
    apply SEXPTYPE_eqb_eq in Hty.
    destruct (Z.eqb_spec (Rf_length x) n); simpl; [|discriminate].
    auto.
Qed.

Lemma copy_columns_Ret xs cols offset n cols' :
  copy_columns xs cols offset n = (Ret (), cols') ->
  length cols' = length cols
  /\ forall (i : nat) xi di,
       xs !! i = Some xi -> cols !! i = Some di ->
       exists di', copy_vec_into xi di offset n = (Ret (), di')
                   /\ cols' !! i = Some di'.
Proof.
  revert cols cols'. induction xs as [|x0 xs IH]; intros cols cols'.
  - destruct cols; simpl; intros [= <-]; (split; [reflexivity|]);
      intros i xi di Hx; rewrite lookup_nil in Hx; discriminate.
  - destruct cols as [|c cols]; simpl.
    + intros [= <-]. split; [reflexivity|].
      intros i xi di _ Hc. rewrite lookup_nil in Hc. discriminate.
    + destruct (copy_vec_into x0 c offset n) as [[[]| |] c'] eqn:Hc;
        try discriminate.
      destruct (copy_columns xs cols offset n) as [r rest'] eqn:Hrest.
      simpl. intros [= -> <-].
      destruct (IH cols rest' Hrest) as [Hlen Hpt].
      split; [simpl; rewrite Hlen; reflexivity|].
      intros [|i] xi di; simpl.
      * intros [= <-] [= <-]. exists c'. split; [exact Hc|reflexivity].
      * apply Hpt.
Qed.

End ResultCopySpec.

(** C5, as stated, fails: the result is a record of two rows and two
    columns, as requested, and its second column has the wrong kind; the
    error is raised after the first column has been copied. *)
Lemma copy_vec_into_partial_counterexample :
  copy_vec_into copy_result copy_dst 0 2
  = (Rf_error "Unexpected SEXP type in result copy_vec_into()",
     data_frame [("a", int_vec [7; 8]); ("b", chr_vec [""; ""])] 2)
  /\ data_frame [("a", int_vec [7; 8]); ("b", chr_vec [""; ""])] 2
     <> copy_dst.
Proof. split; [reflexivity|discriminate]. Qed.

(** C5 (amended): the copy returns into a record-style destination only
    if the result is record-style with the requested row count and the
    destination's column count, and then column [i] of the destination
    holds the copy of column [i] of the result, whatever the names; it
    returns into any other destination only if the result is not
    record-style, has the destination's type and the requested length.
    A mismatch among these checks on the result itself is an R error
    raised before anything is written: the destination is as it was. (A
    mismatch inside a column of a record is raised when that column is
    reached.) *)
Theorem copy_vec_into_checks :
  (forall x dst offset n,
      (copy_vec_into x dst offset n).1 = Ret () ->
      if nanoarrow_ptype_is_data_frame dst then
        nanoarrow_ptype_is_data_frame x = true
        /\ nanoarrow_data_frame_size x = n
        /\ Rf_xlength x = Rf_xlength dst
      else
        nanoarrow_ptype_is_data_frame x = false
        /\ TYPEOF x = TYPEOF dst
        /\ Rf_length x = n)
  /\ (forall x dst offset n dst',
         nanoarrow_ptype_is_data_frame dst = true ->
         copy_vec_into x dst offset n = (Ret (), dst') ->
         ATTRIB dst' = ATTRIB dst
         /\ length (elements dst') = length (elements dst)
         /\ forall (i : nat) xi di,
              elements x !! i = Some xi -> elements dst !! i = Some di ->
              exists di', copy_vec_into xi di offset n = (Ret (), di')
                          /\ elements dst' !! i = Some di')
  /\ (forall x dst offset n,
         shape_mismatch x dst n ->
         exists msg, copy_vec_into x dst offset n = (Rf_error msg, dst)).
Proof.
  split; [exact copy_vec_into_Ret_shape|split;
                                          [|exact copy_vec_into_mismatch]].
  intros x dst offset n dst' Hdf Hcopy.
  pose proof (copy_vec_into_Ret_shape x dst offset n) as Hshape.
  rewrite Hcopy, Hdf in Hshape. destruct (Hshape eq_refl) as (Hx & Hn & Hl).
  rewrite copy_vec_into_eq, Hdf, Hx in Hcopy. simpl in Hcopy.
  rewrite <- Hn, Z.eqb_refl, Hl, Z.eqb_refl in Hcopy. simpl in Hcopy.
  destruct (copy_columns (elements x) (elements dst) offset
              (nanoarrow_data_frame_size x)) as [r cols'] eqn:Hcols.
  simpl in Hcopy. injection Hcopy as -> <-.
  apply is_data_frame_generic in Hdf as (a & cols & ->).
  simpl in *. rewrite Hn in Hcols.
  destruct (copy_columns_Ret _ _ _ _ _ Hcols) as [Hlen Hpt].
  auto.
Qed.

Lemma copy_vec_into_checks_witness :
  exists msg,
    copy_vec_into (int_vec [1; 2; 3]) (int_vec [0; 0; 0; 0; 0]) 0 5
    = (Rf_error msg, int_vec [0; 0; 0; 0; 0]).
Proof.
  apply (proj2 (proj2 copy_vec_into_checks)).
  right. right. discriminate.
Defined.

(** ** Steps *)

Section Steps.

Lemma bind_run {A B} (m : M A) (k : A -> M B) w a w1 t1 :
  m w = (Ret a, w1, t1) ->
  bind m k w = (let '(r, w2, t2) := k a w1 in (r, w2, t1 ++ t2)).
Proof. intros Hm. unfold bind. rewrite Hm. reflexivity. Qed.

Lemma bind_Ret_inv {A B} (m : M A) (k : A -> M B) w b w2 t :
  bind m k w = (Ret b, w2, t) ->
  exists a w1 t1 t2,
    m w = (Ret a, w1, t1) /\ k a w1 = (Ret b, w2, t2) /\ t = t1 ++ t2.
Proof.
  unfold bind. destruct (m w) as [[[a| |] w1] t1]; try discriminate.
  destruct (k a w1) as [[r w2'] t2] eqn:Hk. intros [= -> -> <-].
  exists a, w1, t1, t2. auto.
Qed.

Lemma bind_run_inv {A B} (m : M A) (k : A -> M B) w a w1 t1 r w' t :
  m w = (Ret a, w1, t1) -> bind m k w = (r, w', t) ->
  exists t2, k a w1 = (r, w', t2) /\ t = t1 ++ t2.
Proof.
  intros Hm. rewrite (bind_run _ _ _ _ _ _ Hm).
  destruct (k a w1) as [[r2 w2] t2]. intros [= -> -> <-]. eauto.
Qed.

Lemma nanoarrow_alloc_type_zero vt :
  exists p, nanoarrow_alloc_type vt 0 = Ret p.
Proof. destruct vt; eexists; reflexivity. Qed.

Context {H : Host}.

(** The fallback bridge calls the R function once, and when it returns
    its status is [NANOARROW_OK]. *)
Lemma ensure_ptype_run c w :
  exists p,
    ensure_ptype c w
    = (Ret (),
       mkWorld (mkConverterState p (src (conv w)) (dst (conv w))
                  (kids (conv w))) (heap w), []).
Proof.
  unfold ensure_ptype, bind, get_conv, leave, put_conv, ret.
  destruct (ptype (conv w)) eqn:Hp.
  - destruct (nanoarrow_alloc_type_zero (vector_type c)) as [p ->].
    exists p. reflexivity.
  - exists (ptype (conv w)). rewrite Hp. destruct w as [[] ?]; simpl in *.
    subst. reflexivity.
Qed.

Lemma nanoarrow_materialize_other_run c w :
  exists offset length p r w',
    nanoarrow_materialize_other c w = (r, w', [Ev_fallback offset length p])
    /\ (forall status, r = Ret status -> status = NANOARROW_OK).
Proof.
  destruct (ensure_ptype_run c w) as [p Hprep].
  exists (Rf_ScalarReal
            (av_offset (array_view c) + src_offset (src (conv w)))),
    (Rf_ScalarReal (src_length (src (conv w)))), p.
  unfold nanoarrow_materialize_other.
  rewrite (bind_run _ _ _ _ _ _ Hprep).
  unfold bind, get_conv, emit, leave, on_heap, ret. simpl.
  destruct (convert_fallback_other c _ _ p) as [result| |];
    try (eexists _, _; split; [reflexivity|discriminate]).
  destruct (in_place _ _ _) as [[[]| |] heap']; simpl;
    eexists _, _; (split; [reflexivity|]); congruence.
Qed.

Lemma nanoarrow_materialize_eq c :
  nanoarrow_materialize c
  = nanoarrow_materialize_body
      (child_call nanoarrow_materialize (children c)) c.
Proof. destruct c; reflexivity. Qed.

Lemma nanoarrow_materialize_body_Ret mc c w status w' t :
  nanoarrow_materialize_body mc c w = (Ret status, w', t) ->
  status = NANOARROW_OK.
Proof.
  unfold nanoarrow_materialize_body. intros Hrun.
  apply bind_Ret_inv in Hrun as (result & w1 & t1 & t2 & _ & Hk & _).
  destruct (negb (result =? NANOARROW_OK)).
  - destruct (nanoarrow_materialize_other_run c w1)
      as (? & ? & ? & r & w2 & Hother & Hok).
    rewrite Hother in Hk. injection Hk as Hr _ _. exact (Hok _ Hr).
  - unfold ret in Hk. congruence.
Qed.

Lemma nanoarrow_materialize_Ret c w status w' t :
  nanoarrow_materialize c w = (Ret status, w', t) ->
  status = NANOARROW_OK.
Proof.
  rewrite nanoarrow_materialize_eq.
  apply nanoarrow_materialize_body_Ret.
Qed.

End Steps.

(** C9: whenever the dispatcher returns, its status is [NANOARROW_OK]:
    the first attempt's status is only kept when it is [NANOARROW_OK],
    and the fallback bridge, when it returns, returns [NANOARROW_OK]. *)
Theorem nanoarrow_materialize_returns_ok {H : Host} c w status w' t :
  nanoarrow_materialize c w = (Ret status, w', t) ->
  status = NANOARROW_OK.
Proof.
  intros Hrun. rewrite nanoarrow_materialize_eq in Hrun.
  unfold nanoarrow_materialize_body in Hrun.
  apply bind_Ret_inv in Hrun as (result & w1 & t1 & t2 & _ & Hk & _).
  destruct (negb (result =? NANOARROW_OK)).
  - destruct (nanoarrow_materialize_other_run c w1)
      as (? & ? & ? & r & w2 & Hother & Hok).
    rewrite Hother in Hk. injection Hk as Hr _ _. exact (Hok _ Hr).
  - unfold ret in Hk. congruence.
Qed.

Lemma nanoarrow_materialize_returns_ok_witness :
  exists w' t,
    nanoarrow_materialize (H := Demo.host) Demo.int_of_list Demo.int_world
    = (Ret 0, w', t)
    /\ 0 = NANOARROW_OK.
Proof.
  eexists _, _. split.
  - vm_compute. reflexivity.
  - eapply (nanoarrow_materialize_returns_ok (H := Demo.host)
              Demo.int_of_list Demo.int_world).
    vm_compute. reflexivity.
Defined.

(** C7: a source array that carries a dictionary is rejected with
    [EINVAL] by the record materialiser (struct and union storage) and by
    the list materialiser, and so is a storage kind the list materialiser
    does not know; nothing has been written and no child has been called
    when they return. *)
Theorem nested_materializers_reject {H : Host} :
  (forall materialize_child c w,
      array_dictionary (array_view c) = true ->
      nanoarrow_materialize_data_frame materialize_child c w
      = (Ret EINVAL, w, []))
  /\ (forall c w,
         children c <> [] ->
         array_dictionary (array_view c) = true ->
         nanoarrow_materialize_list_of c w = (Ret EINVAL, w, []))
  /\ (forall c w,
         children c <> [] ->
         list_of_storage (storage_type (array_view c)) = false ->
         nanoarrow_materialize_list_of c w = (Ret EINVAL, w, [])).
Proof.
  split; [|split].
  - intros mc c w Hdict. unfold nanoarrow_materialize_data_frame.
    rewrite Hdict. destruct (negb _); reflexivity.
  - intros c w Hch Hdict. unfold nanoarrow_materialize_list_of.
    destruct (children c) as [|child rest]; [contradiction|].
    unfold bind, get_conv. rewrite Hdict. reflexivity.
  - intros c w Hch Hst. unfold nanoarrow_materialize_list_of.
    destruct (children c) as [|child rest]; [contradiction|].
    unfold bind, get_conv.
    destruct (array_dictionary (array_view c)); [reflexivity|].
    destruct (storage_type (array_view c)); try discriminate Hst;
      reflexivity.
Qed.

Lemma nested_materializers_reject_witness :
  nanoarrow_materialize_list_of (H := Demo.host)
    (list_with_dictionary NANOARROW_TYPE_LIST) Demo.list_world
  = (Ret EINVAL, Demo.list_world, [])
  /\ nanoarrow_materialize_list_of (H := Demo.host)
       (mkRConverter VECTOR_TYPE_LIST_OF 0 (Demo.view NANOARROW_TYPE_STRUCT)
          [Demo.leaf VECTOR_TYPE_INT NANOARROW_TYPE_NA])
       Demo.list_world
     = (Ret EINVAL, Demo.list_world, []).
Proof.
  destruct (nested_materializers_reject (H := Demo.host)) as (_ & Hd & Hs).
  split.
  - apply Hd; [discriminate|reflexivity].
  - apply Hs; [discriminate|reflexivity].
Defined.

(** C10: for a list-of converter over a source array of the null type,
    once the dictionary guard of the list materialiser is passed (the
    array carries no dictionary; the rejection of dictionaries is C7) and
    given the element converter the function reads first, the list
    materialiser returns [NANOARROW_OK] at once: the converter state and
    every R object are as before and nothing was called (no row written,
    no child conversion). *)
Theorem nanoarrow_materialize_list_of_na {H : Host} c w :
  children c <> [] ->
  array_dictionary (array_view c) = false ->
  storage_type (array_view c) = NANOARROW_TYPE_NA ->
  nanoarrow_materialize_list_of c w = (Ret NANOARROW_OK, w, []).
Proof.
  intros Hch Hdict Hna. unfold nanoarrow_materialize_list_of.
  destruct (children c) as [|child rest]; [contradiction|].
  unfold bind, get_conv. rewrite Hdict, Hna. reflexivity.
Qed.

Lemma nanoarrow_materialize_list_of_na_witness :
  nanoarrow_materialize_list_of (H := Demo.host)
    (mkRConverter VECTOR_TYPE_LIST_OF 0 (Demo.view NANOARROW_TYPE_NA)
       [Demo.leaf VECTOR_TYPE_INT NANOARROW_TYPE_NA])
    Demo.list_world
  = (Ret NANOARROW_OK, Demo.list_world, []).
Proof.
  apply nanoarrow_materialize_list_of_na;
    [discriminate|reflexivity|reflexivity].
Defined.

(** The dictionary guard comes before the switch on the storage kind:
    with a dictionary the answer is [EINVAL] for the null type too. *)
Example list_of_na_with_dictionary :
  nanoarrow_materialize_list_of (H := Demo.host)
    (list_with_dictionary NANOARROW_TYPE_NA) Demo.list_world
  = (Ret EINVAL, Demo.list_world, []).
Proof. reflexivity. Qed.

(** ** A logic of steps *)

Section Triples.

Variable P : event -> Prop.

Lemma triple_ret {A} (I : world -> Prop) (a : A) (Q : A -> world -> Prop) :
  (forall w, I w -> Q a w) -> triple P I (ret a) Q.
Proof.
  intros HQ w Hw. split; [constructor|].
  simpl. intros a' [= <-]. exact (HQ w Hw).
Qed.

Lemma triple_bind {A B} (I : world -> Prop) (m : M A) (k : A -> M B)
    (R : A -> world -> Prop) (Q : B -> world -> Prop) :
  triple P I m R -> (forall a, triple P (R a) (k a) Q) ->
  triple P I (bind m k) Q.
Proof.
  intros Hm Hk w Hw. destruct (Hm w Hw) as [Ht HR]. unfold bind.
  destruct (m w) as [[[a| |] w1] t1]; simpl in *;
    try (split; [exact Ht|discriminate]).
  destruct (Hk a w1 (HR a eq_refl)) as [Ht2 HQ].
  destruct (k a w1) as [[r w2] t2]; simpl in *.
  split; [apply Forall_app; auto|exact HQ].
Qed.

Lemma triple_weaken {A} (I I' : world -> Prop) (m : M A)
    (Q Q' : A -> world -> Prop) :
  triple P I' m Q' -> (forall w, I w -> I' w) ->
  (forall a w, Q' a w -> Q a w) -> triple P I m Q.
Proof.
  intros Hm HI HQ w Hw. destruct (Hm w (HI w Hw)) as [Ht HQ'].
  split; [exact Ht|]. intros a Ha. apply HQ, HQ', Ha.
Qed.

Lemma triple_get_conv (I : world -> Prop) :
  triple P I get_conv (fun st w => I w /\ st = conv w).
Proof.
  intros w Hw. split; [constructor|].
  simpl. intros a [= <-]. auto.
Qed.

Lemma triple_leave {A} (I : world -> Prop) (r : outcome A) :
  triple P I (leave r) (fun _ w => I w).
Proof. intros w Hw. split; [constructor|]. simpl. auto. Qed.

Lemma triple_emit (I : world -> Prop) e :
  P e -> triple P I (emit e) (fun _ w => I w).
Proof.
  intros He w Hw. split; [repeat constructor; exact He|]. simpl. auto.
Qed.

(** A step on the R objects keeps what is known of the converter. *)
Lemma triple_on_heap (I : ConverterState -> Prop) p f :
  triple P (fun w => I (conv w)) (on_heap p f) (fun _ w => I (conv w)).
Proof. intros w Hw. split; [constructor|]. simpl. auto. Qed.

Lemma triple_call_scalar {H : Host} (I : ConverterState -> Prop) f c :
  (forall s d, P (Ev_native (vector_type c) s d)) ->
  triple P (fun w => I (conv w)) (call_scalar f c) (fun _ w => I (conv w)).
Proof.
  intros He w Hw. split; [repeat constructor; apply He|]. simpl. auto.
Qed.

Lemma triple_call_protocol {A} (I : world -> Prop) e
    (f : world -> outcome A * world) :
  P e -> triple P I (call_protocol e f) (fun _ _ => True).
Proof.
  intros He w Hw. split; [repeat constructor; exact He|]. simpl. auto.
Qed.

Lemma triple_forM_from (I : world -> Prop) body k i :
  (forall j, triple P I (body j) (fun _ w => I w)) ->
  triple P I (forM_from i k body) (fun _ w => I w).
Proof.
  intros Hbody. revert i. induction k as [|k IH]; intros i; simpl.
  - apply triple_ret. auto.
  - eapply triple_bind; [apply Hbody|].
    intros [status|]; [apply triple_ret; auto|apply IH].
Qed.

Lemma triple_forM (I : world -> Prop) body n :
  (forall j, triple P I (body j) (fun _ w => I w)) ->
  triple P I (forM n body) (fun _ w => I w).
Proof. apply triple_forM_from. Qed.

Lemma triple_return_not_ok (I I' : world -> Prop) (m : M Z) :
  triple P I m (fun _ w => I' w) ->
  triple P I (return_not_ok m) (fun _ w => I' w).
Proof.
  intros Hm. unfold return_not_ok. eapply triple_bind; [exact Hm|].
  intros result. simpl. destruct (negb _); apply triple_ret; auto.
Qed.

Lemma triple_on_child {A} I (J : ConverterState -> Prop) k (m : M A) :
  triple P (fun w => J (conv w)) m (fun _ _ => True) ->
  triple P (fun w => own I w /\ child_is k J w) (on_child k m)
         (fun _ w => own I w).
Proof.
  intros Hm w [Hown Hkid]. unfold on_child.
  destruct (Z.leb_spec 0 k) as [Hk|Hk];
    [|split; [constructor|simpl; auto]].
  destruct (kids (conv w) !! Z.to_nat k) as [kid|] eqn:Hlook;
    [|split; [constructor|simpl; auto]].
  destruct (Hm (mkWorld kid (heap w)) (Hkid kid Hk Hlook)) as [Ht _].
  destruct (m (mkWorld kid (heap w))) as [[r w'] t]; simpl in *.
  split; [exact Ht|]. intros _ _. exact Hown.
Qed.

Lemma triple_set_child_slices I k s d_offset d_length
    (J : ConverterState -> Prop) :
  (forall kid, J (rebind s d_offset d_length kid)) ->
  triple P (own I) (set_child_slices k s d_offset d_length)
         (fun _ w => own I w /\ child_is k J w).
Proof.
  intros HJ w Hown. unfold set_child_slices, bind, get_conv.
  destruct (Z.leb_spec 0 k) as [Hk|Hk];
    [|split; [constructor|simpl; discriminate]].
  destruct (kids (conv w) !! Z.to_nat k) as [kid|] eqn:Hlook;
    [|split; [constructor|simpl; discriminate]].
  simpl. split; [constructor|]. intros _ _. split; [exact Hown|].
  intros kid' _. simpl.
  rewrite list_lookup_insert_eq by (eapply lookup_lt_Some; exact Hlook).
  intros [= <-]. apply HJ.
Qed.

End Triples.

Section TripleRules.

Lemma triple_trivial {A} (I : world -> Prop) (m : M A) :
  triple (fun _ => True) I m (fun _ _ => True).
Proof. intros w _. split; [apply Forall_true; auto|auto]. Qed.

Lemma triple_pure {A} P (I : world -> Prop) (fact : Prop) (m : M A) Q :
  (forall w, I w -> fact) -> (fact -> triple P I m Q) -> triple P I m Q.
Proof. intros Hfact Hm w Hw. exact (Hm (Hfact w Hw) w Hw). Qed.

Lemma triple_put_conv P (I : world -> Prop) s :
  triple P I (put_conv s) (fun _ w => conv w = s).
Proof. intros w _. split; [constructor|]. simpl. auto. Qed.

(** A call on a child is one event of the parent; what the child did is
    held inside it. *)
Lemma triple_call_child (P P' : event -> Prop) I
    (J : ConverterState -> Prop) k (m : M Z) :
  (forall kid t, J kid -> Forall P' t ->
                 P (Ev_child k (src kid) (dst kid) t)) ->
  triple P' (fun w => J (conv w)) m (fun _ _ => True) ->
  triple P (fun w => own I w /\ child_is k J w) (call_child k m)
         (fun _ w => own I w).
Proof.
  intros HP Hm w [Hown Hkid]. unfold call_child, on_child.
  destruct (Z.leb_spec 0 k) as [Hk|Hk];
    [|split; [constructor|simpl; auto]].
  destruct (kids (conv w) !! Z.to_nat k) as [kid|] eqn:Hlook;
    [|split; [constructor|simpl; auto]].
  pose proof (Hkid kid Hk Hlook) as HJ.
  destruct (Hm (mkWorld kid (heap w)) HJ) as [Ht _].
  destruct (m (mkWorld kid (heap w))) as [[r w'] t]; simpl in *.
  split; [repeat constructor; apply HP; assumption|].
  intros _ _. exact Hown.
Qed.

Lemma nth_child_Some {A} (f : RConverter -> A) cs k m :
  nth_child f cs k = Some m -> exists ch, cs !! k = Some ch /\ m = f ch.
Proof.
  revert k. induction cs as [|c cs IH]; intros [|k]; simpl;
    try discriminate.
  - intros [= <-]. exists c. split; reflexivity.
  - intros Hk. destruct (IH k Hk) as (ch & Hin & ->).
    exists ch. split; [exact Hin|reflexivity].
Qed.

Lemma triple_child_call (P P' : event -> Prop) I
    (J : ConverterState -> Prop) (f : RConverter -> M Z) cs k :
  (forall kid t, J kid -> Forall P' t ->
                 P (Ev_child k (src kid) (dst kid) t)) ->
  Forall (fun ch => triple P' (fun w => J (conv w)) (f ch) (fun _ _ => True))
         cs ->
  triple P (fun w => own I w /\ child_is k J w) (child_call f cs k)
         (fun _ w => own I w).
Proof.
  intros HP Hcs. unfold child_call.
  destruct (if 0 <=? k then nth_child f cs (Z.to_nat k) else None)
    as [m|] eqn:Hnth.
  - destruct (0 <=? k); [|discriminate].
    apply nth_child_Some in Hnth as (ch & Hin & ->).
    apply triple_call_child with (P' := P'); [exact HP|].
    rewrite Forall_forall in Hcs.
    apply Hcs, list_elem_of_lookup. eauto.
  - eapply triple_weaken; [apply (triple_leave P (own I))| |];
      simpl; intuition.
Qed.

Context {H : Host}.

Section Nested.

Variable P : event -> Prop.
Hypothesis P_fill : forall v o l, P (Ev_fill v o l).
Hypothesis P_reserve : forall n, P (Ev_reserve n).
Hypothesis P_materialize_n :
  forall offset length vec,
    P (Ev_materialize_n (mkArrayViewSlice offset length)
         (mkVectorSlice vec 0 length) length).
Hypothesis P_finalize : P Ev_finalize.
Hypothesis P_release_result : P Ev_release_result.
Hypothesis P_store : forall v i x, P (Ev_store v i x).

Lemma triple_materialize_list_element converter offset length :
  triple P (fun _ => True)
    (materialize_list_element converter offset length) (fun _ _ => True).
Proof.
  unfold materialize_list_element.
  eapply triple_bind; [apply triple_call_protocol, P_reserve|].
  intros status. simpl.
  eapply triple_bind with (R := fun _ _ => True).
  { destruct (negb _).
    - intros w _. split; [constructor|auto].
    - apply triple_ret. auto. }
  intros ?. eapply triple_bind; [apply triple_get_conv|].
  intros st. simpl.
  eapply triple_bind; [apply triple_put_conv|].
  intros ?. simpl.
  eapply triple_bind; [apply triple_get_conv|].
  intros st'. simpl.
  apply triple_pure
    with (fact := st' = rebind (mkArrayViewSlice offset length) 0 length st).
  { intros w [Hw ->]. exact Hw. }
  intros ->.
  eapply triple_bind;
    [apply triple_call_protocol, P_materialize_n|].
  intros n. simpl. destruct (negb _); [apply triple_ret; auto|].
  eapply triple_bind; [apply triple_call_protocol, P_finalize|].
  intros status'. simpl. destruct (negb _); apply triple_ret; auto.
Qed.

Lemma triple_list_row child d i offset length :
  triple P (fun _ => True) (list_row child d i offset length)
         (fun _ _ => True).
Proof.
  unfold list_row.
  eapply triple_bind with (R := fun _ _ => True).
  { eapply triple_weaken;
      [apply (triple_on_child P (fun _ _ => True) (fun _ => True)),
         triple_materialize_list_element| |]; simpl; auto.
    intros w _. split; [exact I|]. intros kid _ _. exact I. }
  intros status. simpl. destruct (negb _); [apply triple_ret; auto|].
  eapply triple_bind with (R := fun _ _ => True).
  { eapply triple_weaken;
      [apply (triple_on_child P (fun _ _ => True) (fun _ => True)),
         triple_call_protocol, P_release_result| |]; simpl; auto.
    intros w _. split; [exact I|]. intros kid _ _. exact I. }
  intros value. simpl.
  eapply triple_bind; [apply triple_emit, P_store|].
  intros ?. simpl.
  eapply triple_bind;
    [apply (triple_on_heap P (fun _ => True))|].
  intros ?. apply triple_ret. auto.
Qed.

Lemma triple_list_of c :
  triple P (fun _ => True) (nanoarrow_materialize_list_of c)
         (fun _ _ => True).
Proof.
  unfold nanoarrow_materialize_list_of.
  destruct (children c) as [|child rest].
  { eapply triple_weaken;
      [apply (triple_leave P (fun _ => True))| |]; simpl; auto. }
  eapply triple_bind; [apply triple_get_conv|].
  intros st. simpl.
  destruct (array_dictionary (array_view c)); [apply triple_ret; auto|].
  eapply triple_bind with (R := fun _ _ => True).
  2: { intros [status|]; apply triple_ret; auto. }
  assert (Hload : forall (b : list Z) k (body : Z -> M (option Z)),
    (forall x, triple P (fun _ => True) (body x) (fun _ _ => True)) ->
    triple P (fun _ => True) (let* x := leave (load b k) in body x)
           (fun _ _ => True)).
  { intros b k body Hbody.
    eapply triple_bind; [apply (triple_leave P (fun _ => True))|].
    intros x. apply Hbody. }
  destruct (storage_type (array_view c));
    try (apply triple_ret; auto; fail);
    (eapply triple_weaken;
     [apply (triple_forM P (fun _ => True))| |]; simpl; auto);
    intros j; destruct (negb _);
    try (apply triple_ret; auto; fail);
    repeat (apply Hload; intros ?);
    apply triple_list_row.
Qed.

Variable c : RConverter.
Variable I : ArrayViewSlice -> VectorSlice -> Prop.
Variable J : ConverterState -> Prop.
Hypothesis J_struct :
  storage_type (array_view c) = NANOARROW_TYPE_STRUCT ->
  forall s d kid, I s d -> J (rebind s (dst_offset d) (dst_length d) kid).
Hypothesis J_union :
  storage_type (array_view c) <> NANOARROW_TYPE_STRUCT ->
  forall offset d_offset kid,
    J (rebind (mkArrayViewSlice offset 1) d_offset 1 kid).

Lemma triple_data_frame (materialize_child : Z -> M Z) :
  (forall k, triple P (fun w => own I w /\ child_is k J w)
                    (materialize_child k) (fun _ w => own I w)) ->
  triple P (own I) (nanoarrow_materialize_data_frame materialize_child c)
         (fun _ _ => True).
Proof.
  intros Hmc. unfold nanoarrow_materialize_data_frame.
  destruct (negb _); [apply triple_ret; auto|].
  destruct (array_dictionary (array_view c)); [apply triple_ret; auto|].
  destruct (storage_type (array_view c)) eqn:Hstorage;
    try (apply triple_ret; auto; fail).
  - (* struct *)
    eapply triple_bind with (R := fun _ _ => True).
    2: { intros [status|]; apply triple_ret; auto. }
    eapply triple_weaken; [apply (triple_forM P (own I))| |];
      simpl; auto.
    intros j. eapply triple_bind; [apply triple_get_conv|].
    intros st. simpl.
    apply triple_pure with (fact := I (src st) (dst st)).
    { intros w [Hw ->]. exact Hw. }
    intros Hst.
    eapply triple_bind.
    { eapply triple_weaken;
        [apply (triple_set_child_slices P I j (src st) (dst_offset (dst st))
                  (dst_length (dst st)) J)| |].
      - intros kid. apply J_struct; [reflexivity|exact Hst].
      - simpl. intros w [Hw _]. exact Hw.
      - simpl. intros ? w Hw. exact Hw. }
    intros ?. simpl. apply triple_return_not_ok, Hmc.
  - (* sparse union *)
    eapply triple_bind; [apply triple_get_conv|].
    intros st. simpl.
    eapply triple_bind; [apply triple_emit, P_fill|].
    intros ?. simpl.
    eapply triple_bind.
    { eapply triple_weaken;
        [apply (triple_on_heap P (fun s => I (src s) (dst s)))| |];
        simpl; [intros w [Hw _]; exact Hw|intros ? w Hw; exact Hw]. }
    intros ?. simpl.
    eapply triple_bind with (R := fun _ _ => True).
    2: { intros [status|]; apply triple_ret; auto. }
    eapply triple_weaken; [apply (triple_forM P (own I))| |];
      simpl; auto.
    intros j. eapply triple_bind; [apply triple_get_conv|].
    intros st'. simpl.
    eapply triple_bind.
    { eapply triple_weaken;
        [apply (triple_set_child_slices P I _ _ _ _ J)| |].
      - intros kid. apply J_union. discriminate.
      - simpl. intros w [Hw _]. exact Hw.
      - simpl. intros ? w Hw. exact Hw. }
    intros ?. simpl. apply triple_return_not_ok, Hmc.
  - (* dense union *)
    eapply triple_bind; [apply triple_get_conv|].
    intros st. simpl.
    eapply triple_bind; [apply triple_emit, P_fill|].
    intros ?. simpl.
    eapply triple_bind.
    { eapply triple_weaken;
        [apply (triple_on_heap P (fun s => I (src s) (dst s)))| |];
        simpl; [intros w [Hw _]; exact Hw|intros ? w Hw; exact Hw]. }
    intros ?. simpl.
    eapply triple_bind with (R := fun _ _ => True).
    2: { intros [status|]; apply triple_ret; auto. }
    eapply triple_weaken; [apply (triple_forM P (own I))| |];
      simpl; auto.
    intros j. eapply triple_bind; [apply triple_get_conv|].
    intros st'. simpl.
    eapply triple_bind.
    { eapply triple_weaken;
        [apply (triple_set_child_slices P I _ _ _ _ J)| |].
      - intros kid. apply J_union. discriminate.
      - simpl. intros w [Hw _]. exact Hw.
      - simpl. intros ? w Hw. exact Hw. }
    intros ?. simpl. apply triple_return_not_ok, Hmc.
Qed.

End Nested.

End TripleRules.

(** ** The dispatcher *)

Section RConverter_induction.

Variable P : RConverter -> Prop.
Hypothesis P_node :
  forall vt ext av cs, Forall P cs -> P (mkRConverter vt ext av cs).

Fixpoint RConverter_nested_ind (c : RConverter) : P c :=
  match c with
  | mkRConverter vt ext av cs =>
      P_node vt ext av cs
        ((fix all (l : list RConverter) : Forall P l :=
            match l with
            | [] => @List.Forall_nil _ P
            | ch :: l' =>
                @List.Forall_cons _ P ch l' (RConverter_nested_ind ch)
                  (all l')
            end) cs)
  end.

End RConverter_induction.

Lemma fallback_calls_app t1 t2 :
  fallback_calls (t1 ++ t2) = (fallback_calls t1 + fallback_calls t2)%nat.
Proof.
  induction t1 as [|e t1 IH]; simpl; [reflexivity|].
  rewrite IH. destruct (is_fallback e); reflexivity.
Qed.

Lemma fallback_calls_none t :
  Forall (fun e => is_fallback e = false) t -> fallback_calls t = 0%nat.
Proof.
  induction 1 as [|e t He _ IH]; simpl; [reflexivity|].
  rewrite He. exact IH.
Qed.

Section Dispatch.

Context {H : Host}.

Lemma triple_other P c :
  (forall offset length p, P (Ev_fallback offset length p)) ->
  triple P (fun _ => True) (nanoarrow_materialize_other c) (fun _ _ => True).
Proof.
  intros HP w _.
  destruct (nanoarrow_materialize_other_run c w)
    as (offset & length & p & r & w' & -> & _).
  simpl. split; [repeat constructor; apply HP|auto].
Qed.

(** Apart from the cases that are the fallback itself, the first attempt
    does not call the fallback. *)
Lemma native_attempt_no_fallback c w :
  native_attempt c w = nanoarrow_materialize_other c w
  \/ Forall (fun e => is_fallback e = false) (native_attempt c w).2.
Proof.
  unfold native_attempt, nanoarrow_materialize_base.
  destruct (0 <? extension_name_size_bytes c); [left; reflexivity|].
  set (P := fun e => is_fallback e = false).
  destruct (vector_type c) eqn:Hvt; try (left; reflexivity); right;
    try (refine (proj1 (triple_call_scalar P (fun _ => True) _ c _ w I));
         reflexivity).
  - refine (proj1 (triple_list_of P _ _ _ _ _ c w I)); reflexivity.
  - refine (proj1 (triple_data_frame P _ c (fun _ _ => True) (fun _ => True)
                     _ _ _ _ w I)); try reflexivity; auto.
    intros k.
    apply triple_child_call with (P' := fun _ => True); [reflexivity|].
    apply Forall_forall. intros ch _. apply triple_trivial.
Qed.

Lemma nanoarrow_materialize_ok c w w1 t1 :
  native_attempt c w = (Ret NANOARROW_OK, w1, t1) ->
  nanoarrow_materialize c w = (Ret NANOARROW_OK, w1, t1).
Proof.
  intros Hbase. rewrite nanoarrow_materialize_eq.
  unfold nanoarrow_materialize_body. fold (native_attempt c).
  rewrite (bind_run _ _ _ _ _ _ Hbase). simpl.
  rewrite app_nil_r. reflexivity.
Qed.

Lemma nanoarrow_materialize_retry c w status w1 t1 :
  native_attempt c w = (Ret status, w1, t1) ->
  status <> NANOARROW_OK ->
  exists offset length p r w2,
    nanoarrow_materialize_other c w1 = (r, w2, [Ev_fallback offset length p])
    /\ nanoarrow_materialize c w
       = (r, w2, t1 ++ [Ev_fallback offset length p]).
Proof.
  intros Hbase Hstatus. rewrite nanoarrow_materialize_eq.
  unfold nanoarrow_materialize_body. fold (native_attempt c).
  rewrite (bind_run _ _ _ _ _ _ Hbase).
  destruct (Z.eqb_spec status NANOARROW_OK) as [|_]; [contradiction|].
  simpl.
  destruct (nanoarrow_materialize_other_run c w1)
    as (offset & length & p & r & w2 & Hother & _).
  exists offset, length, p, r, w2. rewrite Hother. auto.
Qed.

Lemma nanoarrow_materialize_failed c w r w1 t1 :
  native_attempt c w = (r, w1, t1) -> (forall status, r <> Ret status) ->
  nanoarrow_materialize c w = (r, w1, t1).
Proof.
  intros Hbase Hr. rewrite nanoarrow_materialize_eq.
  unfold nanoarrow_materialize_body. fold (native_attempt c).
  unfold bind. rewrite Hbase.
  destruct r as [status| |]; [destruct (Hr status eq_refl)| |]; reflexivity.
Qed.

Lemma nanoarrow_materialize_extension c w :
  0 < extension_name_size_bytes c ->
  nanoarrow_materialize c w = nanoarrow_materialize_other c w.
Proof.
  intros Hext.
  assert (Hbase : native_attempt c w = nanoarrow_materialize_other c w).
  { unfold native_attempt, nanoarrow_materialize_base.
    destruct (Z.ltb_spec 0 (extension_name_size_bytes c)); [reflexivity|lia]. }
  destruct (nanoarrow_materialize_other_run c w)
    as (offset & length & p & r & w' & Hother & Hok).
  rewrite Hother in *.
  destruct r as [status| |].
  - rewrite (Hok status eq_refl) in *.
    apply nanoarrow_materialize_ok. exact Hbase.
  - apply nanoarrow_materialize_failed; [exact Hbase|discriminate].
  - apply nanoarrow_materialize_failed; [exact Hbase|discriminate].
Qed.

Lemma nanoarrow_materialize_fallback_once c w :
  (fallback_calls (nanoarrow_materialize c w).2 <= 1)%nat.
Proof.
  destruct (native_attempt c w) as [[r w1] t1] eqn:Hbase.
  destruct (native_attempt_no_fallback c w) as [Hother|Hnone].
  - rewrite Hbase in Hother. symmetry in Hother.
    destruct (nanoarrow_materialize_other_run c w)
      as (offset & length & p & r' & w' & Hrun & Hok).
    rewrite Hrun in Hother. injection Hother as <- <- <-.
    destruct r' as [status| |].
    + rewrite (Hok status eq_refl) in Hbase.
      rewrite (nanoarrow_materialize_ok _ _ _ _ Hbase). simpl. lia.
    + rewrite (nanoarrow_materialize_failed _ _ _ _ _ Hbase) by discriminate.
      simpl. lia.
    + rewrite (nanoarrow_materialize_failed _ _ _ _ _ Hbase) by discriminate.
      simpl. lia.
  - rewrite Hbase in Hnone. simpl in Hnone.
    apply fallback_calls_none in Hnone.
    destruct r as [status| |].
    + destruct (Z.eq_dec status NANOARROW_OK) as [->|Hne].
      * rewrite (nanoarrow_materialize_ok _ _ _ _ Hbase). simpl. lia.
      * destruct (nanoarrow_materialize_retry _ _ _ _ _ Hbase Hne)
          as (offset & length & p & r' & w2 & _ & ->).
        simpl. rewrite fallback_calls_app, Hnone. simpl. lia.
    + rewrite (nanoarrow_materialize_failed _ _ _ _ _ Hbase) by discriminate.
      simpl. lia.
    + rewrite (nanoarrow_materialize_failed _ _ _ _ _ Hbase) by discriminate.
      simpl. lia.
Qed.

End Dispatch.

(** C1, as stated, fails: the integer materialiser answers [EINVAL] for a
    list storage, and the dispatcher retries through the fallback all the
    same; the conversion returns [NANOARROW_OK] with what the fallback
    produced. *)
Lemma fallback_on_einval_counterexample :
  native_attempt (H := Demo.host) Demo.int_of_list Demo.int_world
  = (Ret EINVAL, Demo.int_world,
     [Ev_native VECTOR_TYPE_INT (mkArrayViewSlice 0 2)
        (mkVectorSlice [] 0 2)])
  /\ nanoarrow_materialize (H := Demo.host) Demo.int_of_list Demo.int_world
     = (Ret NANOARROW_OK,
        mkWorld
          (mkConverterState (int_vec []) (mkArrayViewSlice 0 2)
             (mkVectorSlice [] 0 2) [])
          (int_vec [0; 0]),
        [Ev_native VECTOR_TYPE_INT (mkArrayViewSlice 0 2)
           (mkVectorSlice [] 0 2);
         Ev_fallback 0 2 (int_vec [])]).
Proof. split; reflexivity. Qed.

(** C1 (amended): with an extension name the dispatcher is the fallback
    bridge; otherwise it runs the materialiser selected by the vector
    type: when that returns [NANOARROW_OK] this is the result, and when it
    returns any other status (be it [ENOTSUP] or [EINVAL]) the fallback
    bridge runs once on the world the attempt left and its outcome is the
    result; an attempt that does not return is final. The node calls the
    fallback at most once. *)
Theorem nanoarrow_materialize_dispatch {H : Host} c w :
  (0 < extension_name_size_bytes c ->
   nanoarrow_materialize c w = nanoarrow_materialize_other c w)
  /\ (forall status w1 t1,
         native_attempt c w = (Ret status, w1, t1) ->
         (status = NANOARROW_OK ->
          nanoarrow_materialize c w = (Ret NANOARROW_OK, w1, t1))
         /\ (status <> NANOARROW_OK ->
             exists offset length p r w2,
               nanoarrow_materialize_other c w1
               = (r, w2, [Ev_fallback offset length p])
               /\ nanoarrow_materialize c w
                  = (r, w2, t1 ++ [Ev_fallback offset length p])))
  /\ (forall r w1 t1,
         native_attempt c w = (r, w1, t1) ->
         (forall status, r <> Ret status) ->
         nanoarrow_materialize c w = (r, w1, t1))
  /\ (fallback_calls (nanoarrow_materialize c w).2 <= 1)%nat.
Proof.
  split; [apply nanoarrow_materialize_extension|split; [|split]].
  - intros status w1 t1 Hbase. split.
    + intros ->. apply nanoarrow_materialize_ok, Hbase.
    + intros Hne. exact (nanoarrow_materialize_retry _ _ _ _ _ Hbase Hne).
  - intros r w1 t1 Hbase Hr.
    exact (nanoarrow_materialize_failed _ _ _ _ _ Hbase Hr).
  - apply nanoarrow_materialize_fallback_once.
Qed.

Lemma nanoarrow_materialize_dispatch_witness :
  nanoarrow_materialize (H := Demo.host) int_extension Demo.int_world
  = nanoarrow_materialize_other (H := Demo.host) int_extension Demo.int_world
  /\ exists offset length p r w2,
       nanoarrow_materialize_other (H := Demo.host) Demo.int_of_list
         Demo.int_world
       = (r, w2, [Ev_fallback offset length p])
       /\ nanoarrow_materialize (H := Demo.host) Demo.int_of_list
            Demo.int_world
          = (r, w2,
             [Ev_native VECTOR_TYPE_INT (mkArrayViewSlice 0 2)
                (mkVectorSlice [] 0 2)] ++ [Ev_fallback offset length p]).
Proof.
  split.
  - apply (proj1 (nanoarrow_materialize_dispatch (H := Demo.host)
                    int_extension Demo.int_world)).
    reflexivity.
  - apply (proj1 (proj2 (nanoarrow_materialize_dispatch (H := Demo.host)
                           Demo.int_of_list Demo.int_world))
             EINVAL Demo.int_world).
    + reflexivity.
    + discriminate.
Defined.


Section Lengths.

Context {H : Host}.



End Lengths.



(** ** Row loops *)

Section RowLoops.

Lemma forM_from_all (Inv : world -> Prop)
    (R : Z -> world -> world -> list event -> Prop) body :
  (forall i w w1 t1,
      Inv w -> body i w = (Ret None, w1, t1) -> R i w w1 t1 /\ Inv w1) ->
  forall k i w w' t,
    Inv w -> forM_from i k body w = (Ret None, w', t) ->
    steps R (seqZ i k) w w' t /\ Inv w'.
Proof.
  intros Hbody. induction k as [|k IH]; intros i w w' t Hinv; simpl.
  - unfold ret. intros [= <- <-]. split; [constructor|exact Hinv].
  - intros Hrun.
    apply bind_Ret_inv in Hrun as (o & w1 & t1 & t2 & Hrow & Hrest & ->).
    destruct o as [status|]; [discriminate Hrest|].
    destruct (Hbody i w w1 t1 Hinv Hrow) as [HR Hinv1].
    destruct (IH (i + 1) w1 w' t2 Hinv1 Hrest) as [Hsteps Hinv'].
    split; [econstructor; eassumption|exact Hinv'].
Qed.

(** A loop whose rows never return a status goes through all its rows
    whenever it returns. *)
Lemma forM_from_no_status (Inv : world -> Prop) body :
  (forall i w o w1 t1,
      Inv w -> body i w = (Ret o, w1, t1) -> o = None /\ Inv w1) ->
  forall k i w o w' t,
    Inv w -> forM_from i k body w = (Ret o, w', t) -> o = None.
Proof.
  intros Hbody. induction k as [|k IH]; intros i w o w' t Hinv; simpl.
  - unfold ret. intros [= <- _ _]. reflexivity.
  - intros Hrun.
    apply bind_Ret_inv in Hrun as (o1 & w1 & t1 & t2 & Hrow & Hrest & ->).
    destruct (Hbody i w o1 w1 t1 Hinv Hrow) as [-> Hinv1].
    exact (IH _ _ _ _ _ Hinv1 Hrest).
Qed.

Lemma on_child_Ret_inv {A} k (m : M A) w a w' t :
  on_child k m w = (Ret a, w', t) ->
  exists kid wk,
    0 <= k /\ kids (conv w) !! Z.to_nat k = Some kid
    /\ m (mkWorld kid (heap w)) = (Ret a, wk, t)
    /\ w' = mkWorld
              (mkConverterState (ptype (conv w)) (src (conv w))
                 (dst (conv w)) (<[Z.to_nat k := conv wk]> (kids (conv w))))
              (heap wk).
Proof.
  unfold on_child.
  destruct (Z.leb_spec 0 k) as [Hk|Hk]; [|discriminate].
  destruct (kids (conv w) !! Z.to_nat k) as [kid|] eqn:Hlook;
    [|discriminate].
  destruct (m (mkWorld kid (heap w))) as [[r wk] tk] eqn:Hm.
  intros [= -> <- <-]. exists kid, wk. auto.
Qed.

Lemma set_child_slices_Ret_inv k s d_offset d_length w u w' t :
  set_child_slices k s d_offset d_length w = (Ret u, w', t) ->
  exists kid,
    0 <= k /\ kids (conv w) !! Z.to_nat k = Some kid
    /\ t = []
    /\ w' = mkWorld
              (mkConverterState (ptype (conv w)) (src (conv w))
                 (dst (conv w))
                 (<[Z.to_nat k := rebind s d_offset d_length kid]>
                    (kids (conv w))))
              (heap w).
Proof.
  unfold set_child_slices, bind, get_conv.
  destruct (Z.leb_spec 0 k) as [Hk|Hk]; [|discriminate].
  destruct (kids (conv w) !! Z.to_nat k) as [kid|] eqn:Hlook;
    [|discriminate].
  simpl. intros [= <- <-]. exists kid. auto.
Qed.

Lemma child_call_Ret_inv (f : RConverter -> M Z) cs k w status w' t :
  child_call f cs k w = (Ret status, w', t) ->
  exists ch kid wk inner,
    0 <= k /\ cs !! Z.to_nat k = Some ch
    /\ kids (conv w) !! Z.to_nat k = Some kid
    /\ f ch (mkWorld kid (heap w)) = (Ret status, wk, inner)
    /\ t = [Ev_child k (src kid) (dst kid) inner]
    /\ heap w' = heap wk
    /\ src (conv w') = src (conv w) /\ dst (conv w') = dst (conv w).
Proof.
  unfold child_call.
  destruct (if 0 <=? k then nth_child f cs (Z.to_nat k) else None)
    as [m|] eqn:Hnth; [|discriminate].
  destruct (0 <=? k); [|discriminate].
  apply nth_child_Some in Hnth as (ch & Hin & ->).
  unfold call_child.
  destruct (Z.leb_spec 0 k) as [Hk|Hk]; [|discriminate].
  destruct (kids (conv w) !! Z.to_nat k) as [kid|] eqn:Hlook;
    [|discriminate].
  destruct (on_child k (f ch) w) as [[r w1] t1] eqn:Hon.
  intros [= -> <- <-].
  apply on_child_Ret_inv in Hon as (kid' & wk & _ & Hlook' & Hrun & ->).
  rewrite Hlook in Hlook'. injection Hlook' as <-.
  exists ch, kid, wk, t1. simpl. auto 10.
Qed.

End RowLoops.

(** ** The union materialiser *)

Section Union.

Context {H : Host}.

Lemma union_body_inv c s d i w o w1 t1 :
  src (conv w) = s /\ dst (conv w) = d ->
  union_body c i w = (Ret o, w1, t1) ->
  o = None /\ union_row c s d i w w1 t1
  /\ (src (conv w1) = s /\ dst (conv w1) = d).
Proof.
  intros [Hs Hd] Hrun. unfold union_body in Hrun.
  apply bind_Ret_inv in Hrun as (st & w0 & t0 & t2 & Hget & Hrun & ->).
  unfold get_conv in Hget. injection Hget as <- <- <-.
  apply bind_Ret_inv in Hrun as (u & w2 & t3 & t4 & Hset & Hrun & ->).
  apply set_child_slices_Ret_inv in Hset as (kid & Hk & Hlook & -> & ->).
  unfold return_not_ok in Hrun.
  apply bind_Ret_inv in Hrun as (result & w3 & t5 & t6 & Hcall & Hrun & ->).
  apply child_call_Ret_inv in Hcall
    as (ch & kid' & wk & inner & _ & Hch & Hlook' & Hf & -> & Hheap
        & Hs3 & Hd3).
  simpl in Hlook', Hf, Hs3, Hd3.
  rewrite list_lookup_insert_eq in Hlook'
    by (eapply lookup_lt_Some; exact Hlook).
  injection Hlook' as <-.
  pose proof (nanoarrow_materialize_Ret _ _ _ _ _ Hf) as ->.
  simpl in Hrun. unfold ret in Hrun. injection Hrun as <- <- <-.
  rewrite Hs in *. rewrite Hd in *.
  split; [reflexivity|]. split; [|split; congruence].
  exists ch, kid, wk, inner. simpl.
  unfold rebind in Hf. simpl. auto 10.
Qed.

Lemma union_rows_run c w status w' t :
  vector_type c = VECTOR_TYPE_DATA_FRAME ->
  array_dictionary (array_view c) = false ->
  storage_type (array_view c) = NANOARROW_TYPE_DENSE_UNION
  \/ storage_type (array_view c) = NANOARROW_TYPE_SPARSE_UNION ->
  nanoarrow_materialize_data_frame
    (child_call nanoarrow_materialize (children c)) c w
  = (Ret status, w', t) ->
  status = NANOARROW_OK
  /\ exists heap1 rows,
       in_place (vec_sexp (dst (conv w)))
         (fun x => fill_vec_with_nulls x (dst_offset (dst (conv w)))
                     (dst_length (dst (conv w)))) (heap w)
       = (Ret (), heap1)
       /\ t = Ev_fill (vec_sexp (dst (conv w))) (dst_offset (dst (conv w)))
                (dst_length (dst (conv w))) :: rows
       /\ steps (union_row c (src (conv w)) (dst (conv w)))
            (seqZ 0 (Z.to_nat (dst_length (dst (conv w)))))
            (mkWorld (conv w) heap1) w' rows
       /\ src (conv w') = src (conv w) /\ dst (conv w') = dst (conv w).
Proof.
  intros Hvt Hdict Hst Hrun.
  assert (Hunion :
    (let* st := get_conv in
     let* _ :=
       emit (Ev_fill (vec_sexp (dst st)) (dst_offset (dst st))
               (dst_length (dst st))) in
     let* _ :=
       on_heap (vec_sexp (dst st))
         (fun x => fill_vec_with_nulls x (dst_offset (dst st))
                     (dst_length (dst st))) in
     let* r := forM (dst_length (dst st)) (union_body c) in
     match r with
     | Some status => ret status
     | None => ret NANOARROW_OK
     end) w = (Ret status, w', t)).
  { unfold nanoarrow_materialize_data_frame in Hrun.
    rewrite Hvt, Hdict in Hrun. simpl in Hrun.
    destruct Hst as [Hst|Hst]; rewrite Hst in Hrun; exact Hrun. }
  clear Hrun.
  apply bind_Ret_inv in Hunion as (st & w0 & t0 & t1 & Hget & Hrun & ->).
  unfold get_conv in Hget. injection Hget as <- <- <-.
  apply bind_Ret_inv in Hrun as ([] & w1 & t2 & t3 & Hemit & Hrun & ->).
  unfold emit in Hemit. injection Hemit as <- <-.
  apply bind_Ret_inv in Hrun as ([] & w2 & t4 & t5 & Hfill & Hrun & ->).
  unfold on_heap in Hfill.
  destruct (in_place _ _ (heap w)) as [r1 heap1] eqn:Hin.
  simpl in Hfill. injection Hfill as -> <- <-.
  apply bind_Ret_inv in Hrun as (o & w3 & t6 & t7 & Hloop & Hrun & ->).
  unfold forM in Hloop.
  set (s := src (conv w)) in *. set (d := dst (conv w)) in *.
  set (Inv := fun w0 : world => src (conv w0) = s /\ dst (conv w0) = d).
  assert (Hinv : Inv (mkWorld (conv w) heap1)) by (split; reflexivity).
  assert (Ho : o = None).
  { refine (forM_from_no_status Inv (union_body c) _ _ _ _ _ _ _ Hinv Hloop).
    intros i wa oa wb tb Ha Hbody.
    destruct (union_body_inv c s d i wa oa wb tb Ha Hbody) as (-> & _ & Hb).
    split; [reflexivity|exact Hb]. }
  subst o. unfold ret in Hrun. injection Hrun as <- <- <-.
  destruct (forM_from_all Inv (union_row c s d) (union_body c)) with
    (k := Z.to_nat (dst_length d)) (i := 0) (w := mkWorld (conv w) heap1)
    (w' := w3) (t := t6) as [Hsteps [Hs' Hd']]; [|exact Hinv|exact Hloop|].
  { intros i wa wb tb Ha Hbody.
    destruct (union_body_inv c s d i wa None wb tb Ha Hbody) as (_ & Hr & Hb).
    split; assumption. }
  split; [reflexivity|]. exists heap1, t6.
  rewrite app_nil_r. simpl. auto.
Qed.

Lemma union_fill_first c w r w' t :
  vector_type c = VECTOR_TYPE_DATA_FRAME ->
  array_dictionary (array_view c) = false ->
  storage_type (array_view c) = NANOARROW_TYPE_DENSE_UNION
  \/ storage_type (array_view c) = NANOARROW_TYPE_SPARSE_UNION ->
  nanoarrow_materialize_data_frame
    (child_call nanoarrow_materialize (children c)) c w
  = (r, w', t) ->
  exists rest,
    t = Ev_fill (vec_sexp (dst (conv w))) (dst_offset (dst (conv w)))
          (dst_length (dst (conv w))) :: rest.
Proof.
  intros Hvt Hdict Hst Hrun.
  unfold nanoarrow_materialize_data_frame in Hrun.
  rewrite Hvt, Hdict in Hrun. simpl in Hrun.
  assert (Hshape : forall K : ConverterState -> M Z,
    (let* st := get_conv in
     let* _ :=
       emit (Ev_fill (vec_sexp (dst st)) (dst_offset (dst st))
               (dst_length (dst st))) in
     K st) w = (r, w', t) ->
    exists rest,
      t = Ev_fill (vec_sexp (dst (conv w))) (dst_offset (dst (conv w)))
            (dst_length (dst (conv w))) :: rest).
  { intros K HK.
    eapply bind_run_inv in HK as (t2 & HK & ->); [|reflexivity].
    eapply bind_run_inv in HK as (t3 & HK & ->); [|reflexivity].
    simpl. eauto. }
  destruct Hst as [Hst|Hst]; rewrite Hst in Hrun;
    exact (Hshape _ Hrun).
Qed.

End Union.

(** C2: a sparse union over one raw column, converted into rows 1 and
    2 of a destination of three rows that holds the bytes [7, 8, 9]. The
    union materialiser returns [NANOARROW_OK], and what it is seen to do
    starts with the pre-fill of the window [(1, 2)]; the scalar
    materialiser of the column, a parameter, writes nothing here, so that
    the bytes on return are those the pre-fill left: [0, 0, 9]. The
    window has not been null-filled: byte 2 is as it was, and byte 0,
    outside the window, has been zeroed. *)
Theorem union_prefill_misses_raw_window :
  exists w' rows,
    nanoarrow_materialize (H := Demo.host) union_over_raw raw_union_world
    = (Ret NANOARROW_OK, w', Ev_fill [] 1 2 :: rows)
    /\ heap raw_union_world = data_frame [("a", raw_vec [7; 8; 9])] 3
    /\ heap w' = data_frame [("a", raw_vec [0; 0; 9])] 3.
Proof. eexists _, _. vm_compute. repeat split. Qed.

(** ** The list materialiser *)

Section ListOf.

Context {H : Host}.

Lemma call_protocol_Ret_inv {A} e (f : world -> outcome A * world) w a w' t :
  call_protocol e f w = (Ret a, w', t) -> f w = (Ret a, w') /\ t = [e].
Proof.
  unfold call_protocol. destruct (f w) as [r w1]. simpl.
  intros [= -> -> <-]. auto.
Qed.

Lemma materialize_list_element_inv converter offset length w w' t :
  materialize_list_element converter offset length w
  = (Ret NANOARROW_OK, w', t) ->
  exists vec,
    t = [Ev_reserve length;
         Ev_materialize_n (mkArrayViewSlice offset length)
           (mkVectorSlice vec 0 length) length;
         Ev_finalize].
Proof.
  unfold materialize_list_element. intros Hrun.
  apply bind_Ret_inv in Hrun as (status & w1 & t1 & t2 & Hres & Hrun & ->).
  apply call_protocol_Ret_inv in Hres as [_ ->].
  apply bind_Ret_inv in Hrun as ([] & w2 & t3 & t4 & Hstop & Hrun & ->).
  destruct (negb (status =? NANOARROW_OK)); [discriminate Hstop|].
  unfold ret in Hstop. injection Hstop as <- <-.
  apply bind_Ret_inv in Hrun as (st & w3 & t5 & t6 & Hget & Hrun & ->).
  unfold get_conv in Hget. injection Hget as <- <- <-.
  apply bind_Ret_inv in Hrun as ([] & w4 & t7 & t8 & Hput & Hrun & ->).
  unfold put_conv in Hput. injection Hput as <- <-.
  apply bind_Ret_inv in Hrun as (st' & w5 & t9 & t10 & Hget & Hrun & ->).
  unfold get_conv in Hget. injection Hget as <- <- <-.
  apply bind_Ret_inv in Hrun as (n & w6 & t11 & t12 & Hn & Hrun & ->).
  apply call_protocol_Ret_inv in Hn as [_ ->].
  exists (vec_sexp (dst (conv w1))). simpl.
  destruct (negb (n =? length)); [discriminate Hrun|].
  apply bind_Ret_inv in Hrun as (status' & w7 & t13 & t14 & Hfin & Hrun & ->).
  apply call_protocol_Ret_inv in Hfin as [_ ->].
  assert (Ht : t14 = []).
  { destruct (negb (status' =? NANOARROW_OK)); unfold ret in Hrun;
      congruence. }
  rewrite Ht. reflexivity.
Qed.

Lemma list_row_inv child d i offset length w o w1 t1 :
  list_row child d i offset length w = (Ret o, w1, t1) ->
  (exists status, o = Some status /\ status <> NANOARROW_OK)
  \/ (o = None
      /\ exists kid vec we value wr,
           kids (conv w) !! 0%nat = Some kid
           /\ materialize_list_element child offset length
                (mkWorld kid (heap w))
              = (Ret NANOARROW_OK, we,
                 [Ev_reserve length;
                  Ev_materialize_n (mkArrayViewSlice offset length)
                    (mkVectorSlice vec 0 length) length;
                  Ev_finalize])
           /\ nanoarrow_converter_release_result child we = (Ret value, wr)
           /\ t1 = element_events vec offset length (vec_sexp d)
                     (dst_offset d + i) value
           /\ in_place (vec_sexp d)
                (SET_VECTOR_ELT (dst_offset d + i) value) (heap wr)
              = (Ret (), heap w1)
           /\ kids (conv w1) = <[0%nat := conv wr]> (kids (conv w))
           /\ src (conv w1) = src (conv w) /\ dst (conv w1) = dst (conv w)).
Proof.
  unfold list_row. intros Hrun.
  apply bind_Ret_inv in Hrun as (status & wa & ta & tb & Helt & Hrun & ->).
  destruct (Z.eqb_spec status NANOARROW_OK) as [->|Hne]; simpl in Hrun.
  2: { unfold ret in Hrun. injection Hrun as <- _ _. left. eauto. }
  right.
  apply on_child_Ret_inv in Helt as (kid & wk & _ & Hkid & Helt & ->).
  pose proof (materialize_list_element_inv _ _ _ _ _ _ Helt) as [vec Hta].
  subst ta.
  apply bind_Ret_inv in Hrun as (value & wb & tc & td & Hrel & Hrun & ->).
  apply on_child_Ret_inv in Hrel as (kid' & wk' & _ & Hkid' & Hrel & ->).
  simpl in Hkid', Hrel.
  rewrite list_lookup_insert_eq in Hkid'
    by (eapply lookup_lt_Some; exact Hkid).
  injection Hkid' as <-.
  apply call_protocol_Ret_inv in Hrel as [Hrel ->].
  replace (mkWorld (conv wk) (heap wk)) with wk in Hrel
    by (destruct wk; reflexivity).
  apply bind_Ret_inv in Hrun as ([] & wc & te & tf & Hemit & Hrun & ->).
  unfold emit in Hemit. injection Hemit as <- <-.
  apply bind_Ret_inv in Hrun as ([] & wd & tg & th & Hstore & Hrun & ->).
  unfold on_heap in Hstore. simpl in Hstore.
  destruct (in_place _ _ (heap wk')) as [rs heap'] eqn:Hin.
  simpl in Hstore. injection Hstore as -> <- <-.
  unfold ret in Hrun. injection Hrun as <- <- <-.
  split; [reflexivity|].
  exists kid, vec, wk, value, wk'. simpl. rewrite Hin.
  rewrite list_insert_insert_eq. auto 10.
Qed.

End ListOf.

Section ListOfRows.

Context {H : Host}.


Lemma leave_Ret_inv {A} (r : outcome A) w a w' t :
  leave r w = (Ret a, w', t) -> r = Ret a /\ w' = w /\ t = [].
Proof. unfold leave. intros [= -> <- <-]. auto. Qed.

Lemma list_row_ok c child s d i offset length w o w1 t1 :
  children c !! 0%nat = Some child ->
  ArrowArrayViewIsNull (array_view c) (src_offset s + i) = false ->
  element_range (array_view c)
    (array_offset (array_view c) + src_offset s) i offset length ->
  src (conv w) = s /\ dst (conv w) = d ->
  list_row child d i offset length w = (Ret o, w1, t1) ->
  match o with
  | Some status => status <> NANOARROW_OK
  | None =>
      list_row_spec c s d i w w1 t1
      /\ (src (conv w1) = s /\ dst (conv w1) = d)
  end.
Proof.
  intros Hch Hnull Hrange [Hs Hd] Hrun.
  apply list_row_inv in Hrun
    as [(status & -> & Hne)
       |(-> & kid & vec & we & value & wr & Hkid & Helt & Hrel & -> & Hin
         & Hkids & Hs1 & Hd1)];
    [exact Hne|].
  rewrite Hs in Hs1. rewrite Hd in Hd1.
  split; [|auto]. unfold list_row_spec. rewrite Hnull.
  exists child, kid, offset, length, vec, we, value, wr. auto 10.
Qed.

Lemma list_body_int32 c child s d :
  children c !! 0%nat = Some child ->
  storage_type (array_view c) = NANOARROW_TYPE_LIST ->
  list_body_ok c s d (fun i =>
    if negb (ArrowArrayViewIsNull (array_view c) (src_offset s + i)) then
      let* offset :=
        leave (load (as_int32 (array_view c))
                 (array_offset (array_view c) + src_offset s + i)) in
      let* next :=
        leave (load (as_int32 (array_view c))
                 (array_offset (array_view c) + src_offset s + i + 1)) in
      let length := next - offset in
      list_row child d i offset length
    else ret None).
Proof.
  intros Hch Hst i w o w1 t1 Hinv Hrun.
  destruct (ArrowArrayViewIsNull (array_view c) (src_offset s + i)) eqn:Hnull;
    simpl in Hrun.
  { unfold ret in Hrun. injection Hrun as <- <- <-.
    split; [|exact Hinv]. unfold list_row_spec. rewrite Hnull. auto. }
  apply bind_Ret_inv in Hrun as (offset & wa & ta & tb & Hoff & Hrun & ->).
  apply leave_Ret_inv in Hoff as (Hoff & -> & ->).
  apply bind_Ret_inv in Hrun as (next & wb & tc & td & Hnext & Hrun & ->).
  apply leave_Ret_inv in Hnext as (Hnext & -> & ->).
  simpl.
  apply (list_row_ok c child s d i offset (next - offset) w o w1 td Hch
           Hnull);
    [|exact Hinv|exact Hrun].
  unfold element_range. rewrite Hst. eauto.
Qed.

Lemma list_body_int64 c child s d :
  children c !! 0%nat = Some child ->
  storage_type (array_view c) = NANOARROW_TYPE_LARGE_LIST ->
  list_body_ok c s d (fun i =>
    if negb (ArrowArrayViewIsNull (array_view c) (src_offset s + i)) then
      let* offset :=
        leave (load (as_int64 (array_view c))
                 (array_offset (array_view c) + src_offset s + i)) in
      let* next :=
        leave (load (as_int64 (array_view c))
                 (array_offset (array_view c) + src_offset s + i + 1)) in
      let length := next - offset in
      list_row child d i offset length
    else ret None).
Proof.
  intros Hch Hst i w o w1 t1 Hinv Hrun.
  destruct (ArrowArrayViewIsNull (array_view c) (src_offset s + i)) eqn:Hnull;
    simpl in Hrun.
  { unfold ret in Hrun. injection Hrun as <- <- <-.
    split; [|exact Hinv]. unfold list_row_spec. rewrite Hnull. auto. }
  apply bind_Ret_inv in Hrun as (offset & wa & ta & tb & Hoff & Hrun & ->).
  apply leave_Ret_inv in Hoff as (Hoff & -> & ->).
  apply bind_Ret_inv in Hrun as (next & wb & tc & td & Hnext & Hrun & ->).
  apply leave_Ret_inv in Hnext as (Hnext & -> & ->).
  simpl.
  apply (list_row_ok c child s d i offset (next - offset) w o w1 td Hch
           Hnull);
    [|exact Hinv|exact Hrun].
  unfold element_range. rewrite Hst. eauto.
Qed.

Lemma list_body_fixed c child s d :
  children c !! 0%nat = Some child ->
  storage_type (array_view c) = NANOARROW_TYPE_FIXED_SIZE_LIST ->
  list_body_ok c s d (fun i =>
    if negb (ArrowArrayViewIsNull (array_view c) (src_offset s + i)) then
      let offset :=
        (array_offset (array_view c) + src_offset s + i)
        * child_size_elements (array_view c) in
      list_row child d i offset (child_size_elements (array_view c))
    else ret None).
Proof.
  intros Hch Hst i w o w1 t1 Hinv Hrun.
  destruct (ArrowArrayViewIsNull (array_view c) (src_offset s + i)) eqn:Hnull;
    simpl in Hrun.
  { unfold ret in Hrun. injection Hrun as <- <- <-.
    split; [|exact Hinv]. unfold list_row_spec. rewrite Hnull. auto. }
  refine (list_row_ok c child s d i _ _ w o w1 t1 Hch Hnull _ Hinv Hrun).
  unfold element_range. rewrite Hst. auto.
Qed.


End ListOfRows.



(** ** Runs *)

(** A dense union with type ids [0, 1, 0] and offsets [0, 0, 1]: after
    the pre-fill, row 0 and row 2 go to child 0 and row 1 to child 1. *)
Example union_rows_010 :
  (nanoarrow_materialize (H := Demo.host) Demo.union_of_two
     Demo.union_world).2
  = [Ev_fill [] 0 3;
     Ev_child 0 (mkArrayViewSlice 0 1) (mkVectorSlice [0%nat] 0 1)
       [Ev_native VECTOR_TYPE_INT (mkArrayViewSlice 0 1)
          (mkVectorSlice [0%nat] 0 1)];
     Ev_child 1 (mkArrayViewSlice 0 1) (mkVectorSlice [1%nat] 1 1)
       [Ev_native VECTOR_TYPE_INT (mkArrayViewSlice 0 1)
          (mkVectorSlice [1%nat] 1 1)];
     Ev_child 0 (mkArrayViewSlice 1 1) (mkVectorSlice [0%nat] 2 1)
       [Ev_native VECTOR_TYPE_INT (mkArrayViewSlice 1 1)
          (mkVectorSlice [0%nat] 2 1)]].
Proof. reflexivity. Qed.

(** A list with offsets [0, 2, 2, 5]: the element converter is asked for
    2, 0 and 3 elements. *)
Example list_rows_0225 :
  (nanoarrow_materialize_list_of (H := Demo.host) Demo.list_of_int
     Demo.list_world).2
  = element_events [] 0 2 [] 0 (Robj [] (Generic []))
    ++ element_events [] 2 0 [] 1 (Robj [] (Generic []))
    ++ element_events [] 2 3 [] 2 (Robj [] (Generic [])).
Proof. reflexivity. Qed.

(** The same list with its second row null: nothing is asked for that
    row and its slot is left as it was. *)
Example list_rows_null :
  nanoarrow_materialize_list_of (H := Demo.host) Demo.list_with_null
    Demo.list_world
  = (Ret NANOARROW_OK,
     mkWorld
       (Demo.state [] 0 3
          [mkConverterState R_NilValue (mkArrayViewSlice 2 3)
             (mkVectorSlice [] 0 3) []])
       (Robj []
          (Generic [Robj [] (Generic []); R_NilValue; Robj [] (Generic [])])),
     element_events [] 0 2 [] 0 (Robj [] (Generic []))
     ++ element_events [] 2 3 [] 2 (Robj [] (Generic []))).
Proof. reflexivity. Qed.

(** A fallback result of the wrong length: requested 5, returned 3. The
    copy raises an R error and the destination is as it was. *)
Example copy_wrong_length :
  copy_vec_into (int_vec [1; 2; 3]) (int_vec [0; 0; 0; 0; 0]) 0 5
  = (Rf_error "Unexpected length of result in copy_vec_into()",
     int_vec [0; 0; 0; 0; 0]).
Proof. reflexivity. Qed.

(** * Further properties *)

(** The attributes of a vector written out are as R keeps them. *)
Ltac attrib_wf_by_cases :=
  split;
  [simpl;
   repeat (apply NoDup_cons; split;
           [rewrite ?elem_of_cons, elem_of_nil; intros Hin;
            repeat (destruct Hin as [Hin|Hin]; try discriminate Hin);
            contradiction|]);
   apply NoDup_nil; exact I
  |intros t v Hin; simpl in Hin;
   rewrite ?elem_of_cons, elem_of_nil in Hin;
   repeat (destruct Hin as [Hin|Hin];
           [injection Hin as _ ->; discriminate|]);
   contradiction].

(** ** Default ptypes *)

Section DefaultPtype.

Lemma isObject_bare x : ATTRIB x = [] -> Rf_isObject x = false.
Proof. unfold Rf_isObject. intros ->. reflexivity. Qed.

Lemma realloc_unclassed ptype n :
  Rf_isObject ptype = false ->
  nanoarrow_materialize_realloc ptype n = Rf_allocVector (TYPEOF ptype) n.
Proof.
  intros Hobj. rewrite nanoarrow_materialize_realloc_eq, Hobj. reflexivity.
Qed.

End DefaultPtype.

(** X1: for a length that is not negative [nanoarrow_alloc_type] always
    returns: a vector of the requested length without attributes, logical,
    integer, double or character for the four scalar shapes, and [NULL]
    for every other shape. Allocating a container from this default ptype
    is allocating the default for the new length. *)
Theorem nanoarrow_alloc_type_ptype vt n :
  0 <= n ->
  exists p,
    nanoarrow_alloc_type vt n = Ret p
    /\ TYPEOF p = sexptype_of vt
    /\ ATTRIB p = []
    /\ (p <> R_NilValue -> Rf_xlength p = n)
    /\ forall m, 0 <= m ->
         nanoarrow_materialize_realloc p m = nanoarrow_alloc_type vt m.
Proof.
  intros Hn.
  assert (Hscalar : forall type,
    type <> NILSXP ->
    exists p, Rf_allocVector type n = Ret p /\ TYPEOF p = type
              /\ ATTRIB p = [] /\ (p <> R_NilValue -> Rf_xlength p = n)
              /\ forall m, nanoarrow_materialize_realloc p m
                           = Rf_allocVector type m).
  { intros type Hty.
    destruct (Rf_allocVector_ok type n Hn) as (p & Hp & Htp & Hat & Hlen).
    exists p. repeat split; auto.
    intros m. rewrite realloc_unclassed by (apply isObject_bare, Hat).
    rewrite Htp. reflexivity. }
  assert (Hnull : exists p : SEXP,
    Ret R_NilValue = Ret p /\ TYPEOF p = NILSXP /\ ATTRIB p = []
    /\ (p <> R_NilValue -> Rf_xlength p = n)
    /\ forall m, 0 <= m -> nanoarrow_materialize_realloc p m = Ret R_NilValue).
  { exists R_NilValue. repeat split; [congruence|].
    intros m Hm. rewrite realloc_unclassed by reflexivity.
    unfold Rf_allocVector. destruct (Z.ltb_spec m 0); [lia|reflexivity]. }
  destruct vt; simpl; try exact Hnull;
    match goal with
    | |- context [Rf_allocVector ?type n] =>
        destruct (Hscalar type ltac:(discriminate))
          as (p & Hp & Htp & Hat & Hlen & Hre)
    end;
    exists p; repeat split; auto.
Qed.

Lemma nanoarrow_alloc_type_ptype_witness :
  exists p,
    nanoarrow_alloc_type VECTOR_TYPE_CHR 0 = Ret p
    /\ TYPEOF p = sexptype_of VECTOR_TYPE_CHR
    /\ ATTRIB p = []
    /\ (p <> R_NilValue -> Rf_xlength p = 0)
    /\ forall m, 0 <= m ->
         nanoarrow_materialize_realloc p m
         = nanoarrow_alloc_type VECTOR_TYPE_CHR m.
Proof. apply (nanoarrow_alloc_type_ptype VECTOR_TYPE_CHR 0). lia. Defined.

(** ** Attributes *)

Section Attributes.

Lemma has_attrib_safe_assq x sym :
  has_attrib_safe x sym = true <-> exists v, assq sym (ATTRIB x) = Some v.
Proof.
  unfold has_attrib_safe. induction (ATTRIB x) as [|[t v] a IH]; simpl.
  - split; [discriminate|intros [v [=]]].
  - destruct (String.eqb t sym); simpl; [|exact IH].
    split; eauto.
Qed.

Lemma has_attrib_safe_None x sym :
  has_attrib_safe x sym = false <-> assq sym (ATTRIB x) = None.
Proof.
  pose proof (has_attrib_safe_assq x sym) as Hiff.
  destruct (has_attrib_safe x sym).
  - split; [discriminate|]. intros Hnone.
    destruct (proj1 Hiff eq_refl) as [v Hv]. congruence.
  - split; [|reflexivity]. intros _.
    destruct (assq sym (ATTRIB x)) as [v|] eqn:Hv; [|reflexivity].
    assert (false = true) by (apply Hiff; eauto). discriminate.
Qed.

Lemma assq_elem_of sym a v : assq sym a = Some v -> (sym, v) ∈ a.
Proof.
  induction a as [|[t u] a IH]; simpl; [discriminate|].
  destruct (String.eqb_spec t sym) as [->|_].
  - intros [= ->]. left.
  - intros Hv. right. exact (IH Hv).
Qed.

Lemma assq_removeAttrib_eq name a : assq name (removeAttrib name a) = None.
Proof.
  induction a as [|[t v] a IH]; simpl; [reflexivity|].
  destruct (String.eqb_spec t name) as [->|Hne]; [exact IH|].
  simpl. destruct (String.eqb_spec t name); [contradiction|exact IH].
Qed.

Lemma assq_removeAttrib_ne name name' a :
  name <> name' -> assq name' (removeAttrib name a) = assq name' a.
Proof.
  intros Hne. induction a as [|[t v] a IH]; simpl; [reflexivity|].
  destruct (String.eqb_spec t name) as [->|Hne'].
  - destruct (String.eqb_spec name name'); [contradiction|exact IH].
  - simpl. rewrite IH. reflexivity.
Qed.

Lemma installAttrib_twice name v1 v2 a :
  installAttrib name v2 (installAttrib name v1 a) = installAttrib name v2 a.
Proof.
  induction a as [|[t v] a IH]; simpl.
  - rewrite String.eqb_refl. reflexivity.
  - destruct (String.eqb_spec t name) as [->|Hne]; simpl.
    + rewrite String.eqb_refl. reflexivity.
    + destruct (String.eqb_spec t name); [contradiction|].
      rewrite IH. reflexivity.
Qed.

Lemma getAttrib_not_NULL x sym v :
  assq sym (ATTRIB x) = Some v -> v <> R_NilValue ->
  Rf_getAttrib x sym <> R_NilValue.
Proof.
  intros Hv Hnn. unfold Rf_getAttrib. rewrite Hv.
  destruct (String.eqb sym R_RowNamesSymbol); [|exact Hnn].
  destruct v as [|a d]; [exact Hnn|].
  destruct d as [| [|first [|n [|]]] | | | | | |]; try discriminate.
  destruct (first =? NA_INTEGER); discriminate.
Qed.

End Attributes.

(** ** Row names and row counts *)

Section RowNames.

Lemma set_rownames_Robj a d n :
  nanoarrow_set_rownames (Robj a d) n
  = Robj (installAttrib R_RowNamesSymbol
            (if n <=? INT_MAX then Robj [] (Integer [NA_INTEGER; - n])
             else as_character_seq_len n) a) d.
Proof.
  unfold nanoarrow_set_rownames. destruct (n <=? INT_MAX); reflexivity.
Qed.

Lemma getAttrib_set_rownames a d n :
  0 <= n ->
  Rf_getAttrib (nanoarrow_set_rownames (Robj a d) n) R_RowNamesSymbol
  = row_labels n.
Proof.
  intros Hn. rewrite set_rownames_Robj. unfold Rf_getAttrib, row_labels.
  simpl ATTRIB. rewrite assq_installAttrib_eq.
  destruct (n <=? INT_MAX); [|reflexivity].
  simpl. replace (Z.abs_nat (- n)) with (Z.to_nat n) by lia. reflexivity.
Qed.

Lemma Rf_xlength_row_labels n : 0 <= n -> Rf_xlength (row_labels n) = n.
Proof.
  intros Hn. unfold row_labels.
  destruct (n <=? INT_MAX); simpl; unfold len;
    rewrite ?length_map, length_seqZ; lia.
Qed.

Lemma Rf_xlength_set_rownames x n :
  Rf_xlength (nanoarrow_set_rownames x n) = Rf_xlength x.
Proof.
  destruct x as [|a d].
  - unfold nanoarrow_set_rownames. destruct (n <=? INT_MAX); reflexivity.
  - rewrite set_rownames_Robj. reflexivity.
Qed.

Lemma data_frame_size_set_rownames x n :
  0 < Rf_length x ->
  nanoarrow_data_frame_size (nanoarrow_set_rownames x n)
  = Rf_xlength (VECTOR_ELT x 0).
Proof.
  intros Hlen. unfold nanoarrow_data_frame_size, Rf_length in *.
  rewrite Rf_xlength_set_rownames.
  destruct (Z.ltb_spec 0 (Rf_xlength x)); [|lia].
  unfold VECTOR_ELT. rewrite elements_set_rownames. reflexivity.
Qed.

End RowNames.

(** X3: [nanoarrow_set_rownames] on a vector changes the row names and
    nothing else. Read back with [Rf_getAttrib], the row names of [n >= 0]
    rows are the labels [1 .. n] (integers when [n] fits in an [int],
    strings otherwise); the data and every other attribute are as before;
    row names set earlier are replaced, so that setting them twice is
    setting them once. *)
Theorem nanoarrow_set_rownames_only a d n :
  0 <= n ->
  Rf_getAttrib (nanoarrow_set_rownames (Robj a d) n) R_RowNamesSymbol
  = row_labels n
  /\ has_attrib_safe (nanoarrow_set_rownames (Robj a d) n) R_RowNamesSymbol
     = true
  /\ (exists a', nanoarrow_set_rownames (Robj a d) n = Robj a' d)
  /\ (forall name,
         name <> R_RowNamesSymbol ->
         assq name (ATTRIB (nanoarrow_set_rownames (Robj a d) n))
         = assq name a)
  /\ (forall m,
         nanoarrow_set_rownames (nanoarrow_set_rownames (Robj a d) n) m
         = nanoarrow_set_rownames (Robj a d) m).
Proof.
  intros Hn. split; [exact (getAttrib_set_rownames a d n Hn)|].
  rewrite !set_rownames_Robj. repeat split.
  - apply has_attrib_safe_assq. simpl ATTRIB.
    rewrite assq_installAttrib_eq. eauto.
  - eauto.
  - intros name Hne. simpl ATTRIB. apply assq_installAttrib_ne.
    congruence.
  - intros m. rewrite !set_rownames_Robj, installAttrib_twice. reflexivity.
Qed.

Lemma nanoarrow_set_rownames_only_witness :
  Rf_getAttrib (nanoarrow_set_rownames (Robj [] (Generic [])) 3)
    R_RowNamesSymbol
  = row_labels 3
  /\ has_attrib_safe (nanoarrow_set_rownames (Robj [] (Generic [])) 3)
       R_RowNamesSymbol
     = true
  /\ (exists a',
         nanoarrow_set_rownames (Robj [] (Generic [])) 3
         = Robj a' (Generic []))
  /\ (forall name,
         name <> R_RowNamesSymbol ->
         assq name (ATTRIB (nanoarrow_set_rownames (Robj [] (Generic [])) 3))
         = assq name [])
  /\ (forall m,
         nanoarrow_set_rownames
           (nanoarrow_set_rownames (Robj [] (Generic [])) 3) m
         = nanoarrow_set_rownames (Robj [] (Generic [])) m).
Proof. apply (nanoarrow_set_rownames_only [] (Generic []) 3). lia. Defined.

(** X4: the row count [nanoarrow_data_frame_size] reports. Without
    columns it is read from the row names: after
    [nanoarrow_set_rownames(x, n)] it is [n], for the compact and for the
    character form alike, and without row names it is 0. With at least
    one column it is the length of the first column, whatever the row
    names say. *)
Theorem nanoarrow_data_frame_size_rows :
  (forall a d n,
      payload_length d = 0 -> 0 <= n ->
      nanoarrow_data_frame_size (nanoarrow_set_rownames (Robj a d) n) = n)
  /\ (forall x,
         Rf_length x = 0 -> has_attrib_safe x R_RowNamesSymbol = false ->
         nanoarrow_data_frame_size x = 0)
  /\ (forall x n,
         0 < Rf_length x ->
         nanoarrow_data_frame_size (nanoarrow_set_rownames x n)
         = Rf_xlength (VECTOR_ELT x 0)).
Proof.
  split; [|split].
  - intros a d n Hd Hn. unfold nanoarrow_data_frame_size, Rf_length.
    rewrite Rf_xlength_set_rownames. simpl Rf_xlength. rewrite Hd. simpl.
    rewrite getAttrib_set_rownames by exact Hn.
    apply Rf_xlength_row_labels, Hn.
  - intros x Hlen Hhas. unfold nanoarrow_data_frame_size. rewrite Hlen.
    simpl. apply has_attrib_safe_None in Hhas.
    unfold Rf_getAttrib. rewrite Hhas. reflexivity.
  - exact data_frame_size_set_rownames.
Qed.

Lemma nanoarrow_data_frame_size_rows_witness :
  nanoarrow_data_frame_size
    (nanoarrow_set_rownames (Robj [] (Generic [])) 4294967296)
  = 4294967296
  /\ nanoarrow_data_frame_size (Robj [class_attr ["rcrd"]] (Generic [])) = 0
  /\ nanoarrow_data_frame_size
       (nanoarrow_set_rownames (data_frame [("a", int_vec [1; 2])] 2) 7)
     = Rf_xlength (VECTOR_ELT (data_frame [("a", int_vec [1; 2])] 2) 0).
Proof.
  destruct nanoarrow_data_frame_size_rows as (Ha & Hb & Hc).
  split; [|split].
  - apply Ha; [reflexivity|lia].
  - apply Hb; reflexivity.
  - apply Hc. unfold Rf_length. simpl. unfold len. simpl. lia.
Defined.

(** ** Allocation of record-style containers *)

Section AllocatedRecords.

Lemma Rf_allocVector_Ret type n v :
  Rf_allocVector type n = Ret v ->
  0 <= n /\ TYPEOF v = type /\ ATTRIB v = []
  /\ (type <> NILSXP -> Rf_xlength v = n).
Proof.
  intros Hv. destruct (Z.ltb_spec n 0) as [Hneg|Hn].
  - unfold Rf_allocVector in Hv.
    destruct (Z.ltb_spec n 0); [discriminate|lia].
  - destruct (Rf_allocVector_ok type n Hn) as (v' & Hv' & Hrest).
    rewrite Hv in Hv'. injection Hv' as <-. split; [exact Hn|exact Hrest].
Qed.

(** A vector that is not record-style is allocated to the requested
    length. *)
Lemma realloc_vector_length ptype n r :
  nanoarrow_ptype_is_data_frame ptype = false -> ptype <> R_NilValue ->
  nanoarrow_materialize_realloc ptype n = Ret r -> Rf_xlength r = n.
Proof.
  intros Hdf Hnil. rewrite nanoarrow_materialize_realloc_eq, Hdf.
  assert (Hty : TYPEOF ptype <> NILSXP).
  { destruct ptype as [|a d]; [contradiction|]. destruct d; discriminate. }
  destruct (Rf_isObject ptype).
  - destruct (factor_guard ptype) as [[]| |]; simpl; try discriminate.
    destruct (Rf_allocVector (TYPEOF ptype) n) as [v| |] eqn:Hv; simpl;
      try discriminate.
    intros [= <-]. rewrite Rf_xlength_copyMostAttrib.
    apply Rf_allocVector_Ret in Hv as (_ & _ & _ & Hlen). exact (Hlen Hty).
  - intros Hv. apply Rf_allocVector_Ret in Hv as (_ & _ & _ & Hlen).
    exact (Hlen Hty).
Qed.

Lemma getAttrib_class x :
  Rf_getAttrib x R_ClassSymbol
  = default R_NilValue (assq R_ClassSymbol (ATTRIB x)).
Proof.
  unfold Rf_getAttrib. destruct (assq R_ClassSymbol (ATTRIB x)); reflexivity.
Qed.

Lemma getAttrib_names x :
  Rf_getAttrib x R_NamesSymbol
  = default R_NilValue (assq R_NamesSymbol (ATTRIB x)).
Proof.
  unfold Rf_getAttrib. destruct (assq R_NamesSymbol (ATTRIB x)); reflexivity.
Qed.

Lemma inherits_congr x y cls :
  assq R_ClassSymbol (ATTRIB x) = assq R_ClassSymbol (ATTRIB y) ->
  Rf_inherits x cls = Rf_inherits y cls.
Proof.
  intros Hcls. unfold Rf_inherits, Rf_isObject.
  rewrite !getAttrib_class, Hcls. reflexivity.
Qed.

Lemma has_attrib_safe_congr x y sym :
  assq sym (ATTRIB x) = assq sym (ATTRIB y) ->
  has_attrib_safe x sym = has_attrib_safe y sym.
Proof.
  intros Heq.
  destruct (has_attrib_safe y sym) eqn:Hy.
  - apply has_attrib_safe_assq. apply has_attrib_safe_assq in Hy.
    rewrite Heq. exact Hy.
  - apply has_attrib_safe_None. apply has_attrib_safe_None in Hy.
    rewrite Heq. exact Hy.
Qed.

(** Whether a vector is record-style is decided by its class, its type,
    its length and the presence of names. *)
Lemma is_data_frame_congr x y :
  assq R_ClassSymbol (ATTRIB x) = assq R_ClassSymbol (ATTRIB y) ->
  TYPEOF x = TYPEOF y -> Rf_xlength x = Rf_xlength y ->
  has_attrib_safe x R_NamesSymbol = has_attrib_safe y R_NamesSymbol ->
  nanoarrow_ptype_is_data_frame x = nanoarrow_ptype_is_data_frame y.
Proof.
  intros Hcls Hty Hlen Hnames. unfold nanoarrow_ptype_is_data_frame.
  rewrite (inherits_congr x y _ Hcls), Hty, Hlen, Hnames.
  unfold Rf_isObject. rewrite Hcls. reflexivity.
Qed.

Lemma assq_copy_most_notin t l acc :
  t ∉ l.*1 ->
  assq t (fold_left (fun acc tv =>
                       if most_attrib tv.1 then installAttrib tv.1 tv.2 acc
                       else acc) l acc)
  = assq t acc.
Proof.
  revert acc. induction l as [|[t0 v0] l IH]; intros acc; simpl;
    [reflexivity|].
  rewrite not_elem_of_cons. intros [Hne Hnin]. rewrite IH by exact Hnin.
  destruct (most_attrib t0); [|reflexivity].
  apply assq_installAttrib_ne. congruence.
Qed.

(** [Rf_copyMostAttrib] hands over the value of every attribute it
    copies. *)
Lemma assq_copy_most t l acc :
  most_attrib t = true -> NoDup l.*1 -> assq t acc = None ->
  assq t (fold_left (fun acc tv =>
                       if most_attrib tv.1 then installAttrib tv.1 tv.2 acc
                       else acc) l acc)
  = assq t l.
Proof.
  intros Hmost. revert acc. induction l as [|[t0 v0] l IH]; intros acc Hnd Hacc;
    simpl; [exact Hacc|].
  simpl in Hnd. apply NoDup_cons in Hnd as [Hnin Hnd].
  destruct (String.eqb_spec t0 t) as [->|Hne].
  - rewrite Hmost, assq_copy_most_notin by exact Hnin.
    apply assq_installAttrib_eq.
  - apply IH; [exact Hnd|].
    destruct (most_attrib t0); [|exact Hacc].
    rewrite assq_installAttrib_ne by exact Hne. exact Hacc.
Qed.

Lemma assq_set_rownames_ne x n name :
  name <> R_RowNamesSymbol ->
  assq name (ATTRIB (nanoarrow_set_rownames x n)) = assq name (ATTRIB x).
Proof.
  intros Hne. destruct x as [|a d].
  - unfold nanoarrow_set_rownames. destruct (n <=? INT_MAX); reflexivity.
  - rewrite set_rownames_Robj. simpl ATTRIB.
    apply assq_installAttrib_ne. congruence.
Qed.

Lemma TYPEOF_set_rownames x n : TYPEOF (nanoarrow_set_rownames x n) = TYPEOF x.
Proof.
  destruct x as [|a d].
  - unfold nanoarrow_set_rownames. destruct (n <=? INT_MAX); reflexivity.
  - rewrite set_rownames_Robj. reflexivity.
Qed.

(** The container allocated for a record-style ptype, from its
    columns. *)
Lemma realloc_record_form ptype n r :
  nanoarrow_ptype_is_data_frame ptype = true ->
  nanoarrow_materialize_realloc ptype n = Ret r ->
  exists cs,
    Forall2 (fun col c => nanoarrow_materialize_realloc col n = Ret c)
            (elements ptype) cs
    /\ r = (if Rf_inherits ptype "data.frame"
            then fun x => nanoarrow_set_rownames x n else fun x => x)
             (Rf_copyMostAttrib ptype
                (Rf_setAttrib (Robj [] (Generic cs)) R_NamesSymbol
                   (Rf_getAttrib ptype R_NamesSymbol))).
Proof.
  intros Hdf Hr. rewrite nanoarrow_materialize_realloc_eq in Hr.
  assert (Hobj : Rf_isObject ptype = true).
  { unfold nanoarrow_ptype_is_data_frame in Hdf.
    apply andb_true_iff in Hdf as [Hdf _].
    apply andb_true_iff in Hdf as [Hdf _]. exact Hdf. }
  rewrite Hobj, Hdf in Hr.
  destruct (factor_guard ptype) as [[]| |]; try discriminate Hr.
  destruct (Rf_allocVector VECSXP (Rf_xlength ptype)) as [v| |] eqn:Hv;
    try discriminate Hr.
  destruct (alloc_columns (elements ptype) n) as [cs| |] eqn:Hcs;
    try discriminate Hr.
  apply Rf_allocVector_Ret in Hv as (_ & Hty & Hat & _).
  destruct v as [|a d]; [discriminate|]. simpl in Hat. subst a.
  destruct d; try discriminate. cbn [mbind outcome_bind with_elements] in Hr.
  exists cs. split; [apply alloc_columns_Ret, Hcs|].
  destruct (Rf_inherits ptype "data.frame"); congruence.
Qed.

Lemma assq_names_setAttrib d val :
  assq R_NamesSymbol
    (ATTRIB (Rf_setAttrib (Robj [] d) R_NamesSymbol val))
  = match val with
    | R_NilValue => None
    | _ => Some val
    end.
Proof. destruct val; reflexivity. Qed.

Lemma assq_class_setAttrib_names d val :
  assq R_ClassSymbol
    (ATTRIB (Rf_setAttrib (Robj [] d) R_NamesSymbol val)) = None.
Proof. destruct val; reflexivity. Qed.

Lemma realloc_record_attrib ptype n r :
  attrib_wf ptype ->
  nanoarrow_ptype_is_data_frame ptype = true ->
  nanoarrow_materialize_realloc ptype n = Ret r ->
  TYPEOF r = VECSXP
  /\ Rf_xlength r = Rf_xlength ptype
  /\ assq R_ClassSymbol (ATTRIB r) = assq R_ClassSymbol (ATTRIB ptype)
  /\ has_attrib_safe r R_NamesSymbol = has_attrib_safe ptype R_NamesSymbol.
Proof.
  intros [Hnd Hval] Hdf Hr.
  destruct (realloc_record_form ptype n r Hdf Hr) as (cs & Hcs & ->).
  destruct (setAttrib_names_Robj (Generic cs)
              (Rf_getAttrib ptype R_NamesSymbol)) as [a1 Ha1].
  pose proof (assq_names_setAttrib (Generic cs)
                (Rf_getAttrib ptype R_NamesSymbol)) as Hnames1.
  pose proof (assq_class_setAttrib_names (Generic cs)
                (Rf_getAttrib ptype R_NamesSymbol)) as Hclass1.
  rewrite Ha1 in *. simpl ATTRIB in Hnames1, Hclass1.
  set (r2 := Rf_copyMostAttrib ptype (Robj a1 (Generic cs))).
  assert (Hty2 : TYPEOF r2 = VECSXP) by reflexivity.
  assert (Hlen2 : Rf_xlength r2 = Rf_xlength ptype).
  { apply is_data_frame_generic in Hdf as (a & cols & ->).
    simpl in *. unfold len. rewrite (Forall2_length _ _ _ Hcs). reflexivity. }
  assert (Hclass2 :
    assq R_ClassSymbol (ATTRIB r2) = assq R_ClassSymbol (ATTRIB ptype)).
  { subst r2. simpl ATTRIB. apply assq_copy_most; auto. }
  assert (Hnames2 :
    has_attrib_safe r2 R_NamesSymbol = has_attrib_safe ptype R_NamesSymbol).
  { destruct (has_attrib_safe ptype R_NamesSymbol) eqn:Hp.
    - apply has_attrib_safe_assq in Hp as [v Hv].
      assert (Hnn : v <> R_NilValue)
        by (apply (Hval R_NamesSymbol), assq_elem_of, Hv).
      apply has_attrib_safe_assq. subst r2. simpl ATTRIB.
      rewrite assq_names_copy_most, Hnames1, getAttrib_names, Hv. simpl.
      destruct v; [contradiction|eauto].
    - apply has_attrib_safe_None in Hp.
      apply has_attrib_safe_None. subst r2. simpl ATTRIB.
      rewrite assq_names_copy_most, Hnames1, getAttrib_names, Hp.
      reflexivity. }
  destruct (Rf_inherits ptype "data.frame"); [|auto].
  rewrite TYPEOF_set_rownames, Rf_xlength_set_rownames.
  rewrite assq_set_rownames_ne by discriminate.
  rewrite (has_attrib_safe_congr (nanoarrow_set_rownames r2 n) r2)
    by (apply assq_set_rownames_ne; discriminate).
  auto.
Qed.

Lemma realloc_keeps_record_style ptype n r :
  attrib_wf ptype ->
  nanoarrow_materialize_realloc ptype n = Ret r ->
  nanoarrow_ptype_is_data_frame r = nanoarrow_ptype_is_data_frame ptype.
Proof.
  intros Hwf Hr.
  destruct (nanoarrow_ptype_is_data_frame ptype) eqn:Hdf.
  - destruct (realloc_record_attrib ptype n r Hwf Hdf Hr)
      as (Hty & Hlen & Hcls & Hnames).
    rewrite <- Hdf. apply is_data_frame_congr; auto.
    apply is_data_frame_generic in Hdf as (a & cols & ->). exact Hty.
  - destruct Hwf as [Hnd _].
    rewrite nanoarrow_materialize_realloc_eq, Hdf in Hr.
    destruct (Rf_isObject ptype) eqn:Hobj.
    + destruct (factor_guard ptype) as [[]| |]; simpl in Hr; try discriminate.
      destruct (Rf_allocVector (TYPEOF ptype) n) as [v| |] eqn:Hv;
        simpl in Hr; try discriminate.
      injection Hr as <-.
      apply Rf_allocVector_Ret in Hv as (_ & Hty & Hat & _).
      destruct v as [|a d]; [destruct ptype as [|? []]; discriminate|].
      simpl in Hat. subst a.
      set (r := Rf_copyMostAttrib ptype (Robj [] d)).
      assert (Hcls :
        assq R_ClassSymbol (ATTRIB r) = assq R_ClassSymbol (ATTRIB ptype)).
      { subst r. simpl ATTRIB. apply assq_copy_most; auto. }
      assert (Hnames : has_attrib_safe r R_NamesSymbol = false).
      { apply has_attrib_safe_None. subst r. simpl ATTRIB.
        apply assq_names_copy_most. }
      unfold nanoarrow_ptype_is_data_frame in *.
      rewrite (inherits_congr r ptype _ Hcls), Hnames, andb_false_r.
      rewrite orb_false_r.
      replace (TYPEOF r) with (TYPEOF ptype) by (symmetry; exact Hty).
      unfold Rf_isObject in *. rewrite Hcls.
      destruct (assq R_ClassSymbol (ATTRIB ptype)); [|discriminate].
      simpl in *. destruct (SEXPTYPE_eqb (TYPEOF ptype) VECSXP);
        [|reflexivity].
      simpl in *. apply orb_false_iff in Hdf as [Hinh _]. exact Hinh.
    + apply Rf_allocVector_Ret in Hr as (_ & _ & Hat & _).
      unfold nanoarrow_ptype_is_data_frame.
      rewrite (isObject_bare r Hat). reflexivity.
Qed.

Lemma realloc_record_rows ptype n r :
  nanoarrow_ptype_is_data_frame ptype = true ->
  match elements ptype with
  | [] => True
  | col :: _ =>
      nanoarrow_ptype_is_data_frame col = false /\ col <> R_NilValue
  end ->
  0 <= n ->
  nanoarrow_materialize_realloc ptype n = Ret r ->
  nanoarrow_data_frame_size r = n.
Proof.
  intros Hdf Hcol Hn Hr.
  destruct (realloc_record_form ptype n r Hdf Hr) as (cs & Hcs & Hform).
  destruct (setAttrib_names_Robj (Generic cs)
              (Rf_getAttrib ptype R_NamesSymbol)) as [a1 Ha1].
  rewrite Ha1 in Hform.
  destruct (copyMostAttrib_Robj ptype a1 (Generic cs)) as [a2 Ha2].
  rewrite Ha2 in Hform.
  destruct (elements ptype) as [|col cols] eqn:Hel.
  - inversion Hcs; subst cs.
    assert (Hinh : Rf_inherits ptype "data.frame" = true).
    { destruct (is_data_frame_generic _ Hdf) as (a & l & Hp).
      unfold nanoarrow_ptype_is_data_frame in Hdf.
      apply andb_true_iff in Hdf as [_ Hdf].
      apply orb_true_iff in Hdf as [Hinh|Hlen]; [exact Hinh|].
      apply andb_true_iff in Hlen as [Hlen _].
      subst ptype. simpl in Hel. subst l. discriminate Hlen. }
    rewrite Hinh in Hform. subst r.
    unfold nanoarrow_data_frame_size, Rf_length.
    rewrite Rf_xlength_set_rownames. simpl.
    rewrite getAttrib_set_rownames by exact Hn.
    apply Rf_xlength_row_labels, Hn.
  - inversion Hcs as [|? c0 ? cs0 Hc0 Hrest]; subst cs.
    destruct Hcol as [Hplain Hnn].
    pose proof (realloc_vector_length col n c0 Hplain Hnn Hc0) as Hlen0.
    assert (Hsize :
      nanoarrow_data_frame_size (Robj a2 (Generic (c0 :: cs0))) = n).
    { unfold nanoarrow_data_frame_size, Rf_length. simpl.
      unfold len. simpl length.
      destruct (Z.ltb_spec 0 (Z.of_nat (S (length cs0)))); [|lia].
      exact Hlen0. }
    destruct (Rf_inherits ptype "data.frame"); subst r; [|exact Hsize].
    rewrite data_frame_size_set_rownames.
    + exact Hlen0.
    + unfold Rf_length. simpl. unfold len. simpl length. lia.
Qed.

End AllocatedRecords.

(** X5: on a ptype whose attributes are as R keeps them, the container
    [nanoarrow_materialize_realloc] returns is record-style exactly when
    the ptype is. For a record-style ptype it has as many columns as the
    ptype, and [nanoarrow_data_frame_size] reports the requested number of
    rows for it, when the ptype has no column or its first column is a
    vector that is not itself record-style. *)
Theorem nanoarrow_materialize_realloc_record ptype n r :
  attrib_wf ptype ->
  nanoarrow_materialize_realloc ptype n = Ret r ->
  nanoarrow_ptype_is_data_frame r = nanoarrow_ptype_is_data_frame ptype
  /\ (nanoarrow_ptype_is_data_frame ptype = true ->
      Rf_xlength r = Rf_xlength ptype
      /\ (match elements ptype with
          | [] => True
          | col :: _ =>
              nanoarrow_ptype_is_data_frame col = false
              /\ col <> R_NilValue
          end ->
          0 <= n -> nanoarrow_data_frame_size r = n)).
Proof.
  intros Hwf Hr. split; [exact (realloc_keeps_record_style _ _ _ Hwf Hr)|].
  intros Hdf. split.
  - exact (proj1 (proj2 (realloc_record_attrib _ _ _ Hwf Hdf Hr))).
  - intros Hcol Hn. exact (realloc_record_rows _ _ _ Hdf Hcol Hn Hr).
Qed.

Lemma nanoarrow_materialize_realloc_record_witness :
  nanoarrow_ptype_is_data_frame
    (data_frame [("a", int_vec [0; 0; 0]); ("b", chr_vec [""; ""; ""])] 3)
  = nanoarrow_ptype_is_data_frame two_column_ptype
  /\ (nanoarrow_ptype_is_data_frame two_column_ptype = true ->
      Rf_xlength
        (data_frame [("a", int_vec [0; 0; 0]); ("b", chr_vec [""; ""; ""])] 3)
      = Rf_xlength two_column_ptype
      /\ (match elements two_column_ptype with
          | [] => True
          | col :: _ =>
              nanoarrow_ptype_is_data_frame col = false
              /\ col <> R_NilValue
          end ->
          0 <= 3 ->
          nanoarrow_data_frame_size
            (data_frame
               [("a", int_vec [0; 0; 0]); ("b", chr_vec [""; ""; ""])] 3)
          = 3)).
Proof.
  apply (nanoarrow_materialize_realloc_record two_column_ptype 3).
  - attrib_wf_by_cases.
  - reflexivity.
Defined.

(** ** When allocation returns *)

Section AllocationReturns.

Lemma realloc_Ret_no_empty_factor ptype n r :
  nanoarrow_materialize_realloc ptype n = Ret r ->
  is_empty_factor ptype = false.
Proof.
  intros Hr. destruct (is_empty_factor ptype) eqn:Hfac; [|reflexivity].
  rewrite nanoarrow_materialize_realloc_eq in Hr.
  assert (Hobj : Rf_isObject ptype = true).
  { apply andb_true_iff in Hfac as [Hinh _].
    exact (inherits_isObject _ _ Hinh). }
  rewrite Hobj, (factor_guard_empty _ Hfac) in Hr. discriminate Hr.
Qed.

Lemma realloc_leaf_returns ptype n :
  0 <= n -> nanoarrow_ptype_is_data_frame ptype = false ->
  is_empty_factor ptype = false ->
  exists r, nanoarrow_materialize_realloc ptype n = Ret r.
Proof.
  intros Hn Hdf Hfac.
  rewrite nanoarrow_materialize_realloc_eq, Hdf,
    (factor_guard_pass _ Hfac).
  destruct (Rf_allocVector_ok (TYPEOF ptype) n Hn) as (v & -> & _).
  destruct (Rf_isObject ptype); simpl; eauto.
Qed.

Lemma Forall_exists_Forall2 {A B} (R : A -> B -> Prop) l :
  Forall (fun a => exists b, R a b) l -> exists k, Forall2 R l k.
Proof.
  induction 1 as [|a l [b Hb] _ [k Hk]].
  - exists []. constructor.
  - exists (b :: k). constructor; assumption.
Qed.

Lemma Rf_allocVector_defined type n : Rf_allocVector type n <> Undefined.
Proof.
  unfold Rf_allocVector. destruct (n <? 0); [discriminate|].
  destruct type; discriminate.
Qed.

Lemma factor_guard_defined ptype : factor_guard ptype <> Undefined.
Proof.
  destruct (is_empty_factor ptype) eqn:Hfac.
  - rewrite (factor_guard_empty _ Hfac). discriminate.
  - rewrite (factor_guard_pass _ Hfac). discriminate.
Qed.

Lemma alloc_columns_defined cols n :
  Forall (fun col => nanoarrow_materialize_realloc col n <> Undefined) cols ->
  alloc_columns cols n <> Undefined.
Proof.
  induction 1 as [|col cols Hcol _ IH]; simpl; [discriminate|].
  destruct (nanoarrow_materialize_realloc col n); simpl;
    [|discriminate|congruence].
  destruct (alloc_columns cols n); simpl; [discriminate..|congruence].
Qed.

Lemma realloc_defined_from_columns ptype n :
  alloc_columns (elements ptype) n <> Undefined ->
  nanoarrow_materialize_realloc ptype n <> Undefined.
Proof.
  intros Hc. rewrite nanoarrow_materialize_realloc_eq.
  destruct (Rf_isObject ptype); [|apply Rf_allocVector_defined].
  pose proof (factor_guard_defined ptype) as Hg.
  destruct (factor_guard ptype); simpl; [|discriminate|congruence].
  destruct (nanoarrow_ptype_is_data_frame ptype).
  - pose proof (Rf_allocVector_defined VECSXP (Rf_xlength ptype)) as Ha.
    destruct (Rf_allocVector VECSXP _); simpl; [|discriminate|congruence].
    destruct (alloc_columns _ _); simpl; [|discriminate|congruence].
    destruct (Rf_inherits _ _); discriminate.
  - pose proof (Rf_allocVector_defined (TYPEOF ptype) n) as Ha.
    destruct (Rf_allocVector _ n); simpl; [discriminate|discriminate|congruence].
Qed.

Lemma realloc_defined ptype n :
  nanoarrow_materialize_realloc ptype n <> Undefined.
Proof.
  induction ptype as [|a cols IH|a d Hd] using SEXP_cols_ind;
    apply realloc_defined_from_columns.
  - discriminate.
  - apply alloc_columns_defined, IH.
  - destruct d; try discriminate. exfalso. exact (Hd _ eq_refl).
Qed.

End AllocationReturns.

(** X6: for a length that is not negative,
    [nanoarrow_materialize_realloc] returns exactly when no factor
    without levels occurs in the ptype, be it the ptype itself or a
    column at any depth of its records; in every other case it leaves
    through an R error. *)
Theorem nanoarrow_materialize_realloc_returns ptype n :
  0 <= n ->
  ((exists r, nanoarrow_materialize_realloc ptype n = Ret r)
   <-> no_empty_factor ptype)
  /\ ((exists msg, nanoarrow_materialize_realloc ptype n = Rf_error msg)
      <-> ~ no_empty_factor ptype).
Proof.
  intros Hn.
  assert (Hret : (exists r, nanoarrow_materialize_realloc ptype n = Ret r)
                 <-> no_empty_factor ptype).
  { assert (Hleaf : forall x,
      nanoarrow_ptype_is_data_frame x = false ->
      (exists r, nanoarrow_materialize_realloc x n = Ret r)
      <-> no_empty_factor x).
    { intros x Hdf. split.
      - intros [r Hr]. apply no_empty_factor_leaf; [exact Hdf|].
        exact (realloc_Ret_no_empty_factor _ _ _ Hr).
      - intros Hok.
        inversion Hok as [a cols Hdf' _ _|x0 _ Hfac]; subst; [congruence|].
        exact (realloc_leaf_returns _ _ Hn Hdf Hfac). }
    induction ptype as [|a cols IH|a d Hd] using SEXP_cols_ind.
    - apply Hleaf. reflexivity.
    - destruct (nanoarrow_ptype_is_data_frame (Robj a (Generic cols)))
        eqn:Hdf; [|apply Hleaf, Hdf].
      split.
      + intros [r Hr]. apply no_empty_factor_record; [exact Hdf| |].
        * exact (realloc_Ret_no_empty_factor _ _ _ Hr).
        * rewrite Forall_forall in *. intros col Hcol.
          apply (IH col Hcol).
          exact (realloc_data_frame_needs_cols _ n r Hdf Hr col Hcol).
      + intros Hok.
        inversion Hok as [a0 cols0 _ Hfac Hcols|x0 Hdf' _]; subst;
          [|congruence].
        destruct (Forall_exists_Forall2
                    (fun col c => nanoarrow_materialize_realloc col n = Ret c)
                    cols) as [cs Hcs].
        { rewrite Forall_forall in *. intros col Hcol.
          apply (IH col Hcol), Hcols, Hcol. }
        destruct (realloc_data_frame_cols _ n cs Hfac Hdf Hcs)
          as (r & Hr & _).
        eauto.
    - apply Hleaf. apply not_data_frame_by_type.
      destruct d; try discriminate. exfalso. exact (Hd _ eq_refl). }
  split; [exact Hret|].
  rewrite <- Hret.
  pose proof (realloc_defined ptype n) as Hdef.
  destruct (nanoarrow_materialize_realloc ptype n) as [r|msg|];
    [| |congruence].
  - split; [intros [msg [=]]|intros Hno; exfalso; eauto].
  - split; [intros _ [r [=]]|eauto].
Qed.

Lemma nanoarrow_materialize_realloc_returns_witness :
  ((exists r, nanoarrow_materialize_realloc df_with_empty_factor 2 = Ret r)
   <-> no_empty_factor df_with_empty_factor)
  /\ ((exists msg,
          nanoarrow_materialize_realloc df_with_empty_factor 2 = Rf_error msg)
      <-> ~ no_empty_factor df_with_empty_factor).
Proof. apply nanoarrow_materialize_realloc_returns. lia. Defined.

(** ** Allocated trees *)

Section AllocatedTrees.

Lemma realloc_vector_type ptype n r :
  nanoarrow_ptype_is_data_frame ptype = false ->
  nanoarrow_materialize_realloc ptype n = Ret r -> TYPEOF r = TYPEOF ptype.
Proof.
  intros Hdf. rewrite nanoarrow_materialize_realloc_eq, Hdf.
  destruct (Rf_isObject ptype).
  - destruct (factor_guard ptype) as [[]| |]; simpl; try discriminate.
    destruct (Rf_allocVector (TYPEOF ptype) n) as [v| |] eqn:Hv; simpl;
      try discriminate.
    intros [= <-]. rewrite TYPEOF_copyMostAttrib.
    apply Rf_allocVector_Ret in Hv as (_ & Hty & _). exact Hty.
  - intros Hv. apply Rf_allocVector_Ret in Hv as (_ & Hty & _). exact Hty.
Qed.

Lemma realloc_record_Robj ptype n r :
  nanoarrow_ptype_is_data_frame ptype = true ->
  nanoarrow_materialize_realloc ptype n = Ret r ->
  exists a' cs,
    r = Robj a' (Generic cs)
    /\ Forall2 (fun col c => nanoarrow_materialize_realloc col n = Ret c)
         (elements ptype) cs.
Proof.
  intros Hdf Hr.
  destruct (realloc_record_form ptype n r Hdf Hr) as (cs & Hcs & ->).
  destruct (setAttrib_names_Robj (Generic cs)
              (Rf_getAttrib ptype R_NamesSymbol)) as [a1 ->].
  destruct (copyMostAttrib_Robj ptype a1 (Generic cs)) as [a2 ->].
  destruct (Rf_inherits ptype "data.frame").
  - rewrite set_rownames_Robj. eauto.
  - eauto.
Qed.

Lemma realloc_allocated leaf ptype n r :
  ptype_tree leaf ptype ->
  nanoarrow_materialize_realloc ptype n = Ret r ->
  allocated n ptype r.
Proof.
  revert r.
  induction ptype as [|a cols IH|a d Hd] using SEXP_cols_ind;
    intros r Htree Hr.
  - inversion Htree.
  - inversion Htree as [a0 cols0 Hdf Hwf Hcols|a0 d0 Hdf Hwf Hleaf]; subst.
    + destruct (realloc_record_Robj _ n r Hdf Hr) as (a' & cs & -> & Hcs).
      apply allocated_record; [exact Hdf| |].
      * rewrite (realloc_keeps_record_style _ n _ Hwf Hr). exact Hdf.
      * simpl in Hcs. clear Hr Hdf Hwf Htree.
        induction Hcs as [|col c cols cs Hc Hcs IHcs]; [constructor|].
        apply Forall_cons in IH as [IHc IH].
        apply Forall_cons in Hcols as [Hcol Hcols].
        constructor; auto.
    + apply allocated_vector; [exact Hdf| | |].
      * rewrite (realloc_keeps_record_style _ n _ Hwf Hr). exact Hdf.
      * exact (realloc_vector_type _ n r Hdf Hr).
      * apply (realloc_vector_length _ n r Hdf); [discriminate|exact Hr].
  - inversion Htree as [a0 cols0 Hdf Hwf Hcols|a0 d0 Hdf Hwf Hleaf]; subst.
    { exfalso. exact (Hd _ eq_refl). }
    apply allocated_vector; [exact Hdf| | |].
    + rewrite (realloc_keeps_record_style _ n _ Hwf Hr). exact Hdf.
    + exact (realloc_vector_type _ n r Hdf Hr).
    + apply (realloc_vector_length _ n r Hdf); [discriminate|exact Hr].
Qed.

(** The windows of an allocated tree that can be filled. *)
Lemma allocated_fillable ptype n r offset k :
  ptype_tree sentinel_leaf ptype -> allocated n ptype r ->
  0 <= offset -> 0 <= k -> offset + k <= n ->
  fillable offset k r.
Proof.
  intros Htree Halloc Hoff Hk Hn. revert r Htree Halloc.
  induction ptype as [|a cols IH|a d Hd] using SEXP_cols_ind;
    intros r Htree Halloc.
  - inversion Htree.
  - inversion Htree as [a0 cols0 Hdf Hwf Hcols|a0 d0 Hdf Hwf Hleaf]; subst.
    + inversion Halloc as [a1 cols1 a' cols' _ Hdf' Hall|p1 r1 Hp _ _ _];
        subst; [|congruence].
      apply fillable_record; [exact Hdf'|].
      clear Htree Halloc Hdf Hdf' Hwf.
      induction Hall as [|col c cols cs Hc Hcs IHcs]; [constructor|].
      apply Forall_cons in IH as [IHc IH].
      apply Forall_cons in Hcols as [Hcol Hcols].
      constructor; auto.
    + inversion Halloc as [a1 cols1 a' cols' Hp _ _|p1 r1 _ Hdf' Hty Hlen];
        subst; [congruence|].
      destruct r as [|a' d']; [discriminate Hty|].
      destruct d'; try discriminate Hty.
      apply fillable_vector; auto.
  - inversion Htree as [a0 cols0 Hdf Hwf Hcols|a0 d0 Hdf Hwf [Hraw Hexpr]];
      subst.
    { exfalso. exact (Hd _ eq_refl). }
    inversion Halloc as [a1 cols1 a' cols' Hp _ _|p1 r1 _ Hdf' Hty Hlen];
      subst.
    { exfalso. exact (Hd _ eq_refl). }
    destruct r as [|a' d']; [destruct d; discriminate Hty|].
    simpl in Hn.
    apply fillable_vector; auto.
    destruct d', d; try discriminate Hty; try reflexivity;
      exfalso; auto.
Qed.

End AllocatedTrees.

(** X7: the container allocated for a ptype has the tree of the ptype.
    For a ptype made of records whose attributes are as R keeps them,
    over leaves that are vectors, the container is a record wherever the
    ptype is one, with the same number of columns, allocated column by
    column, and at every leaf a vector of the type of the leaf with the
    requested number of elements. *)
Theorem nanoarrow_materialize_realloc_tree ptype n r :
  ptype_tree (fun _ => True) ptype ->
  nanoarrow_materialize_realloc ptype n = Ret r ->
  allocated n ptype r.
Proof. apply realloc_allocated. Qed.

(** X8: a container just allocated can be pre-filled. When the leaves
    of the ptype are logical, integer, double, complex, character or list
    vectors, [fill_vec_with_nulls] returns on every window inside the
    [n] rows of the container allocated for it, and has set the window
    of every leaf to the null sentinel of its kind. *)
Theorem realloc_then_fill ptype n r offset k :
  ptype_tree sentinel_leaf ptype ->
  nanoarrow_materialize_realloc ptype n = Ret r ->
  0 <= offset -> 0 <= k -> offset + k <= n ->
  exists r',
    fill_vec_with_nulls r offset k = (Ret (), r')
    /\ null_filled offset k r r'.
Proof.
  intros Htree Hr Hoff Hk Hn.
  apply fill_vec_with_nulls_fillable.
  apply (allocated_fillable ptype n); auto.
  exact (realloc_allocated _ _ _ _ Htree Hr).
Qed.

Lemma nanoarrow_materialize_realloc_tree_witness :
  allocated 3 two_column_ptype
    (data_frame [("a", int_vec [0; 0; 0]); ("b", chr_vec [""; ""; ""])] 3).
Proof.
  apply (nanoarrow_materialize_realloc_tree two_column_ptype 3);
    [|reflexivity].
  apply ptype_tree_record; [reflexivity|attrib_wf_by_cases|].
  repeat (apply List.Forall_cons;
          [apply ptype_tree_leaf; [reflexivity|attrib_wf_by_cases|exact I]|]).
  apply List.Forall_nil.
Defined.

Lemma realloc_then_fill_witness :
  exists r',
    fill_vec_with_nulls
      (data_frame [("a", int_vec [0; 0; 0]); ("b", chr_vec [""; ""; ""])] 3)
      1 2
    = (Ret (), r')
    /\ null_filled 1 2
         (data_frame [("a", int_vec [0; 0; 0]); ("b", chr_vec [""; ""; ""])]
            3) r'.
Proof.
  apply (realloc_then_fill two_column_ptype 3); try lia; [|reflexivity].
  apply ptype_tree_record; [reflexivity|attrib_wf_by_cases|].
  repeat (apply List.Forall_cons;
          [apply ptype_tree_leaf;
           [reflexivity|attrib_wf_by_cases|split; discriminate]|]).
  apply List.Forall_nil.
Defined.

(** ** What the writes keep *)

Section Containers.

Lemma same_container_refl x : same_container x x.
Proof. repeat split. Qed.

Lemma for_from_length {A} (body : Z -> list A -> outcome () * list A) k i v :
  (forall j w, length (body j w).2 = length w) ->
  length (for_from i k body v).2 = length v.
Proof.
  intros Hbody. revert i v. induction k as [|k IH]; intros i v; simpl;
    [reflexivity|].
  specialize (Hbody i v).
  destruct (body i v) as [[[]| |] v1]; simpl in *; try exact Hbody.
  rewrite IH. exact Hbody.
Qed.

Lemma store_length {A} (v : list A) i a v' :
  store v i a = Some v' -> length v' = length v.
Proof.
  unfold store. destruct (_ && _); [|discriminate].
  intros [= <-]. apply length_insert.
Qed.

Lemma poke_length {A} i (a : A) v : length (poke i a v).2 = length v.
Proof.
  unfold poke. destruct (store v i a) as [v'|] eqn:Hs; simpl;
    [exact (store_length _ _ _ _ Hs)|reflexivity].
Qed.

Lemma set_elt_length {A} i (a : A) v : length (set_elt i a v).2 = length v.
Proof.
  unfold set_elt. destruct (store v i a) as [v'|] eqn:Hs; simpl;
    [exact (store_length _ _ _ _ Hs)|reflexivity].
Qed.

Lemma memset_length {A} (v : list A) a n : length (memset v a n).2 = length v.
Proof.
  unfold memset.
  destruct (Z.leb_spec 0 n); simpl; [|reflexivity].
  destruct (Z.leb_spec n (len v)); simpl; [|reflexivity].
  unfold len in *. rewrite length_app, length_replicate, length_drop. lia.
Qed.

Lemma memcpy_length {A} (d : list A) offset s n :
  length (memcpy d offset s n).2 = length d.
Proof.
  unfold memcpy.
  destruct (Z.leb_spec 0 offset); simpl; [|reflexivity].
  destruct (Z.leb_spec 0 n); simpl; [|reflexivity].
  destruct (Z.leb_spec (offset + n) (len d)); simpl; [|reflexivity].
  destruct (Z.leb_spec n (len s)); simpl; [|reflexivity].
  unfold len in *.
  rewrite !length_app, !length_take, length_drop. lia.
Qed.

Lemma for_loop_length {A} (body : Z -> list A -> outcome () * list A) n v :
  (forall j w, length (body j w).2 = length w) ->
  length (for_loop n body v).2 = length v.
Proof. apply for_from_length. Qed.

Lemma copy_elts_length {A} (d : A) s offset n v :
  length (copy_elts d s offset n v).2 = length v.
Proof.
  unfold copy_elts. apply for_loop_length. intros j w. apply set_elt_length.
Qed.

Lemma fill_columns_shape cols offset n :
  (forall c, same_container c (fill_vec_with_nulls c offset n).2) ->
  Forall2 same_container cols (fill_columns cols offset n).2.
Proof.
  intros Hfill. induction cols as [|c cols IH]; simpl; [constructor|].
  specialize (Hfill c).
  destruct (fill_vec_with_nulls c offset n) as [[[]| |] c']; simpl in *;
    constructor; auto; apply Forall2_same_length_lookup_2; auto;
    intros i x y Hx Hy; rewrite Hx in Hy; injection Hy as <-;
    apply same_container_refl.
Qed.

Lemma fill_vec_with_nulls_container x offset n :
  same_container x (fill_vec_with_nulls x offset n).2.
Proof.
  revert offset n.
  induction x as [|a cols IH|a d Hd] using SEXP_cols_ind; intros offset n.
  - apply same_container_refl.
  - rewrite fill_vec_with_nulls_eq.
    destruct (nanoarrow_ptype_is_data_frame (Robj a (Generic cols))).
    + simpl. repeat split. simpl. unfold len. f_equal.
      assert (Hall : Forall2 (fun _ _ : SEXP => True) cols
                       (fill_columns cols offset n).2).
      { clear IH. induction cols as [|c cols IHc]; simpl; [constructor|].
        destruct (fill_vec_with_nulls c offset n) as [[[]| |] c']; simpl;
          constructor; auto; apply Forall2_same_length_lookup_2; auto. }
      symmetry. exact (Forall2_length _ _ _ Hall).
    + simpl. repeat split. simpl. unfold len. f_equal.
      apply for_loop_length. intros j w. apply set_elt_length.
  - rewrite fill_vec_with_nulls_eq.
    rewrite not_data_frame_by_type
      by (destruct d; try discriminate; exfalso; exact (Hd _ eq_refl)).
    destruct d; try apply same_container_refl;
      try (exfalso; exact (Hd _ eq_refl));
      simpl; repeat split; simpl; unfold len; f_equal;
      try (apply for_loop_length; intros j w;
           apply poke_length || apply set_elt_length).
    apply memset_length.
Qed.

Lemma copy_columns_shape xs cols offset n :
  (forall x c, same_container c (copy_vec_into x c offset n).2) ->
  Forall2 same_container cols (copy_columns xs cols offset n).2.
Proof.
  intros Hcopy.
  assert (Hrefl : forall l : list SEXP, Forall2 same_container l l).
  { intros l. apply Forall2_same_length_lookup_2; auto.
    intros i x y Hx Hy. rewrite Hx in Hy. injection Hy as <-.
    apply same_container_refl. }
  revert cols. induction xs as [|x xs IH]; intros [|c cols]; simpl;
    try apply Hrefl.
  specialize (Hcopy x c).
  destruct (copy_vec_into x c offset n) as [[[]| |] c']; simpl in *;
    constructor; auto.
Qed.

Lemma copy_data_container x dst offset n :
  same_container dst (copy_data x dst offset n).2.
Proof.
  unfold copy_data.
  destruct dst as [|a d]; [apply same_container_refl|].
  destruct d, x as [|ax s]; try apply same_container_refl;
    destruct s; try apply same_container_refl;
    simpl; repeat split; simpl; unfold len; f_equal;
    apply memcpy_length || apply copy_elts_length.
Qed.

Lemma copy_vec_into_container x dst offset n :
  same_container dst (copy_vec_into x dst offset n).2.
Proof.
  rewrite copy_vec_into_eq.
  destruct (nanoarrow_ptype_is_data_frame dst) eqn:Hdf.
  - destruct (negb _); [apply same_container_refl|].
    destruct (negb _); [apply same_container_refl|].
    destruct (negb _); [apply same_container_refl|].
    apply is_data_frame_generic in Hdf as (a & cols & ->).
    simpl. repeat split. simpl. unfold len. f_equal.
    clear. generalize (elements x) as xs. revert cols.
    induction cols as [|c cols IH]; intros [|xi xs]; simpl; try reflexivity.
    destruct (copy_vec_into xi c offset n) as [[[]| |] c']; simpl;
      try reflexivity.
    rewrite IH. reflexivity.
  - destruct (nanoarrow_ptype_is_data_frame x); [apply same_container_refl|].
    destruct (negb _); [apply same_container_refl|].
    destruct (negb _); [apply same_container_refl|].
    apply copy_data_container.
Qed.

Lemma getAttrib_congr x y sym :
  ATTRIB x = ATTRIB y -> Rf_getAttrib x sym = Rf_getAttrib y sym.
Proof. unfold Rf_getAttrib. intros ->. reflexivity. Qed.

Lemma same_container_record_style x x' :
  same_container x x' ->
  nanoarrow_ptype_is_data_frame x' = nanoarrow_ptype_is_data_frame x.
Proof.
  intros (Hty & Hat & Hlen).
  apply is_data_frame_congr; auto; [rewrite Hat; reflexivity|].
  apply has_attrib_safe_congr. rewrite Hat. reflexivity.
Qed.

(** The row count of a record whose columns keep their lengths. *)
Lemma same_columns_size x x' :
  same_container x x' ->
  Forall2 same_container (elements x) (elements x') ->
  nanoarrow_data_frame_size x' = nanoarrow_data_frame_size x.
Proof.
  intros (Hty & Hat & Hlen) Hcols. unfold nanoarrow_data_frame_size, Rf_length.
  rewrite Hlen, (getAttrib_congr x' x _ Hat).
  destruct (0 <? Rf_xlength x); [|reflexivity].
  unfold VECTOR_ELT.
  destruct Hcols as [|c c' cols cols' (_ & _ & Hc) _]; [reflexivity|].
  exact Hc.
Qed.

End Containers.

(** X9: when [fill_vec_with_nulls] returns or leaves through an R error
    (the runs whose behaviour is defined: no write of the window falls
    outside a vector), it hands back a vector of the type, the attributes
    and the length it was given: a destination stays record-style or not
    as it was, and a record keeps every column's type, attributes and
    length, hence its row count. *)
Theorem fill_vec_with_nulls_keeps_container x offset n :
  (fill_vec_with_nulls x offset n).1 <> Undefined ->
  same_container x (fill_vec_with_nulls x offset n).2
  /\ nanoarrow_ptype_is_data_frame (fill_vec_with_nulls x offset n).2
     = nanoarrow_ptype_is_data_frame x
  /\ (nanoarrow_ptype_is_data_frame x = true ->
      Forall2 same_container (elements x)
        (elements (fill_vec_with_nulls x offset n).2)
      /\ nanoarrow_data_frame_size (fill_vec_with_nulls x offset n).2
         = nanoarrow_data_frame_size x).
Proof.
  intros _.
  pose proof (fill_vec_with_nulls_container x offset n) as Hc.
  split; [exact Hc|]. split; [exact (same_container_record_style _ _ Hc)|].
  intros Hdf.
  assert (Hcols : Forall2 same_container (elements x)
                    (elements (fill_vec_with_nulls x offset n).2)).
  { rewrite fill_vec_with_nulls_eq, Hdf.
    apply is_data_frame_generic in Hdf as (a & cols & ->). simpl.
    apply fill_columns_shape. intros c. apply fill_vec_with_nulls_container. }
  split; [exact Hcols|]. exact (same_columns_size _ _ Hc Hcols).
Qed.

(** X10: whatever the result and however it leaves, [copy_vec_into] hands
    back a destination of the type, the attributes and the length it was
    given: a destination stays record-style or not as it was, and a record
    keeps every column's type, attributes and length, hence its row
    count. The attributes of the result are never copied. *)
Theorem copy_vec_into_keeps_container x dst offset n :
  same_container dst (copy_vec_into x dst offset n).2
  /\ nanoarrow_ptype_is_data_frame (copy_vec_into x dst offset n).2
     = nanoarrow_ptype_is_data_frame dst
  /\ (nanoarrow_ptype_is_data_frame dst = true ->
      Forall2 same_container (elements dst)
        (elements (copy_vec_into x dst offset n).2)
      /\ nanoarrow_data_frame_size (copy_vec_into x dst offset n).2
         = nanoarrow_data_frame_size dst).
Proof.
  pose proof (copy_vec_into_container x dst offset n) as Hc.
  split; [exact Hc|]. split; [exact (same_container_record_style _ _ Hc)|].
  intros Hdf.
  assert (Hrefl : forall l : list SEXP, Forall2 same_container l l).
  { intros l. apply Forall2_same_length_lookup_2; auto.
    intros i y z Hy Hz. rewrite Hy in Hz. injection Hz as <-.
    apply same_container_refl. }
  assert (Hcols : Forall2 same_container (elements dst)
                    (elements (copy_vec_into x dst offset n).2)).
  { rewrite copy_vec_into_eq, Hdf.
    destruct (negb _); [apply Hrefl|].
    destruct (negb _); [apply Hrefl|].
    destruct (negb _); [apply Hrefl|].
    apply is_data_frame_generic in Hdf as (a & cols & ->). simpl.
    apply copy_columns_shape. intros y c. apply copy_vec_into_container. }
  split; [exact Hcols|]. exact (same_columns_size _ _ Hc Hcols).
Qed.

Lemma fill_vec_with_nulls_keeps_container_witness :
  (fill_vec_with_nulls copy_dst 1 1).1 = Ret ()
  /\ Forall2 same_container (elements copy_dst)
       (elements (fill_vec_with_nulls copy_dst 1 1).2)
  /\ nanoarrow_data_frame_size (fill_vec_with_nulls copy_dst 1 1).2
     = nanoarrow_data_frame_size copy_dst.
Proof.
  split; [reflexivity|].
  apply (fun Hdef =>
           proj2 (proj2 (fill_vec_with_nulls_keeps_container copy_dst 1 1
                           Hdef))).
  - discriminate.
  - reflexivity.
Defined.

(** The same on a destination with an expression column, where the
    pre-fill leaves through an R error after the first column. *)
Example fill_vec_with_nulls_error_keeps_container :
  is_Rf_error
    (fill_vec_with_nulls
       (data_frame [("a", int_vec [1; 2]); ("e", Robj [] (Expression []))] 2)
       0 2).1
  /\ (fill_vec_with_nulls
        (data_frame [("a", int_vec [1; 2]); ("e", Robj [] (Expression []))] 2)
        0 2).2
     = data_frame [("a", int_vec [NA_INTEGER; NA_INTEGER]);
                   ("e", Robj [] (Expression []))] 2.
Proof. split; [eexists|]; reflexivity. Qed.

Lemma copy_vec_into_keeps_container_witness :
  Forall2 same_container (elements copy_dst)
    (elements (copy_vec_into copy_result copy_dst 0 2).2)
  /\ nanoarrow_data_frame_size (copy_vec_into copy_result copy_dst 0 2).2
     = nanoarrow_data_frame_size copy_dst.
Proof.
  apply (proj2 (proj2 (copy_vec_into_keeps_container copy_result copy_dst
                         0 2))).
  reflexivity.
Defined.

(** ** The empty window *)

Section EmptyWindow.

Lemma fill_columns_empty cols offset :
  Forall (fun c => fill_vec_with_nulls c offset 0 = (Ret (), c)) cols ->
  fill_columns cols offset 0 = (Ret (), cols).
Proof.
  induction 1 as [|c cols Hc _ IH]; simpl; [reflexivity|].
  rewrite Hc, IH. reflexivity.
Qed.

End EmptyWindow.

(** X11: an empty window writes nothing and never fails, wherever it
    lies: with length 0, [fill_vec_with_nulls] returns and leaves every
    vector it has a case for (any but [NULL] and an expression vector),
    and every record made of such vectors, exactly as it was, for every
    offset. *)
Theorem fill_vec_with_nulls_empty_window x offset :
  fill_supported x -> fill_vec_with_nulls x offset 0 = (Ret (), x).
Proof.
  induction x as [|a cols IH|a d Hd] using SEXP_cols_ind; intros Hs.
  - inversion Hs.
  - rewrite fill_vec_with_nulls_eq.
    inversion Hs as [a' cols' Hdf Hcols|a' d' Hdf Hexpr]; subst; rewrite Hdf.
    + simpl elements. rewrite fill_columns_empty; [reflexivity|].
      rewrite Forall_forall in *. auto.
    + reflexivity.
  - rewrite fill_vec_with_nulls_eq.
    inversion Hs as [a' cols' Hdf Hcols|a' d' Hdf Hexpr]; subst.
    { exfalso. exact (Hd _ eq_refl). }
    rewrite Hdf.
    destruct d; try reflexivity.
    + exfalso. exact (Hexpr _ eq_refl).
    + unfold on_data, memset. simpl.
      destruct (Z.leb_spec 0 (len v)) as [_|Hneg];
        [reflexivity|pose proof (len_nonneg v); lia].
Qed.

Lemma fill_vec_with_nulls_empty_window_witness :
  fill_vec_with_nulls
    (data_frame [("a", int_vec [1; 2]); ("b", raw_vec [3; 4])] 2) 9 0
  = (Ret (), data_frame [("a", int_vec [1; 2]); ("b", raw_vec [3; 4])] 2).
Proof.
  apply fill_vec_with_nulls_empty_window.
  apply fill_supported_record; [reflexivity|].
  repeat constructor; discriminate.
Defined.

(** ** The window a copy writes *)

Section CopyWindow.

Lemma paste_length {A} (s : list A) offset v :
  0 <= offset -> offset + len s <= len v ->
  length (paste s offset v) = length v.
Proof.
  unfold len, paste. intros Hoff Hlen.
  rewrite !length_app, length_take, length_drop. lia.
Qed.

Lemma memcpy_paste {A} (d s : list A) offset :
  0 <= offset -> offset + len s <= len d ->
  memcpy d offset s (len s) = (Ret (), paste s offset d).
Proof.
  intros Hoff Hlen. unfold memcpy.
  pose proof (len_nonneg s) as Hs.
  destruct (Z.leb_spec 0 offset); [|lia].
  destruct (Z.leb_spec 0 (len s)); [|lia].
  destruct (Z.leb_spec (offset + len s) (len d)); [|lia].
  destruct (Z.leb_spec (len s) (len s)); [|lia].
  simpl. unfold paste, len.
  rewrite Nat2Z.id, firstn_all.
  replace (Z.to_nat (offset + Z.of_nat (length s)))
    with (Z.to_nat offset + length s)%nat by lia.
  reflexivity.
Qed.

(** The element loop of [copy_vec_into], started at [i]. *)
Lemma for_from_copy {A} (d : A) (s : list A) offset k i (v : list A) :
  0 <= offset -> 0 <= i -> offset + i + Z.of_nat k <= len v ->
  i + Z.of_nat k <= len s ->
  for_from i k
    (fun j => set_elt (offset + j) (default d (s !! Z.to_nat j))) v
  = (Ret (),
     take (Z.to_nat (offset + i)) v ++ take k (drop (Z.to_nat i) s)
       ++ drop (Z.to_nat (offset + i) + k) v).
Proof.
  intros Hoff. revert i v. induction k as [|k IH]; intros i v Hi Hv Hs; simpl.
  - rewrite Nat.add_0_r, take_drop. reflexivity.
  - unfold len in *.
    destruct (lookup_lt_is_Some_2 s (Z.to_nat i)) as [x Hx]; [lia|].
    unfold set_elt at 1. rewrite store_in_range by (unfold len; lia).
    rewrite Hx. simpl default.
    rewrite IH by (rewrite ?length_insert; lia).
    f_equal.
    replace (Z.to_nat (offset + (i + 1))) with (S (Z.to_nat (offset + i)))
      by lia.
    replace (Z.to_nat (i + 1)) with (S (Z.to_nat i)) by lia.
    assert (Hin : (Z.to_nat (offset + i) < length v)%nat) by lia.
    rewrite (take_S_r (<[Z.to_nat (offset + i) := x]> v) _ x)
      by (apply list_lookup_insert_eq; exact Hin).
    rewrite take_insert_ge by lia.
    rewrite drop_insert_lt by lia.
    rewrite (drop_S s x (Z.to_nat i) Hx). simpl take.
    rewrite <- app_assoc. simpl.
    replace (Z.to_nat (offset + i) + S k)%nat
      with (S (Z.to_nat (offset + i) + k)) by lia.
    reflexivity.
Qed.

Lemma copy_elts_paste {A} (d : A) (s v : list A) offset :
  0 <= offset -> offset + len s <= len v ->
  copy_elts d s offset (len s) v = (Ret (), paste s offset v).
Proof.
  intros Hoff Hlen. unfold copy_elts, for_loop, len in *.
  rewrite for_from_copy by (unfold len; lia).
  rewrite Nat2Z.id. simpl drop. rewrite firstn_all.
  replace (offset + 0) with offset by lia. reflexivity.
Qed.

Lemma copy_vec_into_paste ax s a d offset :
  nanoarrow_ptype_is_data_frame (Robj a d) = false ->
  nanoarrow_ptype_is_data_frame (Robj ax s) = false ->
  0 <= offset -> offset + payload_length s <= payload_length d ->
  match payload_paste offset s d with
  | Some d' =>
      copy_vec_into (Robj ax s) (Robj a d) offset (payload_length s)
      = (Ret (), Robj a d')
      /\ payload_length d' = payload_length d
  | None =>
      exists msg,
        copy_vec_into (Robj ax s) (Robj a d) offset (payload_length s)
        = (Rf_error msg, Robj a d)
  end.
Proof.
  intros Hdst Hx Hoff Hlen.
  rewrite copy_vec_into_eq, Hdst, Hx. unfold Rf_length. simpl Rf_xlength.
  rewrite Z.eqb_refl. simpl negb.
  destruct s, d; simpl in *; eauto;
    (split;
     [unfold on_data;
      rewrite memcpy_paste || rewrite copy_elts_paste; auto
     |unfold len; f_equal; apply paste_length; assumption]).
Qed.

End CopyWindow.

(** X12: the copy into a destination that is not record-style, for a
    result that is not record-style either and a window that lies in the
    destination. With result and destination of one kind (logical,
    integer, double, complex, character, list or raw) the copy returns
    and the destination holds the elements of the result over the window,
    in order, and what it held elsewhere; its attributes are its own.
    In any other case (two kinds, or two expression vectors) an R error
    is raised and the destination is as it was. *)
Theorem copy_vec_into_window ax s a d offset :
  nanoarrow_ptype_is_data_frame (Robj a d) = false ->
  nanoarrow_ptype_is_data_frame (Robj ax s) = false ->
  0 <= offset -> offset + payload_length s <= payload_length d ->
  match payload_paste offset s d with
  | Some d' =>
      copy_vec_into (Robj ax s) (Robj a d) offset (payload_length s)
      = (Ret (), Robj a d')
      /\ payload_length d' = payload_length d
  | None =>
      exists msg,
        copy_vec_into (Robj ax s) (Robj a d) offset (payload_length s)
        = (Rf_error msg, Robj a d)
  end.
Proof. apply copy_vec_into_paste. Qed.

Lemma copy_vec_into_window_witness :
  match
    payload_paste 1 (Character (map mkChar ["x"; "y"]))
      (Character (map mkChar ["p"; "q"; "r"]))
  with
  | Some d' =>
      copy_vec_into (chr_vec ["x"; "y"])
        (Robj [names_attr ["a"; "b"; "c"]]
           (Character (map mkChar ["p"; "q"; "r"]))) 1 2
      = (Ret (), Robj [names_attr ["a"; "b"; "c"]] d')
      /\ payload_length d'
         = payload_length
             (Character (map mkChar ["p"; "q"; "r"]) : payload SEXP)
  | None =>
      exists msg,
        copy_vec_into (chr_vec ["x"; "y"])
          (Robj [names_attr ["a"; "b"; "c"]]
             (Character (map mkChar ["p"; "q"; "r"]))) 1 2
        = (Rf_error msg,
           Robj [names_attr ["a"; "b"; "c"]]
             (Character (map mkChar ["p"; "q"; "r"])))
  end.
Proof.
  apply (copy_vec_into_window [] (Character (map mkChar ["x"; "y"]))
           [names_attr ["a"; "b"; "c"]]
           (Character (map mkChar ["p"; "q"; "r"])) 1);
    [reflexivity|reflexivity|lia|vm_compute; discriminate].
Defined.

(** The same copy, written out. *)
Example copy_chr_window :
  copy_vec_into (chr_vec ["x"; "y"])
    (Robj [names_attr ["a"; "b"; "c"]]
       (Character (map mkChar ["p"; "q"; "r"]))) 1 2
  = (Ret (),
     Robj [names_attr ["a"; "b"; "c"]]
       (Character (map mkChar ["p"; "x"; "y"]))).
Proof. reflexivity. Qed.

(** ** Results of the shape of the container *)

Section ShapedResults.

Lemma allocated_leaf_inv n p r :
  nanoarrow_ptype_is_data_frame p = false -> allocated n p r ->
  nanoarrow_ptype_is_data_frame r = false
  /\ TYPEOF r = TYPEOF p /\ Rf_xlength r = n.
Proof.
  intros Hp Halloc.
  inversion Halloc as [a cols a' cols' Hdf _ _|p1 r1 _ Hr Hty Hlen]; subst;
    [congruence|auto].
Qed.

Lemma allocated_record_inv n a cols r :
  nanoarrow_ptype_is_data_frame (Robj a (Generic cols)) = true ->
  allocated n (Robj a (Generic cols)) r ->
  exists a' cols',
    r = Robj a' (Generic cols')
    /\ nanoarrow_ptype_is_data_frame r = true
    /\ Forall2 (allocated n) cols cols'.
Proof.
  intros Hp Halloc.
  inversion Halloc as [a0 cols0 a' cols' _ Hr Hall|p1 r1 Hdf _ _ _]; subst;
    [eauto|congruence].
Qed.

Lemma copy_columns_allocated n N offset cols xs ds :
  Forall (fun col =>
            forall x dst,
              allocated n col x -> allocated N col dst ->
              exists dst',
                copy_vec_into x dst offset n = (Ret (), dst')
                /\ allocated N col dst') cols ->
  Forall2 (allocated n) cols xs -> Forall2 (allocated N) cols ds ->
  exists ds',
    copy_columns xs ds offset n = (Ret (), ds')
    /\ Forall2 (allocated N) cols ds'.
Proof.
  intros IH Hxs. revert ds.
  induction Hxs as [|col x cols xs Hx Hxs IHxs]; intros ds Hds.
  - inversion Hds; subst. exists []. split; [reflexivity|constructor].
  - inversion Hds as [|? d ? ds0 Hd Hds0]; subst.
    apply Forall_cons in IH as [IHcol IH].
    destruct (IHcol x d Hx Hd) as (d' & Hcopy & Hd').
    destruct (IHxs IH ds0 Hds0) as (ds' & Hcols & Hds').
    exists (d' :: ds'). simpl. rewrite Hcopy, Hcols. simpl.
    split; [reflexivity|constructor; assumption].
Qed.

End ShapedResults.

(** X13: a result of the shape of the ptype is always taken. For a
    ptype made of records with a first column that is a vector, over
    vectors that are not expression vectors: when the destination has
    the tree of the ptype with [N] rows and the result has the tree of
    the ptype with [n] rows, [copy_vec_into] returns for every window of
    [n] rows inside the [N] rows, and the destination still has the tree
    of the ptype with [N] rows. None of its checks refuses such a
    result. *)
Theorem copy_vec_into_shaped p n N offset x dst :
  copy_tree p -> allocated n p x -> allocated N p dst ->
  0 <= offset -> offset + n <= N ->
  exists dst',
    copy_vec_into x dst offset n = (Ret (), dst') /\ allocated N p dst'.
Proof.
  intros Htree Hx Hdst Hoff Hin. revert x dst Htree Hx Hdst.
  assert (Hleaf : forall a d x dst,
    nanoarrow_ptype_is_data_frame (Robj a d) = false ->
    (forall v, d <> Expression v) ->
    allocated n (Robj a d) x -> allocated N (Robj a d) dst ->
    exists dst',
      copy_vec_into x dst offset n = (Ret (), dst')
      /\ allocated N (Robj a d) dst').
  { intros a d x dst Hp Hexpr Hx Hdst.
    destruct (allocated_leaf_inv _ _ _ Hp Hx) as (Hxdf & Hxty & Hxlen).
    destruct (allocated_leaf_inv _ _ _ Hp Hdst) as (Hddf & Hdty & Hdlen).
    destruct x as [|ax s]; [destruct d; discriminate Hxty|].
    destruct dst as [|ad dd]; [destruct d; discriminate Hdty|].
    simpl in Hxlen, Hdlen.
    pose proof (copy_vec_into_paste ax s ad dd offset Hddf Hxdf Hoff) as Hc.
    rewrite Hxlen in Hc. specialize (Hc ltac:(lia)).
    assert (Hkind : exists d', payload_paste offset s dd = Some d'
                               /\ TYPEOF (Robj ad d') = TYPEOF (Robj ad dd)).
    { destruct s, dd, d; try discriminate Hxty; try discriminate Hdty;
        try (exfalso; exact (Hexpr _ eq_refl)); simpl; eauto. }
    destruct Hkind as (d' & Hpaste & Hty'). rewrite Hpaste in Hc.
    destruct Hc as [Hcopy Hlen']. exists (Robj ad d').
    split; [exact Hcopy|].
    apply allocated_vector; [exact Hp| | |].
    - rewrite <- Hddf. apply is_data_frame_congr; auto.
    - rewrite Hty'. exact Hdty.
    - simpl. rewrite Hlen'. exact Hdlen. }
  induction p as [|a cols IH|a d Hd] using SEXP_cols_ind;
    intros x dst Htree Hx Hdst.
  - inversion Htree.
  - inversion Htree as [a0 col cols0 Hp Hcol Hcols|a0 d0 Hp Hexpr]; subst.
    2: { exact (Hleaf _ _ _ _ Hp Hexpr Hx Hdst). }
    destruct (allocated_record_inv _ _ _ _ Hp Hx)
      as (ax & xs & -> & Hxdf & Hxs).
    destruct (allocated_record_inv _ _ _ _ Hp Hdst)
      as (ad & ds & -> & Hddf & Hds).
    assert (Hsize :
      nanoarrow_data_frame_size (Robj ax (Generic xs)) = n).
    { inversion Hxs as [|? x0 ? xs0 Hx0 _]; subst.
      destruct (allocated_leaf_inv _ _ _ Hcol Hx0) as (_ & _ & Hlen0).
      unfold nanoarrow_data_frame_size, Rf_length. simpl.
      unfold len. simpl length.
      destruct (Z.ltb_spec 0 (Z.of_nat (S (length xs0)))); [|lia].
      exact Hlen0. }
    destruct (copy_columns_allocated n N offset (col :: cols0) xs ds)
      as (ds' & Hcopy & Hds'); auto.
    { rewrite Forall_forall in IH, Hcols. apply Forall_forall.
      intros c Hc y z Hy Hz. exact (IH c Hc y z (Hcols c Hc) Hy Hz). }
    exists (Robj ad (Generic ds')).
    rewrite copy_vec_into_eq, Hddf, Hxdf, Hsize, Z.eqb_refl. simpl.
    unfold len.
    rewrite <- (Forall2_length _ _ _ Hxs), (Forall2_length _ _ _ Hds),
      Z.eqb_refl.
    simpl. rewrite Hcopy. simpl. split; [reflexivity|].
    apply allocated_record; [exact Hp| |exact Hds'].
    rewrite <- Hddf. apply is_data_frame_congr; auto.
    simpl. unfold len.
    rewrite <- (Forall2_length _ _ _ Hds'), (Forall2_length _ _ _ Hds).
    reflexivity.
  - inversion Htree as [a0 col cols0 Hp Hcol Hcols|a0 d0 Hp Hexpr]; subst.
    { exfalso. exact (Hd _ eq_refl). }
    exact (Hleaf _ _ _ _ Hp Hexpr Hx Hdst).
Qed.

Lemma copy_vec_into_shaped_witness :
  exists dst',
    copy_vec_into
      (data_frame [("a", int_vec [7; 8]); ("b", chr_vec ["u"; "v"])] 2)
      (data_frame [("a", int_vec [0; 0; 0]); ("b", chr_vec [""; ""; ""])] 3)
      1 2
    = (Ret (), dst')
    /\ allocated 3 two_column_ptype dst'.
Proof.
  apply (copy_vec_into_shaped two_column_ptype 2 3 1); try lia.
  - apply copy_tree_record; [reflexivity|reflexivity|].
    repeat constructor; discriminate.
  - apply allocated_record; [reflexivity|reflexivity|].
    repeat constructor.
  - apply allocated_record; [reflexivity|reflexivity|].
    repeat constructor.
Defined.

(** ** The fallback bridge *)

Section Bridge.

Lemma in_place_deref p f m x :
  deref p m = Some x ->
  in_place p f m = ((f x).1, replace_at p (f x).2 m).
Proof.
  revert m. induction p as [|i p IH]; intros m; simpl.
  - intros [= ->]. destruct (f x). reflexivity.
  - destruct m as [|a d]; [discriminate|].
    destruct d; try discriminate.
    destruct (v !! i) as [col|] eqn:Hcol; [|discriminate].
    simpl. intros Hx. rewrite (IH col Hx). reflexivity.
Qed.

Lemma replace_at_same p m x : deref p m = Some x -> replace_at p x m = m.
Proof.
  revert m. induction p as [|i p IH]; intros m; simpl.
  - intros [= ->]. reflexivity.
  - destruct m as [|a d]; [discriminate|].
    destruct d; try discriminate.
    destruct (v !! i) as [col|] eqn:Hcol; [|discriminate].
    simpl. intros Hx. rewrite (IH col Hx), list_insert_id by exact Hcol.
    reflexivity.
Qed.

(** Up to [2^53] in magnitude a 64-bit integer is its double. *)
Lemma Rf_ScalarReal_exact v : Z.abs v <= 2 ^ 53 -> Rf_ScalarReal v = v.
Proof.
  intros Hv. unfold Rf_ScalarReal.
  destruct (Z.ltb_spec (Z.abs v) (2 ^ 53)) as [|Hge]; [reflexivity|].
  assert (Hcases : v = 2 ^ 53 \/ v = - 2 ^ 53) by lia.
  destruct Hcases as [-> | ->]; reflexivity.
Qed.

Context {H : Host}.

(** The ptype the bridge sends: the one of the node, or the default of
    its target shape, which the node then keeps. *)
Lemma ensure_ptype_sent c w :
  exists p,
    match ptype (conv w) with
    | R_NilValue => nanoarrow_alloc_type (vector_type c) 0 = Ret p
    | p0 => p = p0
    end
    /\ ensure_ptype c w
       = (Ret (),
          mkWorld (mkConverterState p (src (conv w)) (dst (conv w))
                     (kids (conv w))) (heap w), []).
Proof.
  unfold ensure_ptype, bind, get_conv, leave, put_conv, ret.
  destruct (ptype (conv w)) as [|pa pd] eqn:Hp.
  - destruct (nanoarrow_alloc_type_zero (vector_type c)) as [p Hp0].
    exists p. rewrite Hp0. auto.
  - exists (Robj pa pd). split; [reflexivity|].
    destruct w as [[] ?]; simpl in *. subst. reflexivity.
Qed.

(** The bridge, once the ptype it sends is known. *)
Lemma nanoarrow_materialize_other_sent c w p :
  ensure_ptype c w
  = (Ret (),
     mkWorld (mkConverterState p (src (conv w)) (dst (conv w))
                (kids (conv w))) (heap w), []) ->
  nanoarrow_materialize_other c w
  = (let offset := fallback_offset c w in
     let length := fallback_length w in
     let node :=
       mkConverterState p (src (conv w)) (dst (conv w)) (kids (conv w)) in
     match convert_fallback_other c offset length p with
     | Ret x =>
         let o :=
           in_place (vec_sexp (dst (conv w)))
             (fun d => copy_vec_into x d (dst_offset (dst (conv w)))
                         (dst_length (dst (conv w)))) (heap w) in
         (_ ← o.1; Ret NANOARROW_OK, mkWorld node o.2,
          [Ev_fallback offset length p])
     | Rf_error msg =>
         (Rf_error msg, mkWorld node (heap w), [Ev_fallback offset length p])
     | Undefined =>
         (Undefined, mkWorld node (heap w), [Ev_fallback offset length p])
     end).
Proof.
  intros Hprep. unfold nanoarrow_materialize_other.
  rewrite (bind_run _ _ _ _ _ _ Hprep).
  unfold fallback_offset, fallback_length.
  unfold bind, get_conv, emit, leave, on_heap, ret. simpl.
  destruct (convert_fallback_other c _ _ p) as [x| |]; try reflexivity.
  simpl. destruct (in_place _ _ _) as [[[]| |] heap']; reflexivity.
Qed.

End Bridge.

(** The double nearest to [2^53 + 1] is [2^53]: beyond [2^53] the offset
    the R function receives need not be the offset of the slice. *)
Example Rf_ScalarReal_rounds :
  Rf_ScalarReal (2 ^ 53 + 1) = 2 ^ 53
  /\ Rf_ScalarReal (2 ^ 53 + 3) = 2 ^ 53 + 4
  /\ Rf_ScalarReal (- (2 ^ 53 + 1)) = - 2 ^ 53.
Proof. repeat split; reflexivity. Qed.

(** X14: what the fallback bridge touches. It calls the R function
    once, with two doubles and a ptype: the offset of the array view
    plus the offset of the source slice, and the length of the source
    slice, each converted to the nearest double (the number itself up to
    [2^53] in magnitude), and the ptype of the node or, when the node has
    none, the default ptype of its target shape. Of the converter it
    changes the ptype only, which is then the ptype sent; of the
    destination tree it changes the destination vector only, and the
    vector it leaves there has the type, the attributes and the length
    of the one it found. An R error of the R function is the outcome of
    the bridge, with the destination as it was; and when the bridge
    returns, its status is [NANOARROW_OK]. *)
Theorem nanoarrow_materialize_other_frame {H : Host} c w x :
  deref (vec_sexp (dst (conv w))) (heap w) = Some x ->
  exists p x',
    match ptype (conv w) with
    | R_NilValue => nanoarrow_alloc_type (vector_type c) 0 = Ret p
    | p0 => p = p0
    end
    /\ (nanoarrow_materialize_other c w).2
       = [Ev_fallback (fallback_offset c w) (fallback_length w) p]
    /\ (Z.abs (av_offset (array_view c) + src_offset (src (conv w)))
        <= 2 ^ 53 ->
        fallback_offset c w
        = av_offset (array_view c) + src_offset (src (conv w)))
    /\ (Z.abs (src_length (src (conv w))) <= 2 ^ 53 ->
        fallback_length w = src_length (src (conv w)))
    /\ conv (nanoarrow_materialize_other c w).1.2
       = mkConverterState p (src (conv w)) (dst (conv w)) (kids (conv w))
    /\ heap (nanoarrow_materialize_other c w).1.2
       = replace_at (vec_sexp (dst (conv w))) x' (heap w)
    /\ same_container x x'
    /\ (forall status,
           (nanoarrow_materialize_other c w).1.1 = Ret status ->
           status = NANOARROW_OK)
    /\ (forall msg,
           convert_fallback_other c (fallback_offset c w)
             (fallback_length w) p = Rf_error msg ->
           (nanoarrow_materialize_other c w).1.1 = Rf_error msg /\ x' = x).
Proof.
  intros Hx.
  destruct (ensure_ptype_sent c w) as (p & Hp & Hprep).
  rewrite (nanoarrow_materialize_other_sent c w p Hprep). cbv zeta.
  exists p.
  destruct (convert_fallback_other c _ _ p) as [y| |] eqn:Hy.
  - rewrite (in_place_deref _ _ _ _ Hx). cbv beta.
    exists (copy_vec_into y x (dst_offset (dst (conv w)))
              (dst_length (dst (conv w)))).2.
    split; [exact Hp|]. split; [reflexivity|].
    split; [apply Rf_ScalarReal_exact|].
    split; [apply Rf_ScalarReal_exact|].
    split; [reflexivity|]. split; [reflexivity|].
    split; [apply copy_vec_into_container|].
    split; [|discriminate].
    simpl. intros status.
    destruct (copy_vec_into y x _ _).1 as [[]| |]; simpl; congruence.
  - exists x. split; [exact Hp|]. split; [reflexivity|].
    split; [apply Rf_ScalarReal_exact|].
    split; [apply Rf_ScalarReal_exact|].
    split; [reflexivity|].
    split; [simpl; symmetry; apply replace_at_same, Hx|].
    split; [apply same_container_refl|].
    split; [discriminate|]. intros msg' [= <-]. auto.
  - exists x. split; [exact Hp|]. split; [reflexivity|].
    split; [apply Rf_ScalarReal_exact|].
    split; [apply Rf_ScalarReal_exact|].
    split; [reflexivity|].
    split; [simpl; symmetry; apply replace_at_same, Hx|].
    split; [apply same_container_refl|].
    split; [discriminate|]. discriminate.
Qed.

Lemma nanoarrow_materialize_other_frame_witness :
  exists p x',
    match ptype (conv window_world) with
    | R_NilValue =>
        nanoarrow_alloc_type (vector_type Demo.int_of_list) 0 = Ret p
    | p0 => p = p0
    end
    /\ (nanoarrow_materialize_other (H := Demo.host) Demo.int_of_list
          window_world).2
       = [Ev_fallback (fallback_offset Demo.int_of_list window_world)
            (fallback_length window_world) p]
    /\ (Z.abs (av_offset (array_view Demo.int_of_list)
               + src_offset (src (conv window_world))) <= 2 ^ 53 ->
        fallback_offset Demo.int_of_list window_world
        = av_offset (array_view Demo.int_of_list)
          + src_offset (src (conv window_world)))
    /\ (Z.abs (src_length (src (conv window_world))) <= 2 ^ 53 ->
        fallback_length window_world = src_length (src (conv window_world)))
    /\ conv (nanoarrow_materialize_other (H := Demo.host) Demo.int_of_list
               window_world).1.2
       = mkConverterState p (src (conv window_world))
           (dst (conv window_world)) (kids (conv window_world))
    /\ heap (nanoarrow_materialize_other (H := Demo.host) Demo.int_of_list
               window_world).1.2
       = replace_at (vec_sexp (dst (conv window_world))) x'
           (heap window_world)
    /\ same_container (int_vec [5; 6; 7; 8]) x'
    /\ (forall status,
           (nanoarrow_materialize_other (H := Demo.host) Demo.int_of_list
              window_world).1.1 = Ret status ->
           status = NANOARROW_OK)
    /\ (forall msg,
           convert_fallback_other (Host := Demo.host) Demo.int_of_list
             (fallback_offset Demo.int_of_list window_world)
             (fallback_length window_world) p = Rf_error msg ->
           (nanoarrow_materialize_other (H := Demo.host) Demo.int_of_list
              window_world).1.1 = Rf_error msg
           /\ x' = int_vec [5; 6; 7; 8]).
Proof.
  apply (nanoarrow_materialize_other_frame (H := Demo.host)
           Demo.int_of_list window_world (int_vec [5; 6; 7; 8])).
  reflexivity.
Defined.

(** X15: the fallback bridge into a vector. Let the destination pointer
    of the node lead to a vector that is not record-style and holds the
    destination window, and let the R function, called with the offset
    and the length as doubles and the ptype of X14, return a vector that
    is not record-style either, of the length of the destination slice.
    If it is of the kind of the destination (and not an expression
    vector) the bridge returns [NANOARROW_OK] and the only change to the
    destination tree is that the destination vector holds the elements of
    the result over the window. Otherwise the bridge leaves through an R
    error and the destination tree is as it was. Either way the
    converter is as it was but for its ptype, which is the ptype sent. *)
Theorem fallback_into_vector {H : Host} c w p ax s a d :
  match ptype (conv w) with
  | R_NilValue => nanoarrow_alloc_type (vector_type c) 0 = Ret p
  | p0 => p = p0
  end ->
  convert_fallback_other c (fallback_offset c w) (fallback_length w) p
  = Ret (Robj ax s) ->
  deref (vec_sexp (dst (conv w))) (heap w) = Some (Robj a d) ->
  nanoarrow_ptype_is_data_frame (Robj a d) = false ->
  nanoarrow_ptype_is_data_frame (Robj ax s) = false ->
  payload_length s = dst_length (dst (conv w)) ->
  0 <= dst_offset (dst (conv w)) ->
  dst_offset (dst (conv w)) + dst_length (dst (conv w)) <= payload_length d ->
  exists r w',
    nanoarrow_materialize_other c w
    = (r, w', [Ev_fallback (fallback_offset c w) (fallback_length w) p])
    /\ conv w'
       = mkConverterState p (src (conv w)) (dst (conv w)) (kids (conv w))
    /\ match payload_paste (dst_offset (dst (conv w))) s d with
       | Some d' =>
           r = Ret NANOARROW_OK
           /\ heap w'
              = replace_at (vec_sexp (dst (conv w))) (Robj a d') (heap w)
       | None => is_Rf_error r /\ heap w' = heap w
       end.
Proof.
  intros Hp Hx Hdst Hplain Hxplain Hlen Hoff Hin.
  assert (Hprep :
    ensure_ptype c w
    = (Ret (),
       mkWorld (mkConverterState p (src (conv w)) (dst (conv w))
                  (kids (conv w))) (heap w), [])).
  { destruct (ensure_ptype_sent c w) as (p' & Hp' & Hprep).
    replace p with p'; [exact Hprep|].
    destruct (ptype (conv w)); congruence. }
  rewrite (nanoarrow_materialize_other_sent c w p Hprep). cbv zeta.
  rewrite Hx, (in_place_deref _ _ _ _ Hdst). cbv beta.
  eexists _, _. split; [reflexivity|]. split; [reflexivity|].
  pose proof (copy_vec_into_paste ax s a d (dst_offset (dst (conv w)))
                Hplain Hxplain Hoff) as Hcopy.
  rewrite Hlen in Hcopy. specialize (Hcopy Hin).
  destruct (payload_paste (dst_offset (dst (conv w))) s d) as [d'|].
  - destruct Hcopy as [-> _]. simpl. auto.
  - destruct Hcopy as [msg ->]. simpl. split; [exists msg; reflexivity|].
    apply replace_at_same, Hdst.
Qed.

Lemma fallback_into_vector_witness :
  exists r w',
    nanoarrow_materialize_other (H := Demo.host) Demo.int_of_list
      window_world
    = (r, w', [Ev_fallback 1 2 (int_vec [])])
    /\ conv w'
       = mkConverterState (int_vec []) (mkArrayViewSlice 1 2)
           (mkVectorSlice [] 1 2) []
    /\ r = Ret NANOARROW_OK
    /\ heap w' = int_vec [5; 0; 0; 8].
Proof.
  apply (fallback_into_vector (H := Demo.host) Demo.int_of_list window_world
           (int_vec []) [] (Integer [0; 0]) [] (Integer [5; 6; 7; 8]));
    try reflexivity; simpl; unfold len; simpl; lia.
Defined.

(** ** The union materialiser on a destination with null sentinels *)

(** X22: the union materialiser (the union case of the record
    materialiser, reached for a record target and an array without
    dictionary) on a destination made of logical, integer, double,
    complex, character and list vectors, through the columns of records,
    each holding the destination window. It first null-fills the window:
    the pre-fill is the first thing it is seen to do, and the rows start
    from R objects in which the destination has the null sentinel of its
    kind at every position of the window, in every column, and is as it
    was elsewhere. When the materialiser returns, its status is
    [NANOARROW_OK] and after the pre-fill the rows [0 .. L-1] of the
    destination slice were gone through in order, each by one call of
    [nanoarrow_materialize] that returned [NANOARROW_OK], on the child
    chosen by the type buffer, with source slice [(child_offset, 1)] and
    destination slice [(offset + i, 1)]; the destination slice of the
    node is the one it had, of length [L]. *)
Theorem union_materializer_prefilled {H : Host} c w x r w' t :
  vector_type c = VECTOR_TYPE_DATA_FRAME ->
  array_dictionary (array_view c) = false ->
  storage_type (array_view c) = NANOARROW_TYPE_DENSE_UNION
  \/ storage_type (array_view c) = NANOARROW_TYPE_SPARSE_UNION ->
  deref (vec_sexp (dst (conv w))) (heap w) = Some x ->
  fillable (dst_offset (dst (conv w))) (dst_length (dst (conv w))) x ->
  nanoarrow_materialize_data_frame
    (child_call nanoarrow_materialize (children c)) c w
  = (r, w', t) ->
  exists x' rows,
    null_filled (dst_offset (dst (conv w))) (dst_length (dst (conv w))) x x'
    /\ t = Ev_fill (vec_sexp (dst (conv w))) (dst_offset (dst (conv w)))
             (dst_length (dst (conv w))) :: rows
    /\ forall status,
         r = Ret status ->
         status = NANOARROW_OK
         /\ steps (union_row c (src (conv w)) (dst (conv w)))
              (seqZ 0 (Z.to_nat (dst_length (dst (conv w)))))
              (mkWorld (conv w)
                 (replace_at (vec_sexp (dst (conv w))) x' (heap w)))
              w' rows
         /\ src (conv w') = src (conv w)
         /\ dst (conv w') = dst (conv w).
Proof.
  intros Hvt Hdict Hst Hx Hfill Hrun.
  destruct (fill_vec_with_nulls_fillable _ _ _ Hfill) as (x' & Hx' & Hnf).
  destruct (union_fill_first c w r w' t Hvt Hdict Hst Hrun) as [rows ->].
  exists x', rows. split; [exact Hnf|]. split; [reflexivity|].
  intros status ->.
  destruct (union_rows_run c w status w' _ Hvt Hdict Hst Hrun)
    as (-> & heap1 & rows' & Hin & [= <-] & Hsteps & Hs & Hd).
  rewrite (in_place_deref _ _ _ _ Hx), Hx' in Hin.
  injection Hin as <-. auto.
Qed.

Lemma union_materializer_prefilled_witness :
  exists x' rows,
    null_filled 0 3 (heap Demo.union_world) x'
    /\ (nanoarrow_materialize_data_frame (H := Demo.host)
          (child_call (nanoarrow_materialize (H := Demo.host))
             (children Demo.union_of_two))
          Demo.union_of_two Demo.union_world).2
       = Ev_fill [] 0 3 :: rows
    /\ forall status,
         (nanoarrow_materialize_data_frame (H := Demo.host)
            (child_call (nanoarrow_materialize (H := Demo.host))
               (children Demo.union_of_two))
            Demo.union_of_two Demo.union_world).1.1 = Ret status ->
         status = NANOARROW_OK
         /\ steps
              (union_row (H := Demo.host) Demo.union_of_two
                 (mkArrayViewSlice 0 3) (mkVectorSlice [] 0 3))
              [0; 1; 2]
              (mkWorld (conv Demo.union_world)
                 (replace_at [] x' (heap Demo.union_world)))
              (nanoarrow_materialize_data_frame (H := Demo.host)
                 (child_call (nanoarrow_materialize (H := Demo.host))
                    (children Demo.union_of_two))
                 Demo.union_of_two Demo.union_world).1.2
              rows
         /\ src (conv (nanoarrow_materialize_data_frame (H := Demo.host)
                         (child_call (nanoarrow_materialize (H := Demo.host))
                            (children Demo.union_of_two))
                         Demo.union_of_two Demo.union_world).1.2)
            = mkArrayViewSlice 0 3
         /\ dst (conv (nanoarrow_materialize_data_frame (H := Demo.host)
                         (child_call (nanoarrow_materialize (H := Demo.host))
                            (children Demo.union_of_two))
                         Demo.union_of_two Demo.union_world).1.2)
            = mkVectorSlice [] 0 3.
Proof.
  apply (union_materializer_prefilled (H := Demo.host) Demo.union_of_two
           Demo.union_world (heap Demo.union_world));
    [reflexivity|reflexivity|left; reflexivity|reflexivity| |
     destruct (nanoarrow_materialize_data_frame _ _ _) as [[? ?] ?];
     reflexivity].
  apply fillable_record; [reflexivity|].
  repeat constructor; simpl; unfold len; simpl; lia.
Defined.

(** ** Refusals *)

Section Refusals.

Context {H : Host}.

Lemma nanoarrow_materialize_refused c w status :
  native_attempt c w = (Ret status, w, []) -> status <> NANOARROW_OK ->
  nanoarrow_materialize c w = nanoarrow_materialize_other c w.
Proof.
  intros Hbase Hne. rewrite nanoarrow_materialize_eq.
  unfold nanoarrow_materialize_body. fold (native_attempt c).
  rewrite (bind_run _ _ _ _ _ _ Hbase).
  destruct (Z.eqb_spec status NANOARROW_OK) as [|_]; [contradiction|].
  simpl. destruct (nanoarrow_materialize_other c w) as [[r w2] t2].
  reflexivity.
Qed.

Lemma data_frame_refuses materialize_child c w :
  (vector_type c <> VECTOR_TYPE_DATA_FRAME
   \/ array_dictionary (array_view c) = true ->
   nanoarrow_materialize_data_frame materialize_child c w
   = (Ret EINVAL, w, []))
  /\ (vector_type c = VECTOR_TYPE_DATA_FRAME ->
      array_dictionary (array_view c) = false ->
      record_storage (storage_type (array_view c)) = false ->
      nanoarrow_materialize_data_frame materialize_child c w
      = (Ret ENOTSUP, w, [])).
Proof.
  unfold nanoarrow_materialize_data_frame. split.
  - intros Hwhy.
    destruct (vector_type c) eqn:Hvt; try reflexivity. simpl.
    destruct Hwhy as [Hwhy|Hwhy]; [contradiction|].
    rewrite Hwhy. reflexivity.
  - intros Hvt Hdict Hwhy. rewrite Hvt, Hdict. simpl.
    destruct (storage_type (array_view c)); try discriminate Hwhy;
      reflexivity.
Qed.

Lemma list_of_refuses c w :
  children c <> [] ->
  array_dictionary (array_view c) = true
  \/ list_of_storage (storage_type (array_view c)) = false ->
  nanoarrow_materialize_list_of c w = (Ret EINVAL, w, []).
Proof.
  intros Hch Hwhy. unfold nanoarrow_materialize_list_of.
  destruct (children c) as [|child rest]; [contradiction|].
  unfold bind, get_conv.
  destruct (array_dictionary (array_view c)); [reflexivity|].
  destruct Hwhy as [Hwhy|Hwhy]; [discriminate|].
  destruct (storage_type (array_view c)); try discriminate Hwhy;
    reflexivity.
Qed.

End Refusals.

(** X16: the record materialiser returns [EINVAL] for a target that is
    not a record and for an array with a dictionary, and [ENOTSUP] for a
    record target over an array without dictionary whose storage kind is
    neither struct nor union, in each case before it has touched
    anything. A conversion that a nested materialiser refuses this way
    (a record or a list target, without extension name) is the fallback
    bridge run on the world as it was: [nanoarrow_materialize] and
    [nanoarrow_materialize_other] then leave the same way, in the same
    world, having done the same. *)
Theorem refused_is_fallback {H : Host} :
  (forall materialize_child c w,
      vector_type c <> VECTOR_TYPE_DATA_FRAME
      \/ array_dictionary (array_view c) = true ->
      nanoarrow_materialize_data_frame materialize_child c w
      = (Ret EINVAL, w, []))
  /\ (forall materialize_child c w,
         vector_type c = VECTOR_TYPE_DATA_FRAME ->
         array_dictionary (array_view c) = false ->
         record_storage (storage_type (array_view c)) = false ->
         nanoarrow_materialize_data_frame materialize_child c w
         = (Ret ENOTSUP, w, []))
  /\ (forall c w,
         extension_name_size_bytes c <= 0 -> refused c = true ->
         nanoarrow_materialize c w = nanoarrow_materialize_other c w).
Proof.
  split; [intros mc c w; apply data_frame_refuses|].
  split; [intros mc c w; apply data_frame_refuses|].
  intros c w Hext Href.
  assert (Hbase : exists status,
    native_attempt c w = (Ret status, w, []) /\ status <> NANOARROW_OK).
  { unfold native_attempt, nanoarrow_materialize_base.
    destruct (Z.ltb_spec 0 (extension_name_size_bytes c)); [lia|].
    unfold refused in Href.
    destruct (vector_type c) eqn:Hvt; try discriminate Href.
    - destruct (children c) as [|child rest] eqn:Hch; [discriminate Href|].
      exists EINVAL. split; [|discriminate].
      apply list_of_refuses; [rewrite Hch; discriminate|].
      apply orb_true_iff in Href as [Hd|Hs]; [left; exact Hd|right].
      apply negb_true_iff, Hs.
    - destruct (data_frame_refuses
                  (child_call nanoarrow_materialize (children c)) c w)
        as [Heinval Henotsup].
      destruct (array_dictionary (array_view c)) eqn:Hdict.
      + exists EINVAL. split; [apply Heinval; auto|discriminate].
      + exists ENOTSUP. split; [|discriminate].
        apply Henotsup; [exact Hvt|reflexivity|].
        simpl in Href. apply negb_true_iff, Href. }
  destruct Hbase as (status & Hbase & Hne).
  exact (nanoarrow_materialize_refused c w status Hbase Hne).
Qed.

Lemma refused_is_fallback_witness :
  nanoarrow_materialize (H := Demo.host) record_with_dictionary
    Demo.int_world
  = nanoarrow_materialize_other (H := Demo.host) record_with_dictionary
      Demo.int_world.
Proof.
  apply (proj2 (proj2 (refused_is_fallback (H := Demo.host))));
    [simpl; lia|].
  reflexivity.
Defined.

(** An integer storage under a record target: [ENOTSUP], then the
    fallback. *)
Example record_over_primitive_refused :
  nanoarrow_materialize_data_frame (H := Demo.host)
    (child_call (nanoarrow_materialize (H := Demo.host)) [])
    (Demo.leaf VECTOR_TYPE_DATA_FRAME (NANOARROW_TYPE_PRIMITIVE 0))
    Demo.int_world
  = (Ret ENOTSUP, Demo.int_world, [])
  /\ nanoarrow_materialize_data_frame (H := Demo.host)
       (child_call (nanoarrow_materialize (H := Demo.host)) [])
       record_with_dictionary Demo.int_world
     = (Ret EINVAL, Demo.int_world, []).
Proof. split; reflexivity. Qed.

(** ** What a conversion keeps of its node *)

Section KeepsNode.

Lemma same_node_refl w : same_node w w.
Proof. repeat split. Qed.

Lemma same_node_trans w1 w2 w3 :
  same_node w1 w2 -> same_node w2 w3 -> same_node w1 w3.
Proof.
  intros (Hs1 & Hd1 & Hk1 & Hp1) (Hs2 & Hd2 & Hk2 & Hp2).
  repeat split; try congruence.
  intros Hp. rewrite Hp2; [exact (Hp1 Hp)|]. rewrite (Hp1 Hp). exact Hp.
Qed.

Lemma keeps_ret {A} (a : A) : keeps_node (ret a).
Proof. intros w. apply same_node_refl. Qed.

Lemma keeps_leave {A} (r : outcome A) : keeps_node (leave r).
Proof. intros w. apply same_node_refl. Qed.

Lemma keeps_emit e : keeps_node (emit e).
Proof. intros w. apply same_node_refl. Qed.

Lemma keeps_get_conv : keeps_node get_conv.
Proof. intros w. apply same_node_refl. Qed.

Lemma keeps_on_heap p f : keeps_node (on_heap p f).
Proof. intros w. repeat split. Qed.

Lemma keeps_bind {A B} (m : M A) (k : A -> M B) :
  keeps_node m -> (forall a, keeps_node (k a)) -> keeps_node (bind m k).
Proof.
  intros Hm Hk w. specialize (Hm w). unfold bind.
  destruct (m w) as [[[a| |] w1] t1]; simpl in *; try exact Hm.
  specialize (Hk a w1). destruct (k a w1) as [[r w2] t2]; simpl in *.
  exact (same_node_trans _ _ _ Hm Hk).
Qed.

Lemma keeps_forM_from body k i :
  (forall j, keeps_node (body j)) -> keeps_node (forM_from i k body).
Proof.
  intros Hbody. revert i. induction k as [|k IH]; intros i; simpl.
  - apply keeps_ret.
  - apply keeps_bind; [apply Hbody|].
    intros [status|]; [apply keeps_ret|apply IH].
Qed.

Lemma keeps_forM body n :
  (forall j, keeps_node (body j)) -> keeps_node (forM n body).
Proof. apply keeps_forM_from. Qed.

Lemma keeps_return_not_ok (m : M Z) :
  keeps_node m -> keeps_node (return_not_ok m).
Proof.
  intros Hm. unfold return_not_ok. apply keeps_bind; [exact Hm|].
  intros result. destruct (negb _); apply keeps_ret.
Qed.

(** A step on a child leaves the parent its slices, its ptype and the
    number of its children, whatever the step does to the child. *)
Lemma keeps_on_child {A} k (m : M A) : keeps_node (on_child k m).
Proof.
  intros w. unfold on_child.
  destruct (if 0 <=? k then kids (conv w) !! Z.to_nat k else None)
    as [kid|]; [|apply same_node_refl].
  destruct (m (mkWorld kid (heap w))) as [[r w'] t]. simpl.
  repeat split. simpl. apply length_insert.
Qed.

Lemma keeps_call_child k (m : M Z) : keeps_node (call_child k m).
Proof.
  intros w. unfold call_child.
  pose proof (keeps_on_child k m w) as Hon.
  destruct (if 0 <=? k then kids (conv w) !! Z.to_nat k else None)
    as [kid|]; [|apply same_node_refl].
  destruct (on_child k m w) as [[r w'] t]. exact Hon.
Qed.

Lemma keeps_child_call (f : RConverter -> M Z) cs k :
  keeps_node (child_call f cs k).
Proof.
  unfold child_call.
  destruct (if 0 <=? k then nth_child f cs (Z.to_nat k) else None);
    [apply keeps_call_child|apply keeps_leave].
Qed.

Lemma keeps_set_child_slices k s d_offset d_length :
  keeps_node (set_child_slices k s d_offset d_length).
Proof.
  intros w. unfold set_child_slices, bind, get_conv.
  destruct (if 0 <=? k then kids (conv w) !! Z.to_nat k else None)
    as [kid|]; simpl; [|apply same_node_refl].
  repeat split. simpl. apply length_insert.
Qed.

Context {H : Host}.

Lemma keeps_call_scalar f c : keeps_node (call_scalar f c).
Proof. intros w. repeat split. Qed.

Lemma keeps_ensure_ptype c : keeps_node (ensure_ptype c).
Proof.
  intros w. unfold ensure_ptype, bind, get_conv, leave, put_conv, ret.
  destruct (ptype (conv w)) eqn:Hp; [|apply same_node_refl].
  destruct (nanoarrow_alloc_type (vector_type c) 0); simpl;
    repeat split; simpl; congruence.
Qed.

Lemma keeps_other c : keeps_node (nanoarrow_materialize_other c).
Proof.
  unfold nanoarrow_materialize_other.
  apply keeps_bind; [apply keeps_ensure_ptype|]. intros ?.
  apply keeps_bind; [apply keeps_get_conv|]. intros st.
  apply keeps_bind; [apply keeps_emit|]. intros ?.
  apply keeps_bind; [apply keeps_leave|]. intros x.
  apply keeps_bind; [apply keeps_on_heap|]. intros ?.
  apply keeps_ret.
Qed.

Lemma keeps_list_row child d i offset length :
  keeps_node (list_row child d i offset length).
Proof.
  unfold list_row.
  apply keeps_bind; [apply keeps_on_child|]. intros status.
  destruct (negb _); [apply keeps_ret|].
  apply keeps_bind; [apply keeps_on_child|]. intros value.
  apply keeps_bind; [apply keeps_emit|]. intros ?.
  apply keeps_bind; [apply keeps_on_heap|]. intros ?.
  apply keeps_ret.
Qed.

Lemma keeps_list_of c : keeps_node (nanoarrow_materialize_list_of c).
Proof.
  unfold nanoarrow_materialize_list_of.
  destruct (children c) as [|child rest]; [apply keeps_leave|].
  apply keeps_bind; [apply keeps_get_conv|]. intros st.
  destruct (array_dictionary (array_view c)); [apply keeps_ret|].
  apply keeps_bind; [|intros [status|]; apply keeps_ret].
  destruct (storage_type (array_view c)); try apply keeps_ret;
    apply keeps_forM; intros j; destruct (negb _); try apply keeps_ret;
    repeat (apply keeps_bind; [apply keeps_leave|intros ?]);
    apply keeps_list_row.
Qed.

Lemma keeps_data_frame (materialize_child : Z -> M Z) c :
  (forall k, keeps_node (materialize_child k)) ->
  keeps_node (nanoarrow_materialize_data_frame materialize_child c).
Proof.
  intros Hmc. unfold nanoarrow_materialize_data_frame.
  destruct (negb _); [apply keeps_ret|].
  destruct (array_dictionary (array_view c)); [apply keeps_ret|].
  assert (Hrows : forall (body : Z -> M (option Z)) n,
    (forall j, keeps_node (body j)) ->
    keeps_node (let* r := forM n body in
                match r with
                | Some status => ret status
                | None => ret NANOARROW_OK
                end)).
  { intros body n Hbody. apply keeps_bind; [apply keeps_forM, Hbody|].
    intros [status|]; apply keeps_ret. }
  assert (Hrow : forall k s d_offset d_length,
    keeps_node (let* _ := set_child_slices k s d_offset d_length in
                return_not_ok (materialize_child k))).
  { intros k s d_offset d_length.
    apply keeps_bind; [apply keeps_set_child_slices|]. intros ?.
    apply keeps_return_not_ok, Hmc. }
  destruct (storage_type (array_view c)); try apply keeps_ret.
  - apply Hrows. intros j.
    apply keeps_bind; [apply keeps_get_conv|]. intros st. apply Hrow.
  - apply keeps_bind; [apply keeps_get_conv|]. intros st.
    apply keeps_bind; [apply keeps_emit|]. intros ?.
    apply keeps_bind; [apply keeps_on_heap|]. intros ?.
    apply Hrows. intros j.
    apply keeps_bind; [apply keeps_get_conv|]. intros st'. apply Hrow.
  - apply keeps_bind; [apply keeps_get_conv|]. intros st.
    apply keeps_bind; [apply keeps_emit|]. intros ?.
    apply keeps_bind; [apply keeps_on_heap|]. intros ?.
    apply Hrows. intros j.
    apply keeps_bind; [apply keeps_get_conv|]. intros st'. apply Hrow.
Qed.

End KeepsNode.

(** X17: however [nanoarrow_materialize] leaves (by returning, through
    an R error, or after a failed first attempt and a fallback), the node
    it was called on has the source slice and the destination slice it
    had, and as many children; its ptype is the one it had, unless it had
    none. The materialisers rebind the slices of children only. *)
Theorem nanoarrow_materialize_keeps_node {H : Host} c w :
  same_node w (nanoarrow_materialize c w).1.2.
Proof.
  revert w. change (keeps_node (nanoarrow_materialize c)).
  rewrite nanoarrow_materialize_eq. unfold nanoarrow_materialize_body.
  apply keeps_bind.
  2: { intros result. destruct (negb _); [apply keeps_other|apply keeps_ret]. }
  unfold nanoarrow_materialize_base.
  destruct (0 <? extension_name_size_bytes c); [apply keeps_other|].
  destruct (vector_type c); try apply keeps_call_scalar;
    try apply keeps_other.
  - apply keeps_list_of.
  - apply keeps_data_frame. intros k. apply keeps_child_call.
Qed.

(** ** Destination windows *)

Section Windows.

Lemma in_window_child d k s dch inner :
  in_window d (Ev_child k s dch inner)
  <-> inside d (dst_offset dch) (dst_length dch)
      /\ Forall (in_window dch) inner.
Proof.
  simpl. apply and_iff_compat_l.
  induction inner as [|x inner IH].
  - split; [constructor|auto].
  - rewrite Forall_cons, IH. reflexivity.
Qed.

Lemma triple_forM_from_bounded P (Inv : world -> Prop) body k i :
  (forall j, i <= j < i + Z.of_nat k ->
             triple P Inv (body j) (fun _ w => Inv w)) ->
  triple P Inv (forM_from i k body) (fun _ w => Inv w).
Proof.
  revert i. induction k as [|k IH]; intros i Hbody; simpl.
  - apply triple_ret. auto.
  - eapply triple_bind; [apply Hbody; lia|].
    intros [status|]; [apply triple_ret; auto|].
    apply IH. intros j Hj. apply Hbody. lia.
Qed.

Lemma triple_forM_bounded P (Inv : world -> Prop) body n :
  (forall j, 0 <= j < n -> triple P Inv (body j) (fun _ w => Inv w)) ->
  triple P Inv (forM n body) (fun _ w => Inv w).
Proof.
  intros Hbody. apply triple_forM_from_bounded.
  intros j Hj. apply Hbody. lia.
Qed.

(** A call on a child, when what the child does is known for every world
    it may be called in. *)
Lemma triple_child_call_inner (P : event -> Prop) Own
    (J : ConverterState -> Prop) (f : RConverter -> M Z) cs k :
  (forall ch kid heap,
      cs !! Z.to_nat k = Some ch -> J kid ->
      P (Ev_child k (src kid) (dst kid) (f ch (mkWorld kid heap)).2)) ->
  triple P (fun w => own Own w /\ child_is k J w) (child_call f cs k)
         (fun _ w => own Own w).
Proof.
  intros HP w [Hown Hkid]. unfold child_call.
  destruct (if 0 <=? k then nth_child f cs (Z.to_nat k) else None)
    as [m|] eqn:Hnth; [|split; [constructor|simpl; auto]].
  destruct (Z.leb_spec 0 k) as [Hk|Hk]; [|discriminate].
  apply nth_child_Some in Hnth as (ch & Hin & ->).
  unfold call_child, on_child.
  destruct (Z.leb_spec 0 k) as [_|Hk']; [|lia].
  destruct (kids (conv w) !! Z.to_nat k) as [kid|] eqn:Hlook;
    [|split; [constructor|simpl; auto]].
  pose proof (HP ch kid (heap w) Hin (Hkid kid Hk Hlook)) as He.
  destruct (f ch (mkWorld kid (heap w))) as [[r w'] t]; simpl in *.
  split; [repeat constructor; exact He|]. intros _ _. exact Hown.
Qed.

Context {H : Host}.

Lemma in_window_call_scalar d0 f c :
  triple (in_window d0) (fun w => dst (conv w) = d0) (call_scalar f c)
         (fun _ _ => True).
Proof.
  intros w Hw. split; [|auto].
  repeat constructor. simpl. exact Hw.
Qed.

Lemma in_window_list_row d0 child i offset length :
  0 <= i < dst_length d0 ->
  triple (in_window d0) (fun _ => True)
         (list_row child d0 i offset length) (fun _ _ => True).
Proof.
  intros Hi. unfold list_row.
  assert (Hchild : forall {A} (m : M A),
    triple (in_window d0) (fun _ => True) m (fun _ _ => True) ->
    triple (in_window d0) (fun _ => True) (on_child 0 m) (fun _ _ => True)).
  { intros A m Hm.
    eapply triple_weaken;
      [apply (triple_on_child (in_window d0) (fun _ _ => True)
                (fun _ => True)), Hm| |]; simpl; auto.
    intros w _. split; [exact I|]. intros kid _ _. exact I. }
  eapply triple_bind with (R := fun _ _ => True).
  { apply Hchild. apply triple_materialize_list_element; simpl; auto. }
  intros status. simpl. destruct (negb _); [apply triple_ret; auto|].
  eapply triple_bind with (R := fun _ _ => True).
  { apply Hchild. apply triple_call_protocol. exact I. }
  intros value. simpl.
  eapply triple_bind.
  { apply triple_emit. simpl. unfold inside. split; [reflexivity|lia]. }
  intros ?. simpl.
  eapply triple_bind;
    [apply (triple_on_heap (in_window d0) (fun _ => True))|].
  intros ?. apply triple_ret. auto.
Qed.

Lemma in_window_list_of d0 c :
  triple (in_window d0) (fun w => dst (conv w) = d0)
         (nanoarrow_materialize_list_of c) (fun _ _ => True).
Proof.
  unfold nanoarrow_materialize_list_of.
  destruct (children c) as [|child rest].
  { eapply triple_weaken;
      [apply (triple_leave (in_window d0) (fun _ => True))| |];
      simpl; auto. }
  eapply triple_bind; [apply triple_get_conv|].
  intros st. simpl.
  apply triple_pure with (fact := dst st = d0).
  { intros w [Hw ->]. exact Hw. }
  intros ->.
  destruct (array_dictionary (array_view c)); [apply triple_ret; auto|].
  eapply triple_bind with (R := fun _ _ => True).
  2: { intros [status|]; apply triple_ret; auto. }
  assert (Hload : forall (b : list Z) k (body : Z -> M (option Z)),
    (forall x, triple (in_window d0) (fun _ => True) (body x)
                      (fun _ _ => True)) ->
    triple (in_window d0) (fun _ => True)
           (let* x := leave (load b k) in body x) (fun _ _ => True)).
  { intros b k body Hbody.
    eapply triple_bind;
      [apply (triple_leave (in_window d0) (fun _ => True))|].
    intros x. apply Hbody. }
  destruct (storage_type (array_view c));
    try (apply triple_ret; auto; fail);
    (eapply triple_weaken;
     [apply (triple_forM_bounded (in_window d0) (fun _ => True))| |];
     simpl; auto);
    intros j Hj; destruct (negb _);
    try (apply triple_ret; auto; fail);
    repeat (apply Hload; intros ?);
    apply in_window_list_row; exact Hj.
Qed.

Lemma in_window_data_frame d0 c :
  Forall (fun ch =>
            forall w, Forall (in_window (dst (conv w)))
                        (nanoarrow_materialize ch w).2) (children c) ->
  triple (in_window d0) (own (fun _ d => d = d0))
         (nanoarrow_materialize_data_frame
            (child_call nanoarrow_materialize (children c)) c)
         (fun _ _ => True).
Proof.
  intros IH. set (Own := fun (_ : ArrayViewSlice) (d : VectorSlice) => d = d0).
  assert (Hcall : forall k (J : ConverterState -> Prop),
    (forall kid, J kid ->
                 inside d0 (dst_offset (dst kid)) (dst_length (dst kid))) ->
    triple (in_window d0) (fun w => own Own w /\ child_is k J w)
           (return_not_ok
              (child_call nanoarrow_materialize (children c) k))
           (fun _ w => own Own w)).
  { intros k J HJ. apply triple_return_not_ok.
    apply triple_child_call_inner.
    intros ch kid heap Hch Hkid. apply in_window_child.
    split; [exact (HJ kid Hkid)|].
    rewrite Forall_forall in IH.
    exact (IH ch (list_elem_of_lookup_2 _ _ _ Hch) (mkWorld kid heap)). }
  unfold nanoarrow_materialize_data_frame.
  destruct (negb _); [apply triple_ret; auto|].
  destruct (array_dictionary (array_view c)); [apply triple_ret; auto|].
  assert (Hunion :
    triple (in_window d0) (own Own)
      (let* st := get_conv in
       let* _ :=
         emit (Ev_fill (vec_sexp (dst st)) (dst_offset (dst st))
                 (dst_length (dst st))) in
       let* _ :=
         on_heap (vec_sexp (dst st))
           (fun x => fill_vec_with_nulls x (dst_offset (dst st))
                       (dst_length (dst st))) in
       let* r :=
         forM (dst_length (dst st)) (fun i =>
           let* st := get_conv in
           let child_index :=
             ArrowArrayViewUnionChildIndex (array_view c)
               (src_offset (src st) + i) in
           let child_offset :=
             ArrowArrayViewUnionChildOffset (array_view c)
               (src_offset (src st) + i) in
           let* _ :=
             set_child_slices child_index (mkArrayViewSlice child_offset 1)
               (dst_offset (dst st) + i) 1 in
           return_not_ok
             (child_call nanoarrow_materialize (children c) child_index)) in
       match r with
       | Some status => ret status
       | None => ret NANOARROW_OK
       end) (fun _ _ => True)).
  { eapply triple_bind; [apply triple_get_conv|].
    intros st. simpl.
    apply triple_pure with (fact := dst st = d0).
    { intros w [Hw ->]. exact Hw. }
    intros Hst.
    eapply triple_bind.
    { apply triple_emit. simpl. rewrite Hst. auto. }
    intros ?. simpl.
    eapply triple_bind.
    { eapply triple_weaken;
        [apply (triple_on_heap (in_window d0) (fun s => Own (src s) (dst s)))
        | |];
        simpl; [intros w [Hw _]; exact Hw|intros ? w Hw; exact Hw]. }
    intros ?. simpl.
    eapply triple_bind with (R := fun _ _ => True).
    2: { intros [status|]; apply triple_ret; auto. }
    eapply triple_weaken;
      [apply (triple_forM_bounded (in_window d0) (own Own))| |];
      simpl; auto.
    intros j Hj. eapply triple_bind; [apply triple_get_conv|].
    intros st'. simpl.
    apply triple_pure with (fact := dst st' = d0).
    { intros w [Hw ->]. exact Hw. }
    intros Hst'.
    eapply triple_bind.
    { eapply triple_weaken;
        [apply (triple_set_child_slices (in_window d0) Own _ _ _ _
                  (fun kid => dst_offset (dst kid) = dst_offset d0 + j
                              /\ dst_length (dst kid) = 1))| |].
      - intros kid. simpl. rewrite Hst'. auto.
      - simpl. intros w [Hw _]. exact Hw.
      - simpl. intros ? w Hw. exact Hw. }
    intros ?. simpl. apply Hcall.
    intros kid [-> ->]. unfold inside. rewrite Hst in Hj. lia. }
  destruct (storage_type (array_view c)) eqn:Hstorage;
    try (apply triple_ret; auto; fail); try exact Hunion.
  eapply triple_bind with (R := fun _ _ => True).
  2: { intros [status|]; apply triple_ret; auto. }
  eapply triple_weaken; [apply (triple_forM (in_window d0) (own Own))| |];
    simpl; auto.
  intros j. eapply triple_bind; [apply triple_get_conv|].
  intros st. simpl.
  apply triple_pure with (fact := dst st = d0).
  { intros w [Hw ->]. exact Hw. }
  intros Hst.
  eapply triple_bind.
  { eapply triple_weaken;
      [apply (triple_set_child_slices (in_window d0) Own j (src st)
                (dst_offset (dst st)) (dst_length (dst st))
                (fun kid => dst_offset (dst kid) = dst_offset d0
                            /\ dst_length (dst kid) = dst_length d0))| |].
    - intros kid. simpl. rewrite Hst. auto.
    - simpl. intros w [Hw _]. exact Hw.
    - simpl. intros ? w Hw. exact Hw. }
  intros ?. simpl. apply Hcall.
  intros kid [-> ->]. unfold inside. lia.
Qed.

End Windows.

(** X18: the windows a conversion hands on. In every call
    [nanoarrow_materialize] makes on a node, however it leaves, the
    window passed lies in the destination window of the node:
    [fill_vec_with_nulls] is called with the destination vector, offset
    and length of the node, a scalar materialiser with the destination
    slice of the node, [SET_VECTOR_ELT] of the list materialiser with the
    destination vector and an index of the window, and every child with
    a destination window that lies inside it (the same window for a
    struct, one row of it for a union); the same holds of the calls
    every child makes for its own window, at every depth. This is about
    the arguments of the calls: what [fill_vec_with_nulls] writes for
    them is the matter of X23 and, for a raw column, of C8. *)
Theorem nanoarrow_materialize_in_window {H : Host} c w :
  Forall (in_window (dst (conv w))) (nanoarrow_materialize c w).2.
Proof.
  revert w.
  induction c as [vt ext av cs IH] using RConverter_nested_ind.
  intros w. set (d0 := dst (conv w)).
  set (c := mkRConverter vt ext av cs).
  assert (Hother : forall (Inv : world -> Prop),
    triple (in_window d0) Inv (nanoarrow_materialize_other c)
           (fun _ _ => True)).
  { intros Inv. eapply triple_weaken; [apply triple_other| |]; simpl; auto. }
  assert (Hrun :
    triple (in_window d0) (fun w' => dst (conv w') = d0)
           (nanoarrow_materialize c) (fun _ _ => True)).
  { rewrite nanoarrow_materialize_eq. unfold nanoarrow_materialize_body.
    eapply triple_bind with (R := fun _ _ => True).
    2: { intros result. destruct (negb _); [apply Hother|].
         apply triple_ret. auto. }
    unfold nanoarrow_materialize_base.
    destruct (0 <? extension_name_size_bytes c); [apply Hother|].
    destruct (vector_type c) eqn:Hvt; try apply Hother;
      try apply in_window_call_scalar.
    - apply in_window_list_of.
    - apply in_window_data_frame. exact IH. }
  exact (proj1 (Hrun w eq_refl)).
Qed.

(** The calls of the dense union of three rows: the pre-fill of rows
    [0 .. 2] and three children, each with one row of the window. *)
Lemma nanoarrow_materialize_in_window_witness :
  Forall (in_window (mkVectorSlice [] 0 3))
    [Ev_fill [] 0 3;
     Ev_child 0 (mkArrayViewSlice 0 1) (mkVectorSlice [0%nat] 0 1)
       [Ev_native VECTOR_TYPE_INT (mkArrayViewSlice 0 1)
          (mkVectorSlice [0%nat] 0 1)];
     Ev_child 1 (mkArrayViewSlice 0 1) (mkVectorSlice [1%nat] 1 1)
       [Ev_native VECTOR_TYPE_INT (mkArrayViewSlice 0 1)
          (mkVectorSlice [1%nat] 1 1)];
     Ev_child 0 (mkArrayViewSlice 1 1) (mkVectorSlice [0%nat] 2 1)
       [Ev_native VECTOR_TYPE_INT (mkArrayViewSlice 1 1)
          (mkVectorSlice [0%nat] 2 1)]].
Proof.
  exact (nanoarrow_materialize_in_window (H := Demo.host) Demo.union_of_two
           Demo.union_world).
Defined.

(** ** The struct materialiser *)

Section Struct.

Context {H : Host}.

Lemma struct_body_inv c s d i w o w1 t1 :
  src (conv w) = s /\ dst (conv w) = d ->
  struct_body c i w = (Ret o, w1, t1) ->
  o = None /\ struct_row c s d i w w1 t1
  /\ (src (conv w1) = s /\ dst (conv w1) = d).
Proof.
  intros [Hs Hd] Hrun. unfold struct_body in Hrun.
  apply bind_Ret_inv in Hrun as (st & w0 & t0 & t2 & Hget & Hrun & ->).
  unfold get_conv in Hget. injection Hget as <- <- <-.
  apply bind_Ret_inv in Hrun as (u & w2 & t3 & t4 & Hset & Hrun & ->).
  apply set_child_slices_Ret_inv in Hset as (kid & Hk & Hlook & -> & ->).
  unfold return_not_ok in Hrun.
  apply bind_Ret_inv in Hrun as (result & w3 & t5 & t6 & Hcall & Hrun & ->).
  apply child_call_Ret_inv in Hcall
    as (ch & kid' & wk & inner & _ & Hch & Hlook' & Hf & -> & Hheap
        & Hs3 & Hd3).
  simpl in Hlook', Hf, Hs3, Hd3.
  rewrite list_lookup_insert_eq in Hlook'
    by (eapply lookup_lt_Some; exact Hlook).
  injection Hlook' as <-.
  pose proof (nanoarrow_materialize_Ret _ _ _ _ _ Hf) as ->.
  simpl in Hrun. unfold ret in Hrun. injection Hrun as <- <- <-.
  rewrite Hs in *. rewrite Hd in *.
  split; [reflexivity|]. split; [|split; congruence].
  exists ch, kid, wk, inner. simpl.
  unfold rebind in Hf. simpl. auto 10.
Qed.

End Struct.

(** X19: the struct case of the record materialiser (a record target
    over a struct array without dictionary). When it returns, its status
    is [NANOARROW_OK] and it went through the children [0 .. n-1] in
    order, each by one call of [nanoarrow_materialize] that returned
    [NANOARROW_OK], made with the source slice of the parent and with the
    destination offset and length of the parent on the child's own
    destination vector; each child ran on the R objects as the child
    before left them, and the slices of the parent are the ones it
    had. *)
Theorem struct_materializer_children {H : Host} c w status w' t :
  vector_type c = VECTOR_TYPE_DATA_FRAME ->
  array_dictionary (array_view c) = false ->
  storage_type (array_view c) = NANOARROW_TYPE_STRUCT ->
  nanoarrow_materialize_data_frame
    (child_call nanoarrow_materialize (children c)) c w
  = (Ret status, w', t) ->
  status = NANOARROW_OK
  /\ steps (struct_row c (src (conv w)) (dst (conv w)))
       (seqZ 0 (Z.to_nat (n_children c))) w w' t
  /\ src (conv w') = src (conv w) /\ dst (conv w') = dst (conv w).
Proof.
  intros Hvt Hdict Hst Hrun.
  assert (Hstruct :
    (let* r := forM (n_children c) (struct_body c) in
     match r with
     | Some status => ret status
     | None => ret NANOARROW_OK
     end) w = (Ret status, w', t)).
  { unfold nanoarrow_materialize_data_frame in Hrun.
    rewrite Hvt, Hdict, Hst in Hrun. exact Hrun. }
  clear Hrun.
  apply bind_Ret_inv in Hstruct as (o & w3 & t6 & t7 & Hloop & Hrun & ->).
  unfold forM in Hloop.
  set (s := src (conv w)) in *. set (d := dst (conv w)) in *.
  set (Inv := fun w0 : world => src (conv w0) = s /\ dst (conv w0) = d).
  assert (Hinv : Inv w) by (split; reflexivity).
  assert (Ho : o = None).
  { refine (forM_from_no_status Inv (struct_body c) _ _ _ _ _ _ _ Hinv Hloop).
    intros i wa oa wb tb Ha Hbody.
    destruct (struct_body_inv c s d i wa oa wb tb Ha Hbody) as (-> & _ & Hb).
    split; [reflexivity|exact Hb]. }
  subst o. unfold ret in Hrun. injection Hrun as <- <- <-.
  destruct (forM_from_all Inv (struct_row c s d) (struct_body c)) with
    (k := Z.to_nat (n_children c)) (i := 0) (w := w)
    (w' := w3) (t := t6) as [Hsteps [Hs' Hd']]; [|exact Hinv|exact Hloop|].
  { intros i wa wb tb Ha Hbody.
    destruct (struct_body_inv c s d i wa None wb tb Ha Hbody)
      as (_ & Hr & Hb).
    split; assumption. }
  rewrite app_nil_r. auto.
Qed.

Lemma struct_materializer_children_witness :
  exists w' t,
    nanoarrow_materialize_data_frame (H := Demo.host)
      (child_call (nanoarrow_materialize (H := Demo.host))
         (children struct_of_two))
      struct_of_two Demo.union_world
    = (Ret NANOARROW_OK, w', t)
    /\ steps
         (struct_row (H := Demo.host) struct_of_two (mkArrayViewSlice 0 3)
            (mkVectorSlice [] 0 3))
         [0; 1] Demo.union_world w' t.
Proof.
  eexists _, _. split.
  - vm_compute. reflexivity.
  - refine (proj1 (proj2 (struct_materializer_children (H := Demo.host)
                            struct_of_two Demo.union_world NANOARROW_OK _ _
                            eq_refl eq_refl eq_refl _))).
    vm_compute. reflexivity.
Defined.

(** ** Element conversions that fail *)

Section ElementFailures.

Context {H : Host}.

Lemma call_protocol_run {A} e (f : world -> outcome A * world) w r w1 :
  f w = (r, w1) -> call_protocol e f w = (r, w1, [e]).
Proof. unfold call_protocol. intros ->. reflexivity. Qed.

Lemma materialize_list_element_reserve_failed converter offset length w
    status w1 :
  nanoarrow_converter_reserve converter length w = (Ret status, w1) ->
  status <> NANOARROW_OK ->
  materialize_list_element converter offset length w
  = (Rf_error (nanoarrow_converter_stop converter w1), w1,
     [Ev_reserve length]).
Proof.
  intros Hres Hne. unfold materialize_list_element.
  rewrite (bind_run _ _ _ _ _ _ (call_protocol_run _ _ _ _ _ Hres)).
  destruct (Z.eqb_spec status NANOARROW_OK) as [|_]; [contradiction|].
  reflexivity.
Qed.

Lemma materialize_list_element_short converter offset length w w1 n w2 :
  nanoarrow_converter_reserve converter length w = (Ret NANOARROW_OK, w1) ->
  nanoarrow_converter_materialize_n converter length
    (element_world offset length w1) = (Ret n, w2) ->
  n <> length ->
  materialize_list_element converter offset length w
  = (Ret EINVAL, w2,
     element_request (vec_sexp (dst (conv w1))) offset length).
Proof.
  intros Hres Hn Hne. unfold materialize_list_element.
  rewrite (bind_run _ _ _ _ _ _ (call_protocol_run _ _ _ _ _ Hres)).
  unfold element_world in Hn.
  unfold bind, ret, get_conv, put_conv, call_protocol. cbn.
  rewrite Hn. cbn.
  destruct (Z.eqb_spec n length) as [|_]; [contradiction|]. reflexivity.
Qed.

Lemma materialize_list_element_finalized converter offset length w w1 w2
    r w3 :
  nanoarrow_converter_reserve converter length w = (Ret NANOARROW_OK, w1) ->
  nanoarrow_converter_materialize_n converter length
    (element_world offset length w1) = (Ret length, w2) ->
  nanoarrow_converter_finalize converter w2 = (r, w3) ->
  materialize_list_element converter offset length w
  = (r, w3,
     element_request (vec_sexp (dst (conv w1))) offset length
       ++ [Ev_finalize]).
Proof.
  intros Hres Hn Hfin. unfold materialize_list_element.
  rewrite (bind_run _ _ _ _ _ _ (call_protocol_run _ _ _ _ _ Hres)).
  unfold element_world in Hn.
  unfold bind, ret, get_conv, put_conv, call_protocol. cbn.
  rewrite Hn. cbn. rewrite Z.eqb_refl. cbn. rewrite Hfin. cbn.
  destruct r as [status| |]; try reflexivity.
  destruct (Z.eqb_spec status NANOARROW_OK) as [->|_]; reflexivity.
Qed.

(** An element conversion that returns another status than
    [NANOARROW_OK]. *)
Lemma materialize_list_element_status converter offset length w status w'
    t :
  materialize_list_element converter offset length w = (Ret status, w', t) ->
  status <> NANOARROW_OK ->
  exists vec,
    (status = EINVAL /\ t = element_request vec offset length)
    \/ t = element_request vec offset length ++ [Ev_finalize].
Proof.
  intros Hrun Hne.
  destruct (nanoarrow_converter_reserve converter length w)
    as [[status0| |] w1] eqn:Hres.
  2,3: unfold materialize_list_element, bind, call_protocol in Hrun;
       rewrite Hres in Hrun; discriminate Hrun.
  destruct (Z.eq_dec status0 NANOARROW_OK) as [->|Hne0].
  2: { rewrite (materialize_list_element_reserve_failed _ _ _ _ _ _ Hres Hne0)
         in Hrun. discriminate Hrun. }
  exists (vec_sexp (dst (conv w1))).
  destruct (nanoarrow_converter_materialize_n converter length
              (element_world offset length w1)) as [[n| |] w2] eqn:Hn.
  2,3: unfold materialize_list_element in Hrun;
       rewrite (bind_run _ _ _ _ _ _ (call_protocol_run _ _ _ _ _ Hres))
         in Hrun;
       unfold element_world in Hn;
       unfold bind, ret, get_conv, put_conv, call_protocol in Hrun;
       cbn in Hrun; rewrite Hn in Hrun; discriminate Hrun.
  destruct (Z.eq_dec n length) as [->|Hnl].
  - destruct (nanoarrow_converter_finalize converter w2) as [r w3] eqn:Hfin.
    rewrite (materialize_list_element_finalized _ _ _ _ _ _ _ _ Hres Hn Hfin)
      in Hrun.
    injection Hrun as _ _ <-. right. reflexivity.
  - rewrite (materialize_list_element_short _ _ _ _ _ _ _ Hres Hn Hnl)
      in Hrun.
    injection Hrun as <- _ <-. left. auto.
Qed.

End ElementFailures.

(** X20: how [materialize_list_element] fails. When reserving does not
    return [NANOARROW_OK], the function leaves through the R error of
    [nanoarrow_converter_stop]: the slices of the element converter have
    not been rebound and it has not been asked to materialise. When the
    converter materialises another number of elements than requested, the
    function returns [EINVAL] and does not finalise. Otherwise it leaves
    as finalising does, with its status. *)
Theorem materialize_list_element_failures {H : Host} converter offset length
    w :
  (forall status w1,
      nanoarrow_converter_reserve converter length w = (Ret status, w1) ->
      status <> NANOARROW_OK ->
      materialize_list_element converter offset length w
      = (Rf_error (nanoarrow_converter_stop converter w1), w1,
         [Ev_reserve length]))
  /\ (forall w1 n w2,
         nanoarrow_converter_reserve converter length w
         = (Ret NANOARROW_OK, w1) ->
         nanoarrow_converter_materialize_n converter length
           (element_world offset length w1) = (Ret n, w2) ->
         (n <> length ->
          materialize_list_element converter offset length w
          = (Ret EINVAL, w2,
             element_request (vec_sexp (dst (conv w1))) offset length))
         /\ (n = length ->
             forall r w3,
               nanoarrow_converter_finalize converter w2 = (r, w3) ->
               materialize_list_element converter offset length w
               = (r, w3,
                  element_request (vec_sexp (dst (conv w1))) offset length
                    ++ [Ev_finalize]))).
Proof.
  split.
  - intros status w1.
    apply materialize_list_element_reserve_failed.
  - intros w1 n w2 Hres Hn. split.
    + intros Hne.
      exact (materialize_list_element_short _ _ _ _ _ _ _ Hres Hn Hne).
    + intros -> r w3 Hfin.
      exact (materialize_list_element_finalized _ _ _ _ _ _ _ _ Hres Hn
               Hfin).
Qed.

Lemma materialize_list_element_failures_witness :
  materialize_list_element (H := short_host)
    (Demo.leaf VECTOR_TYPE_INT (NANOARROW_TYPE_PRIMITIVE 0)) 2 3
    (mkWorld (Demo.state [] 0 0 []) R_NilValue)
  = (Ret EINVAL,
     element_world 2 3 (mkWorld (Demo.state [] 0 0 []) R_NilValue),
     element_request [] 2 3).
Proof.
  apply (proj1 (proj2 (materialize_list_element_failures (H := short_host)
                         (Demo.leaf VECTOR_TYPE_INT
                            (NANOARROW_TYPE_PRIMITIVE 0))
                         2 3 (mkWorld (Demo.state [] 0 0 []) R_NilValue))
                  (mkWorld (Demo.state [] 0 0 []) R_NilValue) 2
                  (element_world 2 3
                     (mkWorld (Demo.state [] 0 0 []) R_NilValue))
                  eq_refl eq_refl)).
  discriminate.
Defined.

(** ** Lists that stop *)

Section ListStops.

Context {H : Host}.

(** A loop that returned a status: the rows before the one that returned
    it went by, and that row is as [F] says. *)
Lemma forM_from_stop (Inv : world -> Prop)
    (R : Z -> world -> world -> list event -> Prop)
    (F : Z -> Z -> world -> world -> list event -> Prop) body :
  (forall i w o w1 t1,
      Inv w -> body i w = (Ret o, w1, t1) ->
      match o with
      | Some status => F i status w w1 t1
      | None => R i w w1 t1 /\ Inv w1
      end) ->
  forall k i w status w' t,
    Inv w -> forM_from i k body w = (Ret (Some status), w', t) ->
    exists j wj tp tj,
      (j < k)%nat /\ steps R (seqZ i j) w wj tp
      /\ F (i + Z.of_nat j) status wj w' tj /\ t = tp ++ tj.
Proof.
  intros Hbody. induction k as [|k IH]; intros i w status w' t Hinv; simpl.
  - unfold ret. discriminate.
  - intros Hrun.
    apply bind_Ret_inv in Hrun as (o1 & w1 & t1 & t2 & Hrow & Hrest & ->).
    pose proof (Hbody i w o1 w1 t1 Hinv Hrow) as Hstep.
    destruct o1 as [status1|].
    + unfold ret in Hrest. injection Hrest as <- <- <-.
      exists O, w, [], t1. rewrite Z.add_0_r, app_nil_r.
      repeat split; [lia|constructor|exact Hstep].
    + destruct Hstep as [HR Hinv1].
      destruct (IH (i + 1) w1 status w' t2 Hinv1 Hrest)
        as (j & wj & tp & tj & Hj & Hsteps & HF & ->).
      exists (S j), wj, (t1 ++ tp), tj.
      replace (i + Z.of_nat (S j)) with (i + 1 + Z.of_nat j) by lia.
      repeat split; [lia| |exact HF|apply app_assoc].
      simpl. econstructor; eassumption.
Qed.

Lemma list_row_stop c child s d i offset length w status w1 t1 :
  ArrowArrayViewIsNull (array_view c) (src_offset s + i) = false ->
  element_range (array_view c)
    (array_offset (array_view c) + src_offset s) i offset length ->
  list_row child d i offset length w = (Ret (Some status), w1, t1) ->
  list_row_failed c child s i status w w1 t1.
Proof.
  intros Hnull Hrange Hrun. unfold list_row in Hrun.
  apply bind_Ret_inv in Hrun as (status0 & wa & ta & tb & Helt & Hrun & ->).
  destruct (Z.eqb_spec status0 NANOARROW_OK) as [->|Hne]; simpl in Hrun.
  { apply bind_Ret_inv in Hrun as (? & ? & ? & ? & _ & Hrun & _).
    apply bind_Ret_inv in Hrun as (? & ? & ? & ? & _ & Hrun & _).
    apply bind_Ret_inv in Hrun as (? & ? & ? & ? & _ & Hrun & _).
    discriminate Hrun. }
  unfold ret in Hrun. injection Hrun as <- <- <-. rewrite app_nil_r.
  split; [exact Hnull|]. split; [exact Hne|].
  pose proof Helt as Hinner.
  apply on_child_Ret_inv in Hinner as (kid & wk & _ & _ & Hinner & _).
  destruct (materialize_list_element_status _ _ _ _ _ _ _ Hinner Hne)
    as [vec Hshape].
  exists offset, length, vec. auto.
Qed.

End ListStops.

(** X21: the list materialiser stops at the first row whose element
    conversion fails. When it returns a status other than [NANOARROW_OK]
    for a LIST, LARGE_LIST or FIXED_SIZE_LIST array without dictionary,
    there is a row [j] of the destination slice such that the rows before
    it went by as rows of a list do (null rows untouched, the others
    converted on the element converter and the value it released stored
    at their index), row [j] is not null and the conversion of its range
    returned that status, nothing was released or stored for it, and no
    row after it was looked at. *)
Theorem list_materializer_stops {H : Host} c child rest w status w' t :
  children c = child :: rest ->
  array_dictionary (array_view c) = false ->
  storage_type (array_view c) = NANOARROW_TYPE_LIST
  \/ storage_type (array_view c) = NANOARROW_TYPE_LARGE_LIST
  \/ storage_type (array_view c) = NANOARROW_TYPE_FIXED_SIZE_LIST ->
  nanoarrow_materialize_list_of c w = (Ret status, w', t) ->
  status <> NANOARROW_OK ->
  exists j wj tp tj,
    (j < Z.to_nat (dst_length (dst (conv w))))%nat
    /\ steps (list_row_spec c (src (conv w)) (dst (conv w)))
         (seqZ 0 j) w wj tp
    /\ list_row_failed c child (src (conv w)) (Z.of_nat j) status wj w' tj
    /\ t = tp ++ tj.
Proof.
  intros Hch Hdict Hst Hrun Hne. unfold nanoarrow_materialize_list_of in Hrun.
  assert (Hch0 : children c !! 0%nat = Some child)
    by (rewrite Hch; reflexivity).
  rewrite Hch in Hrun.
  apply bind_Ret_inv in Hrun as (st & w0 & t0 & t1 & Hget & Hrun & ->).
  unfold get_conv in Hget. injection Hget as <- <- <-.
  rewrite Hdict in Hrun.
  apply bind_Ret_inv in Hrun as (o & w1 & t2 & t3 & Hloop & Hrun & ->).
  set (s := src (conv w)) in *. set (d := dst (conv w)) in *.
  set (Inv := fun w0 : world => src (conv w0) = s /\ dst (conv w0) = d).
  assert (Hinv : Inv w) by (split; reflexivity).
  assert (Hrows : forall body,
    list_body_ok c s d body ->
    (forall i wa status1 wb tb,
        Inv wa -> body i wa = (Ret (Some status1), wb, tb) ->
        list_row_failed c child s i status1 wa wb tb) ->
    forM (dst_length d) body w = (Ret o, w1, t2) ->
    exists j wj tp tj,
      (j < Z.to_nat (dst_length d))%nat
      /\ steps (list_row_spec c s d) (seqZ 0 j) w wj tp
      /\ list_row_failed c child s (Z.of_nat j) status wj w' tj
      /\ t2 ++ t3 = tp ++ tj).
  { intros body Hok Hfail Hfor.
    destruct o as [status1|]; unfold ret in Hrun.
    2: { injection Hrun as <- _ _. contradiction. }
    injection Hrun as -> <- <-. rewrite app_nil_r.
    refine (forM_from_stop Inv (list_row_spec c s d)
              (list_row_failed c child s) body _ _ 0 w status w1 t2 Hinv
              Hfor).
    intros i wa oa wb tb Ha Hbody.
    destruct oa as [status1|]; [exact (Hfail _ _ _ _ _ Ha Hbody)|].
    exact (Hok i wa None wb tb Ha Hbody). }
  destruct Hst as [Hst|[Hst|Hst]]; rewrite Hst in Hloop; simpl in Hloop.
  - refine (Hrows _ (list_body_int32 c child s d Hch0 Hst) _ Hloop).
    intros i wa status1 wb tb Ha Hbody.
    destruct (ArrowArrayViewIsNull (array_view c) (src_offset s + i))
      eqn:Hnull; simpl in Hbody; [discriminate Hbody|].
    apply bind_Ret_inv in Hbody as (offset & wx & ta & tc & Hoff & Hbody & ->).
    apply leave_Ret_inv in Hoff as (Hoff & -> & ->).
    apply bind_Ret_inv in Hbody as (next & wy & td & te & Hnext & Hbody & ->).
    apply leave_Ret_inv in Hnext as (Hnext & -> & ->).
    simpl.
    refine (list_row_stop c child s d i offset (next - offset) wa status1 wb
              te Hnull _ Hbody).
    unfold element_range. rewrite Hst. eauto.
  - refine (Hrows _ (list_body_int64 c child s d Hch0 Hst) _ Hloop).
    intros i wa status1 wb tb Ha Hbody.
    destruct (ArrowArrayViewIsNull (array_view c) (src_offset s + i))
      eqn:Hnull; simpl in Hbody; [discriminate Hbody|].
    apply bind_Ret_inv in Hbody as (offset & wx & ta & tc & Hoff & Hbody & ->).
    apply leave_Ret_inv in Hoff as (Hoff & -> & ->).
    apply bind_Ret_inv in Hbody as (next & wy & td & te & Hnext & Hbody & ->).
    apply leave_Ret_inv in Hnext as (Hnext & -> & ->).
    simpl.
    refine (list_row_stop c child s d i offset (next - offset) wa status1 wb
              te Hnull _ Hbody).
    unfold element_range. rewrite Hst. eauto.
  - refine (Hrows _ (list_body_fixed c child s d Hch0 Hst) _ Hloop).
    intros i wa status1 wb tb Ha Hbody.
    destruct (ArrowArrayViewIsNull (array_view c) (src_offset s + i))
      eqn:Hnull; simpl in Hbody; [discriminate Hbody|].
    refine (list_row_stop c child s d i _ _ wa status1 wb tb Hnull _ Hbody).
    unfold element_range. rewrite Hst. auto.
Qed.

Lemma list_materializer_stops_witness :
  exists j wj tp tj,
    (j < 3)%nat
    /\ steps
         (list_row_spec (H := short_host) Demo.list_of_int
            (mkArrayViewSlice 0 3) (mkVectorSlice [] 0 3))
         (seqZ 0 j) Demo.list_world wj tp
    /\ list_row_failed (H := short_host) Demo.list_of_int
         (Demo.leaf VECTOR_TYPE_INT (NANOARROW_TYPE_PRIMITIVE 0))
         (mkArrayViewSlice 0 3) (Z.of_nat j) EINVAL wj
         (nanoarrow_materialize_list_of (H := short_host) Demo.list_of_int
            Demo.list_world).1.2
         tj
    /\ (nanoarrow_materialize_list_of (H := short_host) Demo.list_of_int
          Demo.list_world).2
       = tp ++ tj.
Proof.
  apply (list_materializer_stops (H := short_host) Demo.list_of_int
           (Demo.leaf VECTOR_TYPE_INT (NANOARROW_TYPE_PRIMITIVE 0)) []
           Demo.list_world EINVAL);
    [reflexivity|reflexivity|left; reflexivity|vm_compute; reflexivity
    |discriminate].
Defined.

(** With an element converter that materialises at most two elements, the
    list with offsets [0, 2, 2, 5] stops at its third row: the first two
    rows are stored, the third is asked for and not finalised. *)
Example list_stops_at_row_2 :
  nanoarrow_materialize_list_of (H := short_host) Demo.list_of_int
    Demo.list_world
  = (Ret EINVAL,
     mkWorld
       (Demo.state [] 0 3
          [mkConverterState R_NilValue (mkArrayViewSlice 2 3)
             (mkVectorSlice [] 0 3) []])
       (Robj []
          (Generic [Robj [] (Generic []); Robj [] (Generic []); R_NilValue])),
     element_events [] 0 2 [] 0 (Robj [] (Generic []))
     ++ element_events [] 2 0 [] 1 (Robj [] (Generic []))
     ++ element_request [] 2 3).
Proof. reflexivity. Qed.
